(** * preact-node-system: the graph-editing engine, embedded and verified

    The development follows the TypeScript sources:
    - [hooks/useHistory.ts]           the bounded undo/redo store;
    - [utils/geometry.ts]             point/segment distance;
    - [hooks/usePanning.ts]           wheel pan and zoom;
    - [hooks/useConnectionDrag.ts]    connection validation on port pointer-up;
    - [hooks/useKeyboardShortcuts.ts] the arrow-key nudge;
    - [NodeSystem.tsx]                the coordinator that turns callbacks into
                                      history commits.

    Conventions of the embedding.
    - A JavaScript [number] is a real number: arithmetic is exact, there is
      no NaN, no infinity and no rounding.
    - A [string] is a [string]; an optional field is an [option].
    - An array is a [list]; [Record<string, V>] is a [gmap string V].
    - A hook state cell updated through [setX (prev => ...)] is explicit
      state passing: every handler is a function from the cell's current
      value to its next value.  What a handler closes over at render time
      (for instance the [nodes] of the last render) is an explicit argument,
      separate from the cell it updates.
    - Connection objects are compared with [!==] in the sources, which is
      object identity; a connection therefore carries the reference of the
      object that holds it. *)

From Stdlib Require Import List String Bool Arith Lia Reals Lra.
From Stdlib Require Import Ascii ZArith.
From stdpp Require Import gmap strings.
Import ListNotations.

Local Open Scope list_scope.

(** ** HistoryStore ([hooks/useHistory.ts]) *)

Module History.

Section Store.
Context {T : Type}.

Record HistoryState := mkHistory {
past : list T;
present : T;
future : list T
}.

(** [useHistory(initialPresent, maxHistory = 50)] *)
Definition defaultMaxHistory : nat := 50.

Definition init (initialPresent : T) : HistoryState :=
{| past := []; present := initialPresent; future := [] |}.

Definition canUndo (history : HistoryState) : bool :=
0 <? length (past history).

Definition canRedo (history : HistoryState) : bool :=
0 <? length (future history).

(** [curr.past[curr.past.length - 1]] and [curr.past.slice(0, length - 1)];
  the index is in range because of the emptiness test before it. *)
Definition undo (curr : HistoryState) : HistoryState :=
if length (past curr) =? 0 then curr
else
  match nth_error (past curr) (length (past curr) - 1) with
  | Some previous =>
      let newPast := firstn (length (past curr) - 1) (past curr) in
      {| past := newPast;
         present := previous;
         future := present curr :: future curr |}
  | None => curr
  end.

(** [curr.future[0]] and [curr.future.slice(1)] *)
Definition redo (curr : HistoryState) : HistoryState :=
if length (future curr) =? 0 then curr
else
  match nth_error (future curr) 0 with
  | Some next =>
      let newFuture := skipn 1 (future curr) in
      {| past := past curr ++ [present curr];
         present := next;
         future := newFuture |}
  | None => curr
  end.

(** [set(newPresent, { replace })]; [newPast.shift()] drops the head. *)
Definition set (maxHistory : nat) (curr : HistoryState)
         (newPresent : T) (replace : bool) : HistoryState :=
if replace then
  {| past := past curr; present := newPresent; future := future curr |}
else
  let newPast := past curr ++ [present curr] in
  let newPast := if maxHistory <? length newPast then skipn 1 newPast
                 else newPast in
  {| past := newPast; present := newPresent; future := [] |}.

(** A run of commits that all carry the same [replace] flag. *)
Definition setAll (maxHistory : nat) (replace : bool)
         (curr : HistoryState) (states : list T) : HistoryState :=
fold_left (fun h s => set maxHistory h s replace) states curr.

(** Everything the store remembers up to now, oldest first. *)
Definition trail (h : HistoryState) : list T := past h ++ [present h].

(** The last [n] entries of a list. *)
Definition lastn (n : nat) (l : list T) : list T :=
skipn (length l - n) l.

End Store.

Arguments HistoryState : clear implicits.

End History.

(** ** Data model ([components/Node/node.ts]) *)

Inductive PortDirection := input | output.

Record PortDef := {
  pd_name : string;
  pd_type : string
}.

Record NodeTypeDef := {
  nt_id : string;
  nt_title : option string;
  nt_category : option string;
  nt_inputs : list PortDef;
  nt_outputs : list PortDef;
  nt_color : option string;
  nt_showOutputs : option bool
}.

(** Port values are opaque to the engine. *)
Inductive JsValue :=
| JsNumber (r : R)
| JsString (s : string)
| JsBoolean (b : bool).

Record NodeData := {
  n_id : string;
  n_type : string;
  n_x : R;
  n_y : R;
  n_width : option R;
  n_height : option R;
  n_data : option (gmap string JsValue);
  n_selected : option bool
}.

Record Endpoint := {
  nodeId : string;
  port : string;
  portDef : option PortDef
}.

(** A connection object.  [ref] is the identity of the JavaScript object:
    [c !== d] on two connection objects is [ref c <> ref d]. *)
Record Connection := {
  ref : nat;
  from : Endpoint;
  to : Endpoint
}.

Record AppState := {
  nodes : list NodeData;
  connections : list Connection
}.

(** [{ ...n, x, y }] *)
Definition withPosition (n : NodeData) (x y : R) : NodeData :=
  {| n_id := n_id n; n_type := n_type n; n_x := x; n_y := y;
     n_width := n_width n; n_height := n_height n; n_data := n_data n;
     n_selected := n_selected n |}.

(** [{ ...n, selected: b }] *)
Definition withSelected (n : NodeData) (b : bool) : NodeData :=
  {| n_id := n_id n; n_type := n_type n; n_x := n_x n; n_y := n_y n;
     n_width := n_width n; n_height := n_height n; n_data := n_data n;
     n_selected := Some b |}.

(** Truthiness of the optional flag [n.selected]. *)
Definition isSelected (n : NodeData) : bool :=
  match n_selected n with Some b => b | None => false end.

(** [ids.includes(s)] *)
Definition includes (ids : list string) (s : string) : bool :=
  existsb (String.eqb s) ids.

(** ** Geometry ([utils/geometry.ts]) *)

Module Geometry.
Local Open Scope R_scope.

Record Point := { x : R; y : R }.

(** [Math.hypot(u, v)] *)
Definition hypot (u v : R) : R := sqrt (u * u + v * v).

Definition distancePointToSegment (p a b : Point) : R :=
  let l2 := (x b - x a) ^ 2 + (y b - y a) ^ 2 in
  if Req_dec_T l2 0 then hypot (x p - x a) (y p - y a)
  else
    let t := ((x p - x a) * (x b - x a) + (y p - y a) * (y b - y a)) / l2 in
    let t := Rmax 0 (Rmin 1 t) in
    let projectionX := x a + t * (x b - x a) in
    let projectionY := y a + t * (y b - y a) in
    hypot (x p - projectionX) (y p - projectionY).

Definition projectPointToSegment (p a b : Point) : Point :=
  let l2 := (x b - x a) ^ 2 + (y b - y a) ^ 2 in
  if Req_dec_T l2 0 then {| x := x a; y := y a |}
  else
    let t := ((x p - x a) * (x b - x a) + (y p - y a) * (y b - y a)) / l2 in
    let t := Rmax 0 (Rmin 1 t) in
    {| x := x a + t * (x b - x a); y := y a + t * (y b - y a) |}.

Definition distance (a b : Point) : R := hypot (x a - x b) (y a - y b).

(** The point of the line through [a] and [b] at parameter [s]; it lies
    on the segment when [0 <= s <= 1]. *)
Definition pointAt (a b : Point) (s : R) : Point :=
  {| x := x a + s * (x b - x a); y := y a + s * (y b - y a) |}.

Definition onSegment (p a b : Point) : Prop :=
  exists s, 0 <= s <= 1 /\ p = pointAt a b s.

(** The clamped parameter that [distancePointToSegment] projects with. *)
Definition clampedParameter (p a b : Point) : R :=
  let l2 := (x b - x a) ^ 2 + (y b - y a) ^ 2 in
  Rmax 0 (Rmin 1 (((x p - x a) * (x b - x a) + (y p - y a) * (y b - y a))
                  / l2)).
End Geometry.

(** ** CoordinateTransform ([hooks/usePanning.ts]) *)

Module Panning.
Import Geometry.
Local Open Scope R_scope.

Record WheelEvent := {
  deltaY : R;
  ctrlKey : bool;
  metaKey : bool
}.

(** The two state cells of [usePanning]. *)
Record PanningState := {
  offset : Point;
  scale : R
}.

Definition initial : PanningState :=
  {| offset := {| x := 0; y := 0 |}; scale := 1 |}.

Definition handleWheel (e : WheelEvent) (st : PanningState) : PanningState :=
  let isCtrlOrCmd := ctrlKey e || metaKey e in
  if isCtrlOrCmd then
    let delta := - deltaY e * 0.001 in
    {| scale := Rmin (Rmax 0.2 (scale st + delta)) 2;
       offset := {| x := x (offset st) - deltaY e; y := y (offset st) |} |}
  else
    {| scale := scale st;
       offset := {| x := x (offset st); y := y (offset st) - deltaY e |} |}.

Definition handleWheels (es : list WheelEvent) (st : PanningState)
  : PanningState :=
  fold_left (fun s e => handleWheel e s) es st.

Definition scaleInRange (s : R) : Prop := 0.2 <= s <= 2.
End Panning.

(** ** ConnectionDragController ([hooks/useConnectionDrag.ts]) *)

Module ConnectionDrag.
Import Geometry.

(** [NewConnection]: the fixed end of the drag in progress. *)
Record NewConnection := {
  nc_from : option Endpoint;
  nc_to : option Endpoint
}.

Record ConnectionPreview := {
  start : Point;
  end_ : Point
}.

(** The state cells the hook reads and writes: its own two cells and the
    platform's warning cell, reached through [setWarningMessage]. *)
Record Gesture := {
  newConnection : option NewConnection;
  connectionPreview : option ConnectionPreview;
  warningMessage : option string
}.

(** [!s] on a [string | undefined]: undefined and the empty string are
    both falsy. *)
Definition falsy (s : option string) : bool :=
  match s with
  | None => true
  | Some s => String.eqb s ""
  end.

Definition orEmpty (s : option string) : string :=
  match s with Some s => s | None => "" end.

Definition setWarningMessage (g : Gesture) (m : option string) : Gesture :=
  {| newConnection := newConnection g;
     connectionPreview := connectionPreview g;
     warningMessage := m |}.

(** [setNewConnection(null); setConnectionPreview(null)] *)
Definition clearGesture (g : Gesture) : Gesture :=
  {| newConnection := None;
     connectionPreview := None;
     warningMessage := warningMessage g |}.

(** What the hook reads of the platform: the cached port positions,
    the bounding rectangle of [platformRef.current] (absent before the
    platform is mounted), and the viewport. *)
Record Rect := { left : R; top : R }.

Record View := {
  portPositions : gmap string Point;
  platformRect : option Rect;
  offset : Point;
  scale : R
}.

(** [(client - platformRect.left - offset.x) / scale], on both axes. *)
Definition toWorld (v : View) (rect : Rect) (clientX clientY : R) : Point :=
  {| x := (clientX - left rect - x (offset v)) / scale v;
     y := (clientY - top rect - y (offset v)) / scale v |}%R.

(** [handlePortPointerDown].  The result is the next value of the state
    cells and the argument of the call to [onDeleteConnection], if the
    call is made. *)
Definition handlePortPointerDown
           (edges : list Connection) (v : View) (g : Gesture)
           (nodeId_ : string) (port_ : PortDef) (direction : PortDirection)
           (clientX clientY : R)
  : Gesture * option Connection :=
  let g := setWarningMessage g None in
  let portKey := (nodeId_ ++ "-" ++ pd_name port_)%string in
  match portPositions v !! portKey, platformRect v with
  | Some pos, Some rect =>
      let existingConnection :=
        match direction with
        | input =>
            find (fun e => String.eqb (nodeId (to e)) nodeId_ &&
                           String.eqb (port (to e)) (pd_name port_)) edges
        | output => None
        end in
      match existingConnection with
      | Some existingConnection => (g, Some existingConnection)
      | None =>
          let fixed := {| nodeId := nodeId_; port := pd_name port_;
                          portDef := Some port_ |} in
          ({| newConnection :=
                Some match direction with
                     | output => {| nc_from := Some fixed; nc_to := None |}
                     | input => {| nc_from := None; nc_to := Some fixed |}
                     end;
              connectionPreview :=
                Some {| start := pos;
                        end_ := toWorld v rect clientX clientY |};
              warningMessage := warningMessage g |},
           None)
      end
  | _, _ => (g, None)
  end.

(** [handlePointerMove] *)
Definition handlePointerMove (v : View) (clientX clientY : R) (g : Gesture)
  : Gesture :=
  match connectionPreview g, newConnection g, platformRect v with
  | Some _, Some _, Some rect =>
      {| newConnection := newConnection g;
         connectionPreview :=
           match connectionPreview g with
           | Some prev => Some {| start := start prev;
                                  end_ := toWorld v rect clientX clientY |}
           | None => None
           end;
         warningMessage := warningMessage g |}
  | _, _, _ => g
  end.

(** The two cells of the gesture are set together and cleared together:
    there is a preview only while there is a drag. *)
Definition coherent (g : Gesture) : Prop :=
  newConnection g = None -> connectionPreview g = None.

(** [edges.some(e => e.from.nodeId === fromNodeId && ... )] *)
Definition isDuplicate (edges : list Connection)
           (fromNodeId fromPortName toNodeId toPortName : string) : bool :=
  existsb (fun e =>
             String.eqb (nodeId (from e)) fromNodeId &&
             String.eqb (port (from e)) fromPortName &&
             String.eqb (nodeId (to e)) toNodeId &&
             String.eqb (port (to e)) toPortName) edges.

(** [edges.some(e => e.to.nodeId === toNodeId && e.to.port === toPortName)] *)
Definition inputAlreadyConnected (edges : list Connection)
           (toNodeId toPortName : string) : bool :=
  existsb (fun e =>
             String.eqb (nodeId (to e)) toNodeId &&
             String.eqb (port (to e)) toPortName) edges.

(** [handlePortPointerUp].  [nodes], [edges] and [nodeTypes] are what the
    hook was configured with at the last render; [fresh] is the identity
    of the object literal handed to [onCompleteConnection].  The result
    is the next value of the state cells and the argument of the call to
    [onCompleteConnection], if the call is made. *)
Definition handlePortPointerUp
           (nodes : list NodeData) (edges : list Connection)
           (nodeTypes : gmap string NodeTypeDef) (fresh : nat)
           (g : Gesture)
           (nodeId_ : string) (port_ : PortDef) (direction : PortDirection)
  : Gesture * option Connection :=
  match newConnection g with
  | None => (g, None)
  | Some newConnection_ =>
    let '(fromNodeId, fromPortName, toNodeId, toPortName) :=
      match direction with
      | input =>
          (option_map nodeId (nc_from newConnection_),
           option_map port (nc_from newConnection_),
           Some nodeId_,
           Some (pd_name port_))
      | output =>
          (Some nodeId_,
           Some (pd_name port_),
           option_map nodeId (nc_to newConnection_),
           option_map port (nc_to newConnection_))
      end in
    if falsy fromNodeId || falsy fromPortName ||
       falsy toNodeId || falsy toPortName
    then (clearGesture g, None)
    else
      let fromNodeId := orEmpty fromNodeId in
      let fromPortName := orEmpty fromPortName in
      let toNodeId := orEmpty toNodeId in
      let toPortName := orEmpty toPortName in
      let fromNode := find (fun n => String.eqb (n_id n) fromNodeId) nodes in
      let toNode := find (fun n => String.eqb (n_id n) toNodeId) nodes in
      let fromNodeType :=
        match fromNode with
        | Some n => nodeTypes !! n_type n
        | None => None
        end in
      let toNodeType :=
        match toNode with
        | Some n => nodeTypes !! n_type n
        | None => None
        end in
      let fromPortDef :=
        match fromNodeType with
        | Some nt => find (fun p => String.eqb (pd_name p) fromPortName)
                          (nt_outputs nt)
        | None => None
        end in
      let toPortDef :=
        match toNodeType with
        | Some nt => find (fun p => String.eqb (pd_name p) toPortName)
                          (nt_inputs nt)
        | None => None
        end in
      if String.eqb fromNodeId toNodeId then
        (clearGesture
           (setWarningMessage g (Some "Cannot connect a node to itself")),
         None)
      else
        match fromNodeType, toNodeType with
        | Some _, Some _ =>
          match fromPortDef, toPortDef with
          | Some fromPortDef, Some toPortDef =>
            if negb (String.eqb (pd_type fromPortDef) (pd_type toPortDef))
            then
              (clearGesture
                 (setWarningMessage g
                    (Some ("Cannot connect ports of different types: " ++
                           pd_type fromPortDef ++ " and " ++
                           pd_type toPortDef)%string)),
               None)
            else if isDuplicate edges fromNodeId fromPortName
                                toNodeId toPortName
            then
              (clearGesture
                 (setWarningMessage g
                    (Some "This connection already exists")),
               None)
            else if inputAlreadyConnected edges toNodeId toPortName
            then
              (clearGesture
                 (setWarningMessage g
                    (Some ("Input port " ++
                           String (Ascii.ascii_of_nat 34) toPortName ++
                           String (Ascii.ascii_of_nat 34)
                                  " is already connected")%string)),
               None)
            else
              (clearGesture g,
               Some {| ref := fresh;
                       from := {| nodeId := fromNodeId;
                                  port := fromPortName;
                                  portDef := None |};
                       to := {| nodeId := toNodeId;
                                port := toPortName;
                                portDef := None |} |})
          | _, _ =>
            (clearGesture
               (setWarningMessage g
                  (Some "Port not found in node definition")),
             None)
          end
        | _, _ =>
          (clearGesture (setWarningMessage g (Some "Invalid node types")),
           None)
        end
  end.

(** [handlePointerUp]: the platform-level fallback. *)
Definition handlePointerUp (g : Gesture) : Gesture := clearGesture g.
End ConnectionDrag.

(** ** KeyboardShortcutRouter ([hooks/useKeyboardShortcuts.ts]) *)

Module Keyboard.
Local Open Scope R_scope.

Record KeyboardEvent := {
  key : string;
  shiftKey : bool;
  ctrlKey : bool;
  metaKey : bool
}.

(** The branch of [handleKeyDown]'s [if / else if] chain that a key
    event enters. *)
Inductive Shortcut :=
| OpenBlockMenu | DeleteSelected | CopySelected | CutSelected
| PasteClipboard | ArrowNudge | Unbound.

Definition shortcutOf (e : KeyboardEvent) (blockMenuOpen : bool) : Shortcut :=
  let isCtrlOrCmd := ctrlKey e || metaKey e in
  if shiftKey e && String.eqb (key e) "A" && negb blockMenuOpen then
    OpenBlockMenu
  else if String.eqb (key e) "Delete" || String.eqb (key e) "Backspace" then
    DeleteSelected
  else if isCtrlOrCmd &&
          (String.eqb (key e) "c" || String.eqb (key e) "C") then
    CopySelected
  else if isCtrlOrCmd &&
          (String.eqb (key e) "x" || String.eqb (key e) "X") then
    CutSelected
  else if isCtrlOrCmd && String.eqb (key e) "v" then
    PasteClipboard
  else if String.eqb (key e) "ArrowUp" ||
          String.eqb (key e) "ArrowDown" ||
          String.eqb (key e) "ArrowLeft" ||
          String.eqb (key e) "ArrowRight" then
    ArrowNudge
  else Unbound.

(** One call [onNodeMove(id, x, y)]. *)
Record MoveCall := { mv_id : string; mv_x : R; mv_y : R }.

(** The body of the arrow branch: the calls to [onNodeMove] it makes,
    in order. *)
Definition arrowBranch (e : KeyboardEvent) (nodes : list NodeData)
  : list MoveCall :=
  let isCtrlOrCmd := ctrlKey e || metaKey e in
  let selectedNodes := List.filter isSelected nodes in
  if (0 <? length selectedNodes)%nat then
    if negb isCtrlOrCmd then
      let step := if shiftKey e then 50 else 10 in
      let '(dx, dy) :=
        if String.eqb (key e) "ArrowUp" then (0, - step)
        else if String.eqb (key e) "ArrowDown" then (0, step)
        else if String.eqb (key e) "ArrowLeft" then (- step, 0)
        else if String.eqb (key e) "ArrowRight" then (step, 0)
        else (0, 0) in
      map (fun node => {| mv_id := n_id node;
                          mv_x := n_x node + dx;
                          mv_y := n_y node + dy |}) selectedNodes
    else []
  else [].

(** The calls to [onNodeMove] that [handleKeyDown] makes for a key
    event; only the arrow branch calls it. *)
Definition handleKeyDown (e : KeyboardEvent) (blockMenuOpen : bool)
           (nodes : list NodeData) : list MoveCall :=
  match shortcutOf e blockMenuOpen with
  | ArrowNudge => arrowBranch e nodes
  | _ => []
  end.
End Keyboard.

(** ** The coordinator ([components/NodeSystem/NodeSystem.tsx]) *)

Module NodeSystem.
Import History.

Abbreviation Hist := (HistoryState AppState).

(** [useHistory<AppState>({ nodes: initialNodes, connections: ... })]:
    the coordinator takes the default [maxHistory]. *)
Definition set (curr : Hist) (newPresent : AppState) (replace : bool) : Hist :=
  History.set defaultMaxHistory curr newPresent replace.

(** [PointerEvent], as far as [handleNodeSelect] reads it. *)
Record PointerEvent := {
  pe_ctrlKey : bool;
  pe_metaKey : bool
}.

(** The argument [id : string | string[] | null]. *)
Inductive SelectArg :=
| SelNull
| SelMany (ids : list string)
| SelOne (id : string).

(** The argument [id : string | string[]] of [handleNodeDelete]. *)
Inductive DeleteArg :=
| DelOne (id : string)
| DelMany (ids : list string).

Section Render.
(** What the handlers of one render close over: [history.present] at
    that render, destructured into [nodes] and [connections].  The
    handlers update the history cell [curr], which is the latest value
    and not necessarily the rendered one. *)
Variable rendered : AppState.

Definition handleNodeMove (isDragging : bool)
           (id : string) (x y : R) (curr : Hist) : Hist :=
  set curr
      {| nodes := map (fun n => if String.eqb (n_id n) id
                                then withPosition n x y else n)
                      (nodes rendered);
         connections := connections rendered |}
      isDragging.

Definition handleNodeSelect (id : SelectArg) (evt : option PointerEvent)
           (curr : Hist) : Hist :=
  match id with
  | SelNull =>
      set curr
          {| nodes := map (fun n => withSelected n false) (nodes rendered);
             connections := connections rendered |}
          true
  | SelMany ids =>
      set curr
          {| nodes := map (fun n => withSelected n (includes ids (n_id n)))
                          (nodes rendered);
             connections := connections rendered |}
          true
  | SelOne id =>
      set curr
          {| nodes :=
               let isCtrlPressed :=
                 match evt with
                 | Some evt => pe_ctrlKey evt || pe_metaKey evt
                 | None => false
                 end in
               if isCtrlPressed then
                 map (fun n => if String.eqb (n_id n) id
                               then withSelected n (negb (isSelected n))
                               else n) (nodes rendered)
               else
                 map (fun n => withSelected n (String.eqb (n_id n) id))
                     (nodes rendered);
             connections := connections rendered |}
          true
  end.

Definition handleCompleteConnection (connection : Connection)
           (curr : Hist) : Hist :=
  set curr
      {| nodes := nodes rendered;
         connections := connections rendered ++ [connection] |}
      false.

Definition handleNodeDelete (id : DeleteArg) (curr : Hist) : Hist :=
  let idsToDelete :=
    match id with DelMany ids => ids | DelOne id => [id] end in
  set curr
      {| nodes :=
           List.filter (fun n => negb (includes idsToDelete (n_id n)))
                       (nodes rendered);
         connections :=
           List.filter
             (fun c => negb (includes idsToDelete (nodeId (from c))) &&
                       negb (includes idsToDelete (nodeId (to c))))
             (connections rendered) |}
      false.

(** [onDeleteConnection] *)
Definition handleDeleteConnection (connection : Connection)
           (curr : Hist) : Hist :=
  set curr
      {| nodes := nodes rendered;
         connections :=
           List.filter (fun c => negb (ref c =? ref connection))
                       (connections rendered) |}
      false.
End Render.

(** [handleSpliceNode] reads [stateRef.current], the snapshot of the last
    render; [fresh] and [fresh + 1] are the identities of the two object
    literals it builds. *)
Definition handleSpliceNode (stateRef : AppState) (fresh : nat)
           (nodeId_ : string) (connectionToRemove : Connection)
           (inputPort outputPort : string) (newX newY : option R)
           (curr : Hist) : Hist :=
  let currentNodes := nodes stateRef in
  let currentConnections := connections stateRef in
  let connectionIn :=
    {| ref := fresh;
       from := from connectionToRemove;
       to := {| nodeId := nodeId_; port := inputPort; portDef := None |} |} in
  let connectionOut :=
    {| ref := fresh + 1;
       from := {| nodeId := nodeId_; port := outputPort; portDef := None |};
       to := to connectionToRemove |} in
  let updatedNodes :=
    match newX, newY with
    | Some newX, Some newY =>
        map (fun n => if String.eqb (n_id n) nodeId_
                      then withPosition n newX newY else n) currentNodes
    | _, _ => currentNodes
    end in
  set curr
      {| nodes := updatedNodes;
         connections :=
           List.filter (fun c => negb (ref c =? ref connectionToRemove))
                       currentConnections
           ++ [connectionIn; connectionOut] |}
      false.

(** The guard of the splice resolver's loop over the edges
    ([handleNodeDragEndWrapper]): an edge that touches the dropped node
    is never chosen. *)
Definition touches (nodeId_ : string) (edge : Connection) : bool :=
  String.eqb (nodeId (from edge)) nodeId_ ||
  String.eqb (nodeId (to edge)) nodeId_.
End NodeSystem.

(** ** The editor: the coordinator wired to the platform's hooks

    [NodeSystem] renders [NodePlatform] with [nodes] and [edges] taken from
    [history.present] (no [returningCallback] is installed), and hands its
    handlers down as callbacks.  One event is one function on the state
    below; the snapshot the handlers close over is [present] at the start
    of the event. *)

Module Editor.
Import History NodeSystem.

Record State := {
  history : Hist;
  isDraggingRef : bool;
  gesture : ConnectionDrag.Gesture;
  (** the next unused object identity *)
  nextRef : nat
}.

(** The snapshot of the last render. *)
Definition rendered (st : State) : AppState := present (history st).

(** The connection that a port pointer-up passes to
    [onCompleteConnection], if it calls it. *)
Definition completion (nodeTypes : gmap string NodeTypeDef) (st : State)
           (nodeId_ : string) (port_ : PortDef) (direction : PortDirection)
  : option Connection :=
  snd (ConnectionDrag.handlePortPointerUp
         (nodes (rendered st)) (connections (rendered st)) nodeTypes
         (nextRef st) (gesture st) nodeId_ port_ direction).

(** A pointer-up on a port: [handlePortPointerUp], with
    [onCompleteConnection = handleCompleteConnection]. *)
Definition portPointerUp (nodeTypes : gmap string NodeTypeDef) (st : State)
           (nodeId_ : string) (port_ : PortDef) (direction : PortDirection)
  : State :=
  let '(g, completed) :=
    ConnectionDrag.handlePortPointerUp
      (nodes (rendered st)) (connections (rendered st)) nodeTypes
      (nextRef st) (gesture st) nodeId_ port_ direction in
  match completed with
  | Some connection =>
      {| history := handleCompleteConnection (rendered st) connection
                                             (history st);
         isDraggingRef := isDraggingRef st;
         gesture := g;
         nextRef := S (nextRef st) |}
  | None =>
      {| history := history st;
         isDraggingRef := isDraggingRef st;
         gesture := g;
         nextRef := nextRef st |}
  end.

(** A pointer-down on a port: [handlePortPointerDown], with
    [onDeleteConnection] the coordinator's handler. *)
Definition portPointerDown (v : ConnectionDrag.View) (st : State)
           (nodeId_ : string) (port_ : PortDef) (direction : PortDirection)
           (clientX clientY : R) : State :=
  let '(g, removed) :=
    ConnectionDrag.handlePortPointerDown
      (connections (rendered st)) v (gesture st) nodeId_ port_ direction
      clientX clientY in
  {| history := match removed with
                | Some connection =>
                    handleDeleteConnection (rendered st) connection
                                           (history st)
                | None => history st
                end;
     isDraggingRef := isDraggingRef st;
     gesture := g;
     nextRef := nextRef st |}.

(** A pointer-move over the platform. *)
Definition pointerMove (v : ConnectionDrag.View) (clientX clientY : R)
           (st : State) : State :=
  {| history := history st;
     isDraggingRef := isDraggingRef st;
     gesture := ConnectionDrag.handlePointerMove v clientX clientY
                                                 (gesture st);
     nextRef := nextRef st |}.

(** A pointer-up that reaches the platform. *)
Definition pointerUp (st : State) : State :=
  {| history := history st;
     isDraggingRef := isDraggingRef st;
     gesture := ConnectionDrag.handlePointerUp (gesture st);
     nextRef := nextRef st |}.

(** A key press: [handleKeyDown], with [onNodeMove = handleNodeMove].
    Every call of the [forEach] goes to the same [handleNodeMove]
    closure, that of the last render. *)
Definition keyDown (e : Keyboard.KeyboardEvent) (blockMenuOpen : bool)
           (st : State) : State :=
  {| history :=
       fold_left
         (fun h mv => handleNodeMove (rendered st) (isDraggingRef st)
                                     (Keyboard.mv_id mv) (Keyboard.mv_x mv)
                                     (Keyboard.mv_y mv) h)
         (Keyboard.handleKeyDown e blockMenuOpen (nodes (rendered st)))
         (history st);
     isDraggingRef := isDraggingRef st;
     gesture := gesture st;
     nextRef := nextRef st |}.

(** [onNodeSelect] *)
Definition nodeSelect (id : SelectArg) (evt : option PointerEvent)
           (st : State) : State :=
  {| history := handleNodeSelect (rendered st) id evt (history st);
     isDraggingRef := isDraggingRef st;
     gesture := gesture st;
     nextRef := nextRef st |}.

(** [onNodeDelete] *)
Definition nodeDelete (id : DeleteArg) (st : State) : State :=
  {| history := handleNodeDelete (rendered st) id (history st);
     isDraggingRef := isDraggingRef st;
     gesture := gesture st;
     nextRef := nextRef st |}.

(** [onSpliceNode], called by the splice resolver with four arguments. *)
Definition spliceNode (nodeId_ : string) (connectionToRemove : Connection)
           (inputPort outputPort : string) (st : State) : State :=
  {| history := handleSpliceNode (rendered st) (nextRef st) nodeId_
                                 connectionToRemove inputPort outputPort
                                 None None (history st);
     isDraggingRef := isDraggingRef st;
     gesture := gesture st;
     nextRef := nextRef st + 2 |}.

(** Every live connection object was allocated before [nextRef]. *)
Definition refsAllocated (st : State) : Prop :=
  Forall (fun c => ref c < nextRef st) (connections (rendered st)).
End Editor.

(** ** The specification's vocabulary *)

Module Spec.
Import Geometry.
Local Open Scope string_scope.

(** *** Connections *)

(** "Two connections are equal iff all four fields match." *)
Definition sameFields (c d : Connection) : Prop :=
  nodeId (from c) = nodeId (from d) /\ port (from c) = port (from d) /\
  nodeId (to c) = nodeId (to d) /\ port (to c) = port (to d).

(** I2: both ends of a connection are nodes of the snapshot. *)
Definition hasNode (ns : list NodeData) (id : string) : Prop :=
  exists n, In n ns /\ n_id n = id.

Definition noDangling (s : AppState) : Prop :=
  forall c, In c (connections s) ->
            hasNode (nodes s) (nodeId (from c)) /\
            hasNode (nodes s) (nodeId (to c)).

(** *** The arrow-key nudge (section 4.7) *)

Definition arrowKeys : list string :=
  ["ArrowUp"; "ArrowDown"; "ArrowLeft"; "ArrowRight"].

(** The translation an arrow key asks for: 10 world units, 50 with shift,
    negative for up and left, positive for down and right. *)
Definition nudge (e : Keyboard.KeyboardEvent) : R * R :=
  let step := (if Keyboard.shiftKey e then 50 else 10)%R in
  if String.eqb (Keyboard.key e) "ArrowUp" then (0, - step)%R
  else if String.eqb (Keyboard.key e) "ArrowDown" then (0, step)%R
  else if String.eqb (Keyboard.key e) "ArrowLeft" then (- step, 0)%R
  else if String.eqb (Keyboard.key e) "ArrowRight" then (step, 0)%R
  else (0, 0)%R.

(** Every selected node translated, the others as they were. *)
Definition nudged (e : Keyboard.KeyboardEvent) (ns : list NodeData)
  : list NodeData :=
  map (fun n => if isSelected n
                then withPosition n (n_x n + fst (nudge e))
                                    (n_y n + snd (nudge e))
                else n) ns.

(** I1: node ids are unique within a snapshot. *)
Definition uniqueIds (ns : list NodeData) : Prop :=
  List.NoDup (map n_id ns).

(** The ids that a deletion request names. *)
Definition deleted (id : NodeSystem.DeleteArg) : list string :=
  match id with
  | NodeSystem.DelMany ids => ids
  | NodeSystem.DelOne id => [id]
  end.

(** *** Candidate connections (section 4.4, steps 1 to 8) *)

Record Candidate := {
  fromNodeId : string;
  fromPort : string;
  toNodeId : string;
  toPort : string
}.

(** An identifier is missing when it is undefined or empty. *)
Definition given (s : option string) : option string :=
  match s with
  | Some s => if String.eqb s "" then None else Some s
  | None => None
  end.

(** Steps 1 and 2: resolve both ends from the fixed end of the drag and
    the drop target; no candidate if an identifier is missing. *)
Definition resolveCandidate (nc : ConnectionDrag.NewConnection)
           (dropNode : string) (dropPort : PortDef)
           (direction : PortDirection) : option Candidate :=
  let fixed := match direction with
               | input => ConnectionDrag.nc_from nc
               | output => ConnectionDrag.nc_to nc
               end in
  match given (option_map nodeId fixed), given (option_map port fixed),
        given (Some dropNode), given (Some (pd_name dropPort)) with
  | Some fixedNode, Some fixedPort, Some dropNode, Some dropPort =>
      Some match direction with
           | input => {| fromNodeId := fixedNode; fromPort := fixedPort;
                         toNodeId := dropNode; toPort := dropPort |}
           | output => {| fromNodeId := dropNode; fromPort := dropPort;
                          toNodeId := fixedNode; toPort := fixedPort |}
           end
  | _, _, _, _ => None
  end.

Section Validation.
Variable ns : list NodeData.
Variable edges : list Connection.
Variable nodeTypes : gmap string NodeTypeDef.

(** The type definition of the node with a given id. *)
Definition typeOfNode (id : string) : option NodeTypeDef :=
  match find (fun n => String.eqb (n_id n) id) ns with
  | Some n => nodeTypes !! n_type n
  | None => None
  end.

Definition declared (ports : list PortDef) (name : string) : option PortDef :=
  find (fun p => String.eqb (pd_name p) name) ports.

Definition outputPort (c : Candidate) : option PortDef :=
  match typeOfNode (fromNodeId c) with
  | Some nt => declared (nt_outputs nt) (fromPort c)
  | None => None
  end.

Definition inputPort (c : Candidate) : option PortDef :=
  match typeOfNode (toNodeId c) with
  | Some nt => declared (nt_inputs nt) (toPort c)
  | None => None
  end.

(** "from.type === to.type": both ports resolve and carry one type. *)
Definition typesMatch (c : Candidate) : Prop :=
  exists p q, outputPort c = Some p /\ inputPort c = Some q /\
              pd_type p = pd_type q.

Definition exactDuplicate (c : Candidate) : Prop :=
  exists e, In e edges /\
            nodeId (from e) = fromNodeId c /\ port (from e) = fromPort c /\
            nodeId (to e) = toNodeId c /\ port (to e) = toPort c.

Definition inputTaken (c : Candidate) : Prop :=
  exists e, In e edges /\
            nodeId (to e) = toNodeId c /\ port (to e) = toPort c.

(** P1, the port-type gate. *)
Definition admissible (c : Candidate) : Prop :=
  typesMatch c /\ fromNodeId c <> toNodeId c /\
  ~ exactDuplicate c /\ ~ inputTaken c.

(** The connection that step 9 appends. *)
Definition committed (r : nat) (c : Candidate) : Connection :=
  {| ref := r;
     from := {| nodeId := fromNodeId c; port := fromPort c;
                portDef := None |};
     to := {| nodeId := toNodeId c; port := toPort c;
              portDef := None |} |}.

(** The rejections of steps 3 to 8 and their messages. *)
Inductive Rejection :=
| SelfLoop
| InvalidNodeTypes
| PortNotFound
| TypeMismatch (fromType toType : string)
| DuplicateConnection
| InputConnected (name : string).

Definition quote : string := String (Ascii.ascii_of_nat 34) "".

Definition message (r : Rejection) : string :=
  match r with
  | SelfLoop => "Cannot connect a node to itself"
  | InvalidNodeTypes => "Invalid node types"
  | PortNotFound => "Port not found in node definition"
  | TypeMismatch a b =>
      "Cannot connect ports of different types: " ++ a ++ " and " ++ b
  | DuplicateConnection => "This connection already exists"
  | InputConnected name =>
      "Input port " ++ quote ++ name ++ quote ++ " is already connected"
  end.

(** One check: [Some r] when the candidate fails it. *)
Definition Validator := Candidate -> option Rejection.

Definition checkSelfLoop : Validator := fun c =>
  if String.eqb (fromNodeId c) (toNodeId c) then Some SelfLoop else None.

Definition checkNodeTypes : Validator := fun c =>
  match typeOfNode (fromNodeId c), typeOfNode (toNodeId c) with
  | Some _, Some _ => None
  | _, _ => Some InvalidNodeTypes
  end.

Definition checkPorts : Validator := fun c =>
  match outputPort c, inputPort c with
  | Some _, Some _ => None
  | _, _ => Some PortNotFound
  end.

Definition checkTypes : Validator := fun c =>
  match outputPort c, inputPort c with
  | Some p, Some q =>
      if String.eqb (pd_type p) (pd_type q) then None
      else Some (TypeMismatch (pd_type p) (pd_type q))
  | _, _ => None
  end.

Definition checkDuplicate : Validator := fun c =>
  if existsb (fun e => String.eqb (nodeId (from e)) (fromNodeId c) &&
                       String.eqb (port (from e)) (fromPort c) &&
                       String.eqb (nodeId (to e)) (toNodeId c) &&
                       String.eqb (port (to e)) (toPort c)) edges
  then Some DuplicateConnection else None.

Definition checkInputFree : Validator := fun c =>
  if existsb (fun e => String.eqb (nodeId (to e)) (toNodeId c) &&
                       String.eqb (port (to e)) (toPort c)) edges
  then Some (InputConnected (toPort c)) else None.

(** Steps 3 to 8, in the order of the specification. *)
Definition checks : list Validator :=
  [checkSelfLoop; checkNodeTypes; checkPorts; checkTypes;
   checkDuplicate; checkInputFree].

Fixpoint firstFailure (cs : list Validator) (c : Candidate)
  : option Rejection :=
  match cs with
  | [] => None
  | check :: cs =>
      match check c with
      | Some r => Some r
      | None => firstFailure cs c
      end
  end.

Definition verdict (c : Candidate) : option Rejection :=
  firstFailure checks c.
End Validation.
End Spec.

(** ** Sample graphs

    Small graphs on which the statements below are exercised. *)

Module Sample.
Import Editor.
Local Open Scope string_scope.

Definition node (id type : string) (x y : R) (selected : option bool)
  : NodeData :=
  {| n_id := id; n_type := type; n_x := x; n_y := y;
     n_width := None; n_height := None; n_data := None;
     n_selected := selected |}.

Definition wire (r : nat) (a pa b pb : string) : Connection :=
  {| ref := r;
     from := {| nodeId := a; port := pa; portDef := None |};
     to := {| nodeId := b; port := pb; portDef := None |} |}.

Definition addType : NodeTypeDef :=
  {| nt_id := "Add"; nt_title := None; nt_category := None;
     nt_inputs := [ {| pd_name := "A"; pd_type := "number" |};
                    {| pd_name := "B"; pd_type := "number" |} ];
     nt_outputs := [ {| pd_name := "Result"; pd_type := "number" |} ];
     nt_color := None; nt_showOutputs := None |}.

Definition notType : NodeTypeDef :=
  {| nt_id := "Not"; nt_title := None; nt_category := None;
     nt_inputs := [ {| pd_name := "Value"; pd_type := "boolean" |} ];
     nt_outputs := [ {| pd_name := "Result"; pd_type := "boolean" |} ];
     nt_color := None; nt_showOutputs := None |}.

Definition subtractType : NodeTypeDef :=
  {| nt_id := "Subtract"; nt_title := None; nt_category := None;
     nt_inputs := [ {| pd_name := "A"; pd_type := "number" |};
                    {| pd_name := "B"; pd_type := "number" |} ];
     nt_outputs := [ {| pd_name := "Result"; pd_type := "number" |} ];
     nt_color := None; nt_showOutputs := None |}.

Definition nodeTypes : gmap string NodeTypeDef :=
  <["Add" := addType]>
    (<["Subtract" := subtractType]> (<["Not" := notType]> ∅)).

Definition idle : ConnectionDrag.Gesture :=
  {| ConnectionDrag.newConnection := None;
     ConnectionDrag.connectionPreview := None;
     ConnectionDrag.warningMessage := None |}.

(** An editor freshly mounted on a snapshot whose connection objects
    have identities below [next]. *)
Definition mounted (s : AppState) (next : nat) : State :=
  {| history := History.init s; isDraggingRef := false;
     gesture := idle; nextRef := next |}.

(** Three nodes in a chain a -> b -> c. *)
Definition chain : AppState :=
  {| nodes := [ node "a" "Add" 0 0 None; node "b" "Add" 200 0 None;
                node "c" "Add" 400 0 None ];
     connections := [ wire 0 "a" "Result" "b" "A";
                      wire 1 "b" "Result" "c" "A" ] |}.

(** Two selected nodes and one that is not. *)
Definition twoSelected : AppState :=
  {| nodes := [ node "a" "Add" 0 0 (Some true);
                node "b" "Add" 100 0 (Some true);
                node "c" "Add" 200 0 None ];
     connections := [] |}.

(** [a] feeds both [n] and [b]; [m] is not wired yet. *)
Definition fanOut : AppState :=
  {| nodes := [ node "a" "Add" 0 0 None; node "n" "Add" 200 100 None;
                node "b" "Add" 400 0 None; node "m" "Add" 100 200 None ];
     connections := [ wire 0 "a" "Result" "n" "A";
                      wire 1 "a" "Result" "b" "A" ] |}.

(** An adder, a subtracter and a negation, not wired. *)
Definition unwired : AppState :=
  {| nodes := [ node "add" "Add" 0 0 None;
                node "sub" "Subtract" 200 0 None;
                node "not" "Not" 200 200 None ];
     connections := [] |}.

(** The gesture of a drag that started on the output [port] of [id]. *)
Definition draggingFrom (id port type : string) : ConnectionDrag.Gesture :=
  {| ConnectionDrag.newConnection :=
       Some {| ConnectionDrag.nc_from :=
                 Some {| nodeId := id; port := port;
                         portDef := Some {| pd_name := port;
                                            pd_type := type |} |};
               ConnectionDrag.nc_to := None |};
     ConnectionDrag.connectionPreview :=
       Some {| ConnectionDrag.start := {| Geometry.x := 0; Geometry.y := 0 |};
               ConnectionDrag.end_ := {| Geometry.x := 150;
                                         Geometry.y := 20 |} |};
     ConnectionDrag.warningMessage := None |}.

(** The unwired graph while a wire is dragged out of [add.Result]. *)
Definition draggingResult : State :=
  {| history := History.init unwired; isDraggingRef := false;
     gesture := draggingFrom "add" "Result" "number"; nextRef := 0 |}.

Definition arrowRight : Keyboard.KeyboardEvent :=
  {| Keyboard.key := "ArrowRight"; Keyboard.shiftKey := false;
     Keyboard.ctrlKey := false; Keyboard.metaKey := false |}.
End Sample.

(** ** Further code of the same files

    The remaining handlers of the hooks and of the coordinator, and the
    vocabulary their properties are stated in. *)

(** *** Sequences of store operations ([hooks/useHistory.ts]) *)

Module Timeline.
Import History.

(** One call on the store returned by [useHistory]. *)
Inductive Op (T : Type) :=
| OpSet (newPresent : T) (replace : bool)
| OpUndo
| OpRedo.

Arguments OpSet {T} _ _.
Arguments OpUndo {T}.
Arguments OpRedo {T}.

Definition step {T : Type} (maxHistory : nat) (h : HistoryState T)
           (op : Op T) : HistoryState T :=
  match op with
  | OpSet newPresent replace => set maxHistory h newPresent replace
  | OpUndo => undo h
  | OpRedo => redo h
  end.

Definition run {T : Type} (maxHistory : nat) (h : HistoryState T)
           (ops : list (Op T)) : HistoryState T :=
  fold_left (step maxHistory) ops h.

(** The number of snapshots the store holds besides the present. *)
Definition stored {T : Type} (h : HistoryState T) : nat :=
  length (past h) + length (future h).
End Timeline.

(** *** Pan gestures ([hooks/usePanning.ts], [NodePlatform.tsx]) *)

Module Pan.
Import Geometry Panning.
Local Open Scope R_scope.

(** [PointerEvent], as far as the pan handlers read it. *)
Record PointerEvent := {
  button : nat;
  clientX : R;
  clientY : R
}.

(** What the [move] listener of a pan closes over: the pointer position
    and the offset at pointer-down. *)
Record Gesture := {
  start : Point;
  init : Point
}.

(** [handleMiddleMousePan]: [None] is the result [false]; otherwise the
    listeners are installed and the result is [true]. *)
Definition handleMiddleMousePan (e : PointerEvent) (st : PanningState)
  : option Gesture :=
  if negb (button e =? 1)%nat then None
  else Some {| start := {| x := clientX e; y := clientY e |};
               init := offset st |}.

(** The [move] listener: [setOffset({ x: init.x + (ev.clientX - start.x),
    y: init.y + (ev.clientY - start.y) })]. *)
Definition move (g : Gesture) (ev : PointerEvent) (st : PanningState)
  : PanningState :=
  {| offset := {| x := x (init g) + (clientX ev - x (start g));
                  y := y (init g) + (clientY ev - y (start g)) |};
     scale := scale st |}.

Definition moves (g : Gesture) (evs : list PointerEvent) (st : PanningState)
  : PanningState :=
  fold_left (fun s ev => move g ev s) evs st.
End Pan.

(** *** Snapshot invariants (data model, I2 to I5) *)

Module Valid.

(** The destination of a connection: an input port of a node. *)
Definition target (c : Connection) : string * string :=
  (nodeId (to c), port (to c)).

(** I3: no input port is the destination of two connections. *)
Definition inputUnique (s : AppState) : Prop :=
  List.NoDup (map target (connections s)).

(** I4: no connection joins a node to itself. *)
Definition noSelfLoop (s : AppState) : Prop :=
  forall c, In c (connections s) -> nodeId (from c) <> nodeId (to c).

(** The four identifiers of a connection. *)
Definition fields (c : Connection) : Spec.Candidate :=
  {| Spec.fromNodeId := nodeId (from c); Spec.fromPort := port (from c);
     Spec.toNodeId := nodeId (to c); Spec.toPort := port (to c) |}.

(** I5: both ports of every connection are declared and of one type. *)
Definition wellTyped (nodeTypes : gmap string NodeTypeDef) (s : AppState)
  : Prop :=
  forall c, In c (connections s) ->
            Spec.typesMatch (nodes s) nodeTypes (fields c).

(** I2 to I5 together. *)
Definition snapshot (nodeTypes : gmap string NodeTypeDef) (s : AppState)
  : Prop :=
  Spec.noDangling s /\ inputUnique s /\ noSelfLoop s /\
  wellTyped nodeTypes s.
End Valid.

(** *** Ports as the platform addresses them *)

Module Ports.

(** The key under which the platform caches the position of a port:
    [`${nodeId}-${port.name}`]. *)
Definition portKey (nodeId_ : string) (port_ : PortDef) : string :=
  (nodeId_ ++ "-" ++ pd_name port_)%string.

(** The first connection into an input port, as [handlePortPointerDown]
    looks it up. *)
Definition incoming (edges : list Connection) (nodeId_ : string)
           (port_ : PortDef) : option Connection :=
  find (fun e => String.eqb (nodeId (to e)) nodeId_ &&
                 String.eqb (port (to e)) (pd_name port_)) edges.

(** The end of a drag that a pointer-down on a port fixes. *)
Definition fixedEnd (nodeId_ : string) (port_ : PortDef) : Endpoint :=
  {| nodeId := nodeId_; port := pd_name port_; portDef := Some port_ |}.
End Ports.

(** *** A sample platform *)

Module Scene.
Local Open Scope string_scope.

Definition at_ (px py : R) : Geometry.Point :=
  {| Geometry.x := px; Geometry.y := py |}.

(** A mounted platform at the origin, unpanned and unzoomed, that has
    measured the ports of the sample graphs. *)
Definition view : ConnectionDrag.View :=
  {| ConnectionDrag.portPositions :=
       <["add-Result" := at_ 100 20]>
         (<["sub-A" := at_ 200 20]>
            (<["b-A" := at_ 200 20]>
               (<["a-Result" := at_ 100 20]> ∅)));
     ConnectionDrag.platformRect :=
       Some {| ConnectionDrag.left := 0; ConnectionDrag.top := 0 |};
     ConnectionDrag.offset := at_ 0 0;
     ConnectionDrag.scale := 1 |}.

Definition resultPort : PortDef :=
  {| pd_name := "Result"; pd_type := "number" |}.

Definition aPort : PortDef := {| pd_name := "A"; pd_type := "number" |}.
End Scene.

(** *** SpliceResolver ([NodePlatform.tsx], [handleNodeDragEndWrapper]) *)

Module Splice.
Import Geometry.
Local Open Scope R_scope.

(** [getBoundingClientRect()] of an element. *)
Record DomRect := {
  r_left : R;
  r_top : R;
  r_width : R;
  r_height : R
}.

(** A [.node-port-dot] element of the dropped node: its
    [data-port-name] attribute and its rectangle. *)
Record PortElement := {
  portName : option string;
  rect : DomRect
}.

(** An entry of [inputPositions] or [outputPositions]. *)
Record Measured := {
  name : string;
  p : Point
}.

(** The accumulators of the loop over the port elements. *)
Record Measurement := {
  inputPositions : list Measured;
  outputPositions : list Measured;
  centerX : R;
  centerY : R;
  count : nat
}.

Definition noMeasurement : Measurement :=
  {| inputPositions := []; outputPositions := [];
     centerX := 0; centerY := 0; count := 0 |}.

(** [defs.some(def => def.name === portName)] *)
Definition declares (defs : list PortDef) (portName_ : string) : bool :=
  existsb (fun def => String.eqb (pd_name def) portName_) defs.

(** The body of [portElements.forEach]. *)
Definition measure (v : ConnectionDrag.View)
           (platformRect : ConnectionDrag.Rect) (nodeType : NodeTypeDef)
           (m : Measurement) (el : PortElement) : Measurement :=
  if ConnectionDrag.falsy (portName el) then m
  else
    let portName_ := ConnectionDrag.orEmpty (portName el) in
    let local :=
      ConnectionDrag.toWorld v platformRect
        (r_left (rect el) + r_width (rect el) / 2)
        (r_top (rect el) + r_height (rect el) / 2) in
    let isInput := declares (nt_inputs nodeType) portName_ in
    let isOutput := declares (nt_outputs nodeType) portName_ in
    if isInput then
      {| inputPositions :=
           inputPositions m ++ [{| name := portName_; p := local |}];
         outputPositions := outputPositions m;
         centerX := centerX m + x local;
         centerY := centerY m + y local;
         count := S (count m) |}
    else if isOutput then
      {| inputPositions := inputPositions m;
         outputPositions :=
           outputPositions m ++ [{| name := portName_; p := local |}];
         centerX := centerX m + x local;
         centerY := centerY m + y local;
         count := S (count m) |}
    else m.

(** [dist < minDist], where [None] is the initial [Infinity]. *)
Definition below (dist : R) (minDist : option R) : bool :=
  match minDist with
  | None => true
  | Some m => if Rlt_dec dist m then true else false
  end.

Definition SPLICE_THRESHOLD : R := 50.

(** [`${e.nodeId}-${e.port}`] *)
Definition endpointKey (e : Endpoint) : string :=
  (nodeId e ++ "-" ++ port e)%string.

(** The body of [for (const edge of edges)]; the state is
    [(bestConnection, minDist)]. *)
Definition considerEdge (v : ConnectionDrag.View) (nodeId_ : string)
           (nodeCenter : Point) (acc : option Connection * option R)
           (edge : Connection) : option Connection * option R :=
  if String.eqb (nodeId (from edge)) nodeId_ ||
     String.eqb (nodeId (to edge)) nodeId_ then acc
  else
    match ConnectionDrag.portPositions v !! endpointKey (from edge),
          ConnectionDrag.portPositions v !! endpointKey (to edge) with
    | Some startPos, Some endPos =>
        let dist := distancePointToSegment nodeCenter startPos endPos in
        if (if Rlt_dec dist SPLICE_THRESHOLD then true else false) &&
           below dist (snd acc)
        then (Some edge, Some dist)
        else acc
    | _, _ => acc
    end.

(** The body of [for (const input of inputPositions)], and of the loop
    over the outputs; the state is [(best, minDist)]. *)
Definition considerPort (target : Point) (acc : option string * option R)
           (candidate : Measured) : option string * option R :=
  let d := distance (p candidate) target in
  if below d (snd acc) then (Some (name candidate), Some d) else acc.

Definition nearestPort (ports : list Measured) (target : Point)
  : option string :=
  fst (fold_left (considerPort target) ports (None, None)).

(** The call [onSpliceNode(nodeId, bestConnection, bestInput,
    bestOutput)]. *)
Record SpliceCall := {
  sc_nodeId : string;
  sc_connection : Connection;
  sc_inputPort : string;
  sc_outputPort : string
}.

(** [handleNodeDragEndWrapper], after [onNodeDragEnd?.(nodeId)] and with
    [onSpliceNode] present: the call it makes, if any.  [portElements] is
    the result of [querySelectorAll] for the port dots of the node. *)
Definition handleNodeDragEndWrapper
           (nodes_ : list NodeData) (nodeTypes : gmap string NodeTypeDef)
           (edges : list Connection) (v : ConnectionDrag.View)
           (portElements : list PortElement) (nodeId_ : string)
  : option SpliceCall :=
  match find (fun n => String.eqb (n_id n) nodeId_) nodes_ with
  | None => None
  | Some node =>
    match nodeTypes !! n_type node with
    | None => None
    | Some nodeType =>
      let m :=
        match ConnectionDrag.platformRect v with
        | Some platformRect =>
            fold_left (measure v platformRect nodeType) portElements
                      noMeasurement
        | None => noMeasurement
        end in
      if (count m =? 0)%nat then None
      else
        let nodeCenter := {| x := centerX m / INR (count m);
                             y := centerY m / INR (count m) |} in
        match fst (fold_left (considerEdge v nodeId_ nodeCenter) edges
                             (None, None)) with
        | None => None
        | Some bestConnection =>
          match ConnectionDrag.portPositions v
                  !! endpointKey (from bestConnection),
                ConnectionDrag.portPositions v
                  !! endpointKey (to bestConnection) with
          | Some startPos, Some endPos =>
              let bestInput := nearestPort (inputPositions m) startPos in
              let bestOutput := nearestPort (outputPositions m) endPos in
              if negb (ConnectionDrag.falsy bestInput) &&
                 negb (ConnectionDrag.falsy bestOutput)
              then Some {| sc_nodeId := nodeId_;
                           sc_connection := bestConnection;
                           sc_inputPort := ConnectionDrag.orEmpty bestInput;
                           sc_outputPort :=
                             ConnectionDrag.orEmpty bestOutput |}
              else None
          | _, _ => None
          end
        end
    end
  end.

(** The distance the resolver assigns to an edge: none if the edge
    touches the dropped node or an end has no cached position. *)
Definition edgeDistance (v : ConnectionDrag.View) (nodeId_ : string)
           (nodeCenter : Point) (edge : Connection) : option R :=
  if NodeSystem.touches nodeId_ edge then None
  else
    match ConnectionDrag.portPositions v !! endpointKey (from edge),
          ConnectionDrag.portPositions v !! endpointKey (to edge) with
    | Some startPos, Some endPos =>
        Some (distancePointToSegment nodeCenter startPos endPos)
    | _, _ => None
    end.

(** What the loop over the edges maintains, [seen] being the edges
    already visited. *)
Definition bestSoFar (v : ConnectionDrag.View) (dropped : string)
           (nodeCenter : Point) (seen : list Connection)
           (acc : option Connection * option R) : Prop :=
  match acc with
  | (Some best, Some m) =>
      In best seen /\
      edgeDistance v dropped nodeCenter best = Some m /\
      m < SPLICE_THRESHOLD /\
      forall e d, In e seen ->
                  edgeDistance v dropped nodeCenter e = Some d -> m <= d
  | (None, None) =>
      forall e d, In e seen ->
                  edgeDistance v dropped nodeCenter e = Some d ->
                  SPLICE_THRESHOLD <= d
  | _ => False
  end.

(** What a loop over measured ports maintains. *)
Definition nearestSoFar (target : Point) (seen : list Measured)
           (acc : option string * option R) : Prop :=
  match acc with
  | (Some best, Some m) =>
      exists c, In c seen /\ name c = best /\
                distance (p c) target = m /\
                forall c', In c' seen -> m <= distance (p c') target
  | (None, None) => seen = []
  | _ => False
  end.

(** What the loop over the port elements maintains: every measured port
    has a non-empty name, and [count] counts the measured ports. *)
Definition wellMeasured (m : Measurement) : Prop :=
  Forall (fun c => name c <> ""%string) (inputPositions m) /\
  Forall (fun c => name c <> ""%string) (outputPositions m) /\
  count m = (length (inputPositions m) + length (outputPositions m))%nat.

(** What the loop over the port elements leaves in its accumulators;
    nothing is measured before the platform is mounted. *)
Definition measurement (v : ConnectionDrag.View) (nodeType : NodeTypeDef)
           (portElements : list PortElement) : Measurement :=
  match ConnectionDrag.platformRect v with
  | Some platformRect =>
      fold_left (measure v platformRect nodeType) portElements noMeasurement
  | None => noMeasurement
  end.

(** The centroid of the measured ports of the dropped node. *)
Definition centroid (m : Measurement) : Point :=
  {| x := centerX m / INR (count m); y := centerY m / INR (count m) |}.

(** [port] is one of the measured ports and none of them is nearer to
    [target]. *)
Definition nearestAmong (ports : list Measured) (target : Point)
           (port : string) : Prop :=
  exists c, In c ports /\ name c = port /\
            forall c', In c' ports ->
                       distance (p c) target <= distance (p c') target.
End Splice.

(** *** A sample drop *)

Module Drop.
Local Open Scope string_scope.

(** The port dots of a node of type Add dropped between [a.Result] and
    [b.A]: its input A, then its output Result. *)
Definition portElements : list Splice.PortElement :=
  [ {| Splice.portName := Some "A";
       Splice.rect := {| Splice.r_left := 145; Splice.r_top := 15;
                         Splice.r_width := 10; Splice.r_height := 10 |} |};
    {| Splice.portName := Some "Result";
       Splice.rect := {| Splice.r_left := 155; Splice.r_top := 15;
                         Splice.r_width := 10; Splice.r_height := 10 |} |} ].

(** The call the resolver makes when [m] is dropped there. *)
Definition call : Splice.SpliceCall :=
  {| Splice.sc_nodeId := "m";
     Splice.sc_connection := Sample.wire 1 "a" "Result" "b" "A";
     Splice.sc_inputPort := "A";
     Splice.sc_outputPort := "Result" |}.
End Drop.

(** *** Node drags as the platform relays them ([NodePlatform.tsx],
    [NodeSystem.tsx]) *)

Module Session.
Import History NodeSystem Editor.
Local Open Scope R_scope.

(** The [onMove] that the platform hands to each node: the calls to
    [onNodeMove] it makes, in order. *)
Definition onMove (nodes_ : list NodeData) (id : string) (x y : R)
  : list Keyboard.MoveCall :=
  match find (fun n => String.eqb (n_id n) id) nodes_ with
  | Some node =>
      if isSelected node then
        let dx := x - n_x node in
        let dy := y - n_y node in
        let selectedNodes := List.filter isSelected nodes_ in
        map (fun sn => {| Keyboard.mv_id := n_id sn;
                          Keyboard.mv_x := n_x sn + dx;
                          Keyboard.mv_y := n_y sn + dy |}) selectedNodes
      else [{| Keyboard.mv_id := id; Keyboard.mv_x := x;
               Keyboard.mv_y := y |}]
  | None => []
  end.



(** One move of a dragged node: the platform's [onMove] with
    [onNodeMove = handleNodeMove].  [closure] is the snapshot of the render
    these two closures belong to; the listeners that [useNodeDrag] installs
    at pointer-down keep calling the closures of that render, so during a
    drag it is in general older than the store's present. *)
Definition nodeMoveFrom (closure : AppState) (id : string) (x y : R)
           (st : State) : State :=
  {| history :=
       fold_left
         (fun h mv => handleNodeMove closure (isDraggingRef st)
                                     (Keyboard.mv_id mv) (Keyboard.mv_x mv)
                                     (Keyboard.mv_y mv) h)
         (onMove (nodes closure) id x y)
         (history st);
     isDraggingRef := isDraggingRef st;
     gesture := gesture st;
     nextRef := nextRef st |}.

(** A move of a drag: the snapshot its closures belong to, the node, and
    where the pointer puts it. *)
Record Move := { m_closure : AppState; m_id : string; m_x : R; m_y : R }.


End Session.

(** *** NodeDragController ([components/Node/hooks/useNodeDrag.ts]) *)

Module NodeDrag.
Local Open Scope R_scope.

(** [PointerEvent], as far as the hook reads it. *)
Record PointerEvent := {
  button : nat;
  pointerId : nat;
  clientX : R;
  clientY : R;
  ctrlKey : bool;
  metaKey : bool;
  shiftKey : bool
}.

(** [dragState.current] *)
Record DragState := {
  dragging : bool;
  startX : R;
  startY : R;
  initX : R;
  initY : R;
  ds_pointerId : option nat;
  hasMoved : option bool;
  selectOnUp : option bool
}.

(** The initial value of the ref. *)
Definition idle : DragState :=
  {| dragging := false; startX := 0; startY := 0; initX := 0; initY := 0;
     ds_pointerId := None; hasMoved := None; selectOnUp := None |}.

(** What the handlers of one render close over. *)
Record Config := {
  nodeId : string;
  nodeX : R;
  nodeY : R;
  selected : bool
}.

(** The calls the handlers make on their callbacks, the optional ones
    being given; [RefreshPorts] is the request
    [requestAnimationFrame(updatePortPositions)]. *)
Inductive Call :=
| Select (id : string) (e : PointerEvent)
| DragStart (id : string)
| Move (id : string) (x y : R)
| RefreshPorts
| DragEnd (id : string).

(** Truthiness of an optional flag. *)
Definition truthy (b : option bool) : bool :=
  match b with Some b => b | None => false end.

(** [e.pointerId !== dragState.current.pointerId] *)
Definition otherPointer (e : PointerEvent) (ds : DragState) : bool :=
  match ds_pointerId ds with
  | Some i => negb (pointerId e =? i)%nat
  | None => true
  end.

(** [Math.abs(dx) > 2 || Math.abs(dy) > 2] *)
Definition beyondThreshold (dx dy : R) : bool :=
  (if Rgt_dec (Rabs dx) 2 then true else false) ||
  (if Rgt_dec (Rabs dy) 2 then true else false).

Definition onPointerMove (cfg : Config) (e : PointerEvent) (ds : DragState)
  : DragState * list Call :=
  if negb (dragging ds) then (ds, [])
  else if otherPointer e ds then (ds, [])
  else
    let dx := clientX e - startX ds in
    let dy := clientY e - startY ds in
    let ds := if beyondThreshold dx dy then
                {| dragging := dragging ds;
                   startX := startX ds; startY := startY ds;
                   initX := initX ds; initY := initY ds;
                   ds_pointerId := ds_pointerId ds;
                   hasMoved := Some true;
                   selectOnUp := selectOnUp ds |}
              else ds in
    let nx := initX ds + dx in
    let ny := initY ds + dy in
    (ds, [Move (nodeId cfg) nx ny; RefreshPorts]).

Definition onPointerUp (cfg : Config) (e : PointerEvent) (ds : DragState)
  : DragState * list Call :=
  if negb (dragging ds) then (ds, [])
  else if otherPointer e ds then (ds, [])
  else
    ({| dragging := false;
        startX := startX ds; startY := startY ds;
        initX := initX ds; initY := initY ds;
        ds_pointerId := ds_pointerId ds;
        hasMoved := hasMoved ds;
        selectOnUp := selectOnUp ds |},
     (if negb (truthy (hasMoved ds)) && truthy (selectOnUp ds)
      then [Select (nodeId cfg) e] else [])
     ++ [DragEnd (nodeId cfg)]).

Definition onPointerDown (cfg : Config) (e : PointerEvent) (ds : DragState)
  : DragState * list Call :=
  if negb (button e =? 0)%nat then (ds, [])
  else
    let isMultiSelect := ctrlKey e || metaKey e || shiftKey e in
    let '(now, selectOnUp_) :=
      if negb (selected cfg) then ([Select (nodeId cfg) e], false)
      else if isMultiSelect then ([Select (nodeId cfg) e], false)
      else ([], true) in
    ({| dragging := true;
        startX := clientX e; startY := clientY e;
        initX := nodeX cfg; initY := nodeY cfg;
        ds_pointerId := Some (pointerId e);
        hasMoved := Some false;
        selectOnUp := Some selectOnUp_ |},
     now ++ [DragStart (nodeId cfg)]).

(** A handler followed by another: the state is threaded, the calls are
    concatenated. *)
Definition andThen (first : DragState * list Call)
           (next : DragState -> DragState * list Call)
  : DragState * list Call :=
  let '(ds, calls) := first in
  let '(ds', calls') := next ds in
  (ds', calls ++ calls').

(** The listeners installed by one pointer-down, receiving a sequence of
    pointer-move events. *)
Definition moves (cfg : Config) (evs : list PointerEvent)
           (first : DragState * list Call) : DragState * list Call :=
  fold_left (fun acc e => andThen acc (onPointerMove cfg e)) evs first.

(** The first press on a node since it was mounted, pointer moves, and a
    release, all handled by the closures of the render at the press.  The
    window listeners are never removed: a later press also runs the
    listeners that the earlier ones installed. *)
Definition press (cfg : Config) (down : PointerEvent)
           (evs : list PointerEvent) (up : PointerEvent)
  : DragState * list Call :=
  andThen (moves cfg evs (onPointerDown cfg down idle)) (onPointerUp cfg up).

(** The drag state during a press by [down]: what [onPointerDown] stores,
    with the two flags the later handlers read. *)
Definition pressed (cfg : Config) (down : PointerEvent)
           (deferred moved : bool) : DragState :=
  {| dragging := true;
     startX := clientX down; startY := clientY down;
     initX := nodeX cfg; initY := nodeY cfg;
     ds_pointerId := Some (pointerId down);
     hasMoved := Some moved;
     selectOnUp := Some deferred |}.

(** [selected && !isMultiSelect]: the press defers its selection. *)
Definition defers (cfg : Config) (down : PointerEvent) : bool :=
  selected cfg && negb (ctrlKey down || metaKey down || shiftKey down).

(** The move events of the pressing pointer. *)
Definition own (down : PointerEvent) (evs : list PointerEvent)
  : list PointerEvent :=
  List.filter (fun e => (pointerId e =? pointerId down)%nat) evs.

Definition isSelect (c : Call) : bool :=
  match c with Select _ _ => true | _ => false end.

(** The position the node is sent to by a move event of a press. *)
Definition follow (cfg : Config) (down e : PointerEvent) : list Call :=
  [ Move (nodeId cfg) (nodeX cfg + (clientX e - clientX down))
                      (nodeY cfg + (clientY e - clientY down));
    RefreshPorts ].

(** A move event of the pressing pointer that is more than 2 pixels away
    from the press on some axis. *)
Definition leavesThreshold (down e : PointerEvent) : bool :=
  (pointerId e =? pointerId down)%nat &&
  beyondThreshold (clientX e - clientX down) (clientY e - clientY down).
End NodeDrag.

(** A selected node at (10, 20), pressed at the origin and dragged 5 pixels
    to the right. *)
Module Press.
Local Open Scope R_scope.

Definition cfg : NodeDrag.Config :=
  {| NodeDrag.nodeId := "a"; NodeDrag.nodeX := 10; NodeDrag.nodeY := 20;
     NodeDrag.selected := true |}.

Definition at_ (x y : R) : NodeDrag.PointerEvent :=
  {| NodeDrag.button := 0; NodeDrag.pointerId := 1;
     NodeDrag.clientX := x; NodeDrag.clientY := y;
     NodeDrag.ctrlKey := false; NodeDrag.metaKey := false;
     NodeDrag.shiftKey := false |}.
End Press.

(** *** The coordinator's authoring handlers ([NodeSystem.tsx]) *)

Module Authoring.
Import History NodeSystem.

(** [{ ...n, data: n.data ?? {}, selected: n.selected ?? true }] *)
Definition withSelection (n : NodeData) : NodeData :=
  {| n_id := n_id n; n_type := n_type n; n_x := n_x n; n_y := n_y n;
     n_width := n_width n; n_height := n_height n;
     n_data := Some (default ∅ (n_data n));
     n_selected := Some (default true (n_selected n)) |}.

(** [{ ...n, data: { ...n.data, [portName]: value } }] *)
Definition withValue (n : NodeData) (portName : string) (value : JsValue)
  : NodeData :=
  {| n_id := n_id n; n_type := n_type n; n_x := n_x n; n_y := n_y n;
     n_width := n_width n; n_height := n_height n;
     n_data := Some (<[portName := value]> (default ∅ (n_data n)));
     n_selected := n_selected n |}.

Section Render.
Variable rendered : AppState.

(** [handleAddNode]; [newNodeId] is the identifier drawn from the clock
    and the random generator. *)
Definition handleAddNode (newNodeId : string)
           (nodeTypeId : string) (x y : R) (curr : Hist) : Hist :=
  let newNode :=
    {| n_id := newNodeId; n_type := nodeTypeId; n_x := x; n_y := y;
       n_width := None; n_height := None;
       n_data := Some ∅; n_selected := None |} in
  set curr
      {| nodes := nodes rendered ++ [newNode];
         connections := connections rendered |}
      false.

Definition handlePasteNodes (newNodes : list NodeData) (curr : Hist)
  : Hist :=
  let deselectedNodes :=
    map (fun n => withSelected n false) (nodes rendered) in
  let nodesWithSelection := map withSelection newNodes in
  set curr
      {| nodes := deselectedNodes ++ nodesWithSelection;
         connections := connections rendered |}
      false.

Definition handleNodeValueChange (id portName : string) (value : JsValue)
           (curr : Hist) : Hist :=
  set curr
      {| nodes := map (fun n => if String.eqb (n_id n) id
                                then withValue n portName value else n)
                      (nodes rendered);
         connections := connections rendered |}
      false.
End Render.
End Authoring.

(** *** The clipboard shortcuts ([hooks/useKeyboardShortcuts.ts]) *)

Module Clipboard.
Import Geometry.
Local Open Scope R_scope.

(** [nodes.filter(n => n.selected)] *)
Definition selectedNodes (nodes : list NodeData) : list NodeData :=
  List.filter isSelected nodes.

(** [selectedNodes.map(node => ({ ...node, selected: false }))] *)
Definition copies (selectedNodes : list NodeData) : list NodeData :=
  map (fun node => withSelected node false) selectedNodes.

(** The Delete / Backspace branch: the argument of the call to
    [onNodeDelete], if the call is made. *)
Definition deleteBranch (nodes : list NodeData) : option (list string) :=
  let selectedNodes := selectedNodes nodes in
  if (0 <? length selectedNodes)%nat
  then Some (map n_id selectedNodes) else None.

(** The copy branch: the next value of [clipboardRef.current]. *)
Definition copyBranch (nodes clipboard : list NodeData) : list NodeData :=
  let selectedNodes := selectedNodes nodes in
  if (0 <? length selectedNodes)%nat
  then copies selectedNodes else clipboard.

(** The cut branch: the next value of [clipboardRef.current] and the
    argument of the call to [onNodeDelete], if the call is made. *)
Definition cutBranch (nodes clipboard : list NodeData)
  : list NodeData * option (list string) :=
  let selectedNodes := selectedNodes nodes in
  if (0 <? length selectedNodes)%nat
  then (copies selectedNodes, Some (map n_id selectedNodes))
  else (clipboard, None).

(** [Math.min(first, ...rest)] *)
Definition mathMin (first : R) (rest : list R) : R :=
  fold_left Rmin rest first.

(** [{ ...node, id, x, y, selected: true }] *)
Definition pastedNode (node : NodeData) (newNodeId : string) (x y : R)
  : NodeData :=
  {| n_id := newNodeId; n_type := n_type node; n_x := x; n_y := y;
     n_width := n_width node; n_height := n_height node;
     n_data := n_data node; n_selected := Some true |}.

(** The paste branch: the argument of the call to [onPasteNodes], if the
    call is made; [onNodeSelect(null)] is called just before it.
    [newNodeId i] is the identifier drawn for the [i]-th clipboard node. *)
Definition pasteBranch (v : ConnectionDrag.View) (mousePosition : Point)
           (newNodeId : nat -> string) (clipboard : list NodeData)
  : option (list NodeData) :=
  match clipboard, ConnectionDrag.platformRect v with
  | first :: rest, Some rect =>
      let pasteX := (x mousePosition - ConnectionDrag.left rect
                     - x (ConnectionDrag.offset v))
                    / ConnectionDrag.scale v in
      let pasteY := (y mousePosition - ConnectionDrag.top rect
                     - y (ConnectionDrag.offset v))
                    / ConnectionDrag.scale v in
      let minX := mathMin (n_x first) (map n_x rest) in
      let minY := mathMin (n_y first) (map n_y rest) in
      let offsetX := 20 in
      let offsetY := 20 in
      Some (imap (fun i node =>
                    let relativeX := n_x node - minX in
                    let relativeY := n_y node - minY in
                    pastedNode node (newNodeId i)
                               (pasteX + relativeX + offsetX)
                               (pasteY + relativeY + offsetY))
                 clipboard)
  | _, _ => None
  end.
End Clipboard.

(** *** The editor with its clipboard *)

Module Keys.
Import History NodeSystem.

Record State := {
  editor : Editor.State;
  clipboardRef : list NodeData
}.

Definition withHistory (st : Editor.State) (h : Hist) : Editor.State :=
  {| Editor.history := h;
     Editor.isDraggingRef := Editor.isDraggingRef st;
     Editor.gesture := Editor.gesture st;
     Editor.nextRef := Editor.nextRef st |}.

(** [onPasteNodes] after [onNodeSelect(null)]: both handlers are those of
    the last render. *)
Definition paste (newNodes : list NodeData) (st : Editor.State)
  : Editor.State :=
  withHistory st
    (Authoring.handlePasteNodes (Editor.rendered st) newNodes
       (handleNodeSelect (Editor.rendered st) SelNull None
                         (Editor.history st))).

(** A key press, with the callbacks wired to the coordinator's handlers.
    The block menu is not part of the state: its shortcut leaves every
    cell kept here as it is. *)
Definition keyDown (v : ConnectionDrag.View) (mousePosition : Geometry.Point)
           (newNodeId : nat -> string)
           (e : Keyboard.KeyboardEvent) (blockMenuOpen : bool) (st : State)
  : State :=
  let nodes := nodes (Editor.rendered (editor st)) in
  match Keyboard.shortcutOf e blockMenuOpen with
  | Keyboard.OpenBlockMenu => st
  | Keyboard.DeleteSelected =>
      match Clipboard.deleteBranch nodes with
      | Some ids => {| editor := Editor.nodeDelete (DelMany ids) (editor st);
                       clipboardRef := clipboardRef st |}
      | None => st
      end
  | Keyboard.CopySelected =>
      {| editor := editor st;
         clipboardRef := Clipboard.copyBranch nodes (clipboardRef st) |}
  | Keyboard.CutSelected =>
      let '(clipboard, deleted) :=
        Clipboard.cutBranch nodes (clipboardRef st) in
      {| editor := match deleted with
                   | Some ids => Editor.nodeDelete (DelMany ids) (editor st)
                   | None => editor st
                   end;
         clipboardRef := clipboard |}
  | Keyboard.PasteClipboard =>
      match Clipboard.pasteBranch v mousePosition newNodeId
                                  (clipboardRef st) with
      | Some newNodes => {| editor := paste newNodes (editor st);
                            clipboardRef := clipboardRef st |}
      | None => st
      end
  | Keyboard.ArrowNudge =>
      {| editor := Editor.keyDown e blockMenuOpen (editor st);
         clipboardRef := clipboardRef st |}
  | Keyboard.Unbound => st
  end.
End Keys.

(** An editor mounted on a snapshot, with a clipboard, and the keys used
    on it. *)
Module Desk.
Local Open Scope string_scope.

Definition holding (s : AppState) (clipboard : list NodeData) : Keys.State :=
  {| Keys.editor := Sample.mounted s 2; Keys.clipboardRef := clipboard |}.

Definition plain (key : string) : Keyboard.KeyboardEvent :=
  {| Keyboard.key := key; Keyboard.shiftKey := false;
     Keyboard.ctrlKey := false; Keyboard.metaKey := false |}.

Definition ctrl (key : string) : Keyboard.KeyboardEvent :=
  {| Keyboard.key := key; Keyboard.shiftKey := false;
     Keyboard.ctrlKey := true; Keyboard.metaKey := false |}.

(** The identifiers drawn for pasted nodes. *)
Definition newNodeId (i : nat) : string :=
  match i with 0 => "p0" | 1 => "p1" | _ => "p2" end.

(** [a] and [b] are selected and wired to each other and to [c]. *)
Definition wiredSelection : AppState :=
  {| nodes := nodes Sample.twoSelected;
     connections := [ Sample.wire 0 "a" "Result" "b" "A";
                      Sample.wire 1 "b" "Result" "c" "A" ] |}.
End Desk.

(** *** Box selection ([hooks/useSelectionBox.ts]) *)

Module SelectionBox.
Import Geometry NodeSystem.
Local Open Scope R_scope.

(** [PointerEvent], as far as the platform, the hook and [onNodeSelect]
    read it.  [insideNode] is [target.closest('.node-node')] being an
    element; [overPlatform] says that the event is dispatched to an element
    of the platform, so that the platform's own handler receives it. *)
Record PointerEvent := {
  button : nat;
  shiftKey : bool;
  ctrlKey : bool;
  metaKey : bool;
  clientX : R;
  clientY : R;
  insideNode : bool;
  overPlatform : bool
}.

Record SelectionBox := {
  start : Point;
  end_ : Point
}.

(** [getBoundingClientRect()] of a node element. *)
Record DomRect := {
  left : R;
  top : R;
  right : R;
  bottom : R
}.

(** A [.node-node] element of the platform: its [data-id] attribute and
    its rectangle. *)
Record NodeElement := {
  dataId : option string;
  rect : DomRect
}.

Definition lt (a b : R) : bool := if Rlt_dec a b then true else false.
Definition gt (a b : R) : bool := if Rgt_dec a b then true else false.

(** The body of [nodeElements.forEach]: what it pushes on [selectedIds]. *)
Definition pushed (left_ top_ right_ bottom_ : R) (el : NodeElement)
  : list string :=
  let intersects := negb (lt (right (rect el)) left_ ||
                          gt (left (rect el)) right_ ||
                          lt (bottom (rect el)) top_ ||
                          gt (top (rect el)) bottom_) in
  if intersects then
    if ConnectionDrag.falsy (dataId el) then []
    else [ConnectionDrag.orEmpty (dataId el)]
  else [].

(** [handleSelectionStart]: the result and the next value of the
    [selectionBox] cell. *)
Definition handleSelectionStart (e : PointerEvent)
           (selectionBox : option SelectionBox)
  : bool * option SelectionBox :=
  if negb (shiftKey e) then (false, selectionBox)
  else
    let start := {| x := clientX e; y := clientY e |} in
    (true, Some {| start := start; end_ := start |}).

(** The [move] listener. *)
Definition move (ev : PointerEvent) (selectionBox : option SelectionBox)
  : option SelectionBox :=
  match selectionBox with
  | Some prev => Some {| start := start prev;
                         end_ := {| x := clientX ev; y := clientY ev |} |}
  | None => None
  end.

(** The [up] listener of a selection that started at [start].
    [platform] is the list of the [.node-node] elements of
    [platformRef.current], if the platform is mounted.  The result is the
    argument of the call to [onNodeSelect], if the call is made, and the
    next value of the [selectionBox] cell. *)
Definition up (start : Point) (platform : option (list NodeElement))
           (ev : PointerEvent)
  : option (list string) * option SelectionBox :=
  (match platform with
   | Some nodeElements =>
       let boxStart := start in
       let boxEnd := {| x := clientX ev; y := clientY ev |} in
       let left_ := Rmin (x boxStart) (x boxEnd) in
       let top_ := Rmin (y boxStart) (y boxEnd) in
       let right_ := Rmax (x boxStart) (x boxEnd) in
       let bottom_ := Rmax (y boxStart) (y boxEnd) in
       let selectedIds :=
         flat_map (pushed left_ top_ right_ bottom_) nodeElements in
       if (0 <? length selectedIds)%nat then Some selectedIds else None
   | None => None
   end,
   None).

(** The rectangle of a node element and the box spanned by two corners
    share a point. *)
Definition overlaps (r : DomRect) (a b : Point) : Prop :=
  Rmin (x a) (x b) <= right r /\ left r <= Rmax (x a) (x b) /\
  Rmin (y a) (y b) <= bottom r /\ top r <= Rmax (y a) (y b).

Definition at_ (ev : PointerEvent) : Point :=
  {| x := clientX ev; y := clientY ev |}.

(** The element carries the non-empty identifier [id] and its rectangle
    shares a point with the box spanned by [a] and [b]. *)
Definition hits (el : NodeElement) (id : string) (a b : Point) : Prop :=
  dataId el = Some id /\ id <> ""%string /\ overlaps (rect el) a b.

Definition withGesture (st : Editor.State) (g : ConnectionDrag.Gesture)
  : Editor.State :=
  {| Editor.history := Editor.history st;
     Editor.isDraggingRef := Editor.isDraggingRef st;
     Editor.gesture := g;
     Editor.nextRef := Editor.nextRef st |}.

(** The platform's [onPointerDown], with [onNodeSelect] the coordinator's
    handler: the next editor state, and whether a box selection has
    started.  The pans that the middle and the left button start move the
    viewport offset, which is not part of the editor state. *)
Definition onPointerDown (e : PointerEvent) (st : Editor.State)
  : Editor.State * bool :=
  if (button e =? 1)%nat then (st, false)
  else if negb (button e =? 0)%nat then (st, false)
  else
    let st :=
      withGesture st
        (ConnectionDrag.setWarningMessage (Editor.gesture st) None) in
    if fst (handleSelectionStart e None) then (st, true)
    else
      (if negb (ctrlKey e) && negb (metaKey e) then
         if negb (insideNode e) then
           Editor.nodeSelect SelNull
                             (Some {| pe_ctrlKey := ctrlKey e;
                                      pe_metaKey := metaKey e |}) st
         else st
       else st,
       false).

(** A press on the platform and the release that follows it, nothing else
    happening in between: [onPointerDown]; then, at the release, the
    platform's [onPointerUp] if the release is over the platform, and the
    [up] listener if a box selection was started. *)
Definition drag (platform : option (list NodeElement))
           (down ev : PointerEvent) (st : Editor.State) : Editor.State :=
  let '(st, started) := onPointerDown down st in
  let st := if overPlatform ev then Editor.pointerUp st else st in
  if started then
    match fst (up (at_ down) platform ev) with
    | Some ids =>
        Editor.nodeSelect (SelMany ids)
                          (Some {| pe_ctrlKey := ctrlKey ev;
                                   pe_metaKey := metaKey ev |}) st
    | None => st
    end
  else st.

(** The editor after a press with the primary button and a release that
    select nothing: the warning is cleared by the press, and the wire
    gesture by a release over the platform. *)
Definition settled (ev : PointerEvent) (st : Editor.State) : Editor.State :=
  let st :=
    withGesture st
      (ConnectionDrag.setWarningMessage (Editor.gesture st) None) in
  if overPlatform ev then Editor.pointerUp st else st.
End SelectionBox.

(** Three node elements in a row and a shift-drag over the first two. *)
Module Band.
Local Open Scope R_scope.
Local Open Scope string_scope.

Definition element (id : string) (l : R) : SelectionBox.NodeElement :=
  {| SelectionBox.dataId := Some id;
     SelectionBox.rect := {| SelectionBox.left := l; SelectionBox.top := 0;
                             SelectionBox.right := l + 50;
                             SelectionBox.bottom := 40 |} |}.

Definition platform : option (list SelectionBox.NodeElement) :=
  Some [ element "a" 0; element "b" 100; element "c" 200 ].

Definition shiftAt (x y : R) : SelectionBox.PointerEvent :=
  {| SelectionBox.button := 0;
     SelectionBox.shiftKey := true; SelectionBox.ctrlKey := false;
     SelectionBox.metaKey := false;
     SelectionBox.clientX := x; SelectionBox.clientY := y;
     SelectionBox.insideNode := false;
     SelectionBox.overPlatform := true |}.

(** The unwired sample graph while a warning is shown. *)
Definition warned : Editor.State :=
  {| Editor.history := History.init Sample.unwired;
     Editor.isDraggingRef := false;
     Editor.gesture :=
       {| ConnectionDrag.newConnection := None;
          ConnectionDrag.connectionPreview := None;
          ConnectionDrag.warningMessage := Some "Invalid node types" |};
     Editor.nextRef := 0 |}.
End Band.

(** *** The block menu and the value editors of a node *)

Module Widgets.
Import Geometry History NodeSystem.
Local Open Scope R_scope.

(** [onNodeValueChange], called by a node's input widget. *)
Definition valueChange (id portName : string) (value : JsValue)
           (st : Editor.State) : Editor.State :=
  Keys.withHistory st
    (Authoring.handleNodeValueChange (Editor.rendered st) id portName value
                                     (Editor.history st)).

(** [handleBlockMenuSelect], with [onAddNode = handleAddNode]. *)
Definition handleBlockMenuSelect
           (v : ConnectionDrag.View) (mousePosition : Point)
           (newNodeId : string) (nodeTypeId : string) (st : Editor.State)
  : Editor.State :=
  match ConnectionDrag.platformRect v with
  | None => st
  | Some rect =>
      let nodeX := (x mousePosition - ConnectionDrag.left rect
                    - x (ConnectionDrag.offset v))
                   / ConnectionDrag.scale v in
      let nodeY := (y mousePosition - ConnectionDrag.top rect
                    - y (ConnectionDrag.offset v))
                   / ConnectionDrag.scale v in
      Keys.withHistory st
        (Authoring.handleAddNode (Editor.rendered st) newNodeId nodeTypeId
                                 nodeX nodeY (Editor.history st))
  end.
End Widgets.

(** *** Saving and loading ([utils/serialize.ts] and its loader) *)

Module Serialize.
Local Open Scope R_scope.

(** An entry of a serialized row:
    [string | number | Record<string, any> | undefined], and what JSON
    makes of such entries: [null] in the place of [undefined], and, for a
    data record, the object that [JSON.parse] reads from the text that
    [JSON.stringify] writes for it.  Nothing is said about what that object
    holds: JSON keeps strings, booleans and finite numbers, writes the
    other numbers as [null] and drops what it cannot write. *)
Inductive Cell :=
| CUndefined
| CNull
| CString (s : string)
| CNumber (r : R)
| CRecord (data : gmap string JsValue)
| CParsed (written : gmap string JsValue).

(** [SerializedGraph]: the rows of the nodes and the rows of the
    connections. *)
Definition Rows := list (list Cell).

(** [Math.round]: the nearest integer, halves go up. *)
Definition round (r : R) : R := IZR (Int_part (r + / 2)).

Definition isUndefined (c : Cell) : bool :=
  match c with CUndefined => true | _ => false end.

(** Truthiness of a cell. *)
Definition truthy (c : Cell) : bool :=
  match c with
  | CUndefined | CNull => false
  | CString s => negb (String.eqb s "")
  | CNumber r => if Req_dec_T r 0 then false else true
  | CRecord _ | CParsed _ => true
  end.

(** Truthiness of [n.width] and [n.height]. *)
Definition truthyNumber (r : option R) : bool :=
  match r with
  | Some r => if Req_dec_T r 0 then false else true
  | None => false
  end.

(** The [pop] loop on the reversed optional part of a row. *)
Fixpoint popUndefined (reversed : list Cell) : list Cell :=
  match reversed with
  | c :: rest => if isUndefined c then popUndefined rest else reversed
  | [] => []
  end.

(** [for (let i = node.length - 1; i >= 4; i--)]: trailing [undefined]
    entries are popped, the first four entries are never looked at. *)
Definition trim (node : list Cell) : list Cell :=
  firstn 4 node ++ rev (popUndefined (rev (skipn 4 node))).

(** The row of a node, before [JSON.stringify]. *)
Definition serializeNode (n : NodeData) : list Cell :=
  let node := [ CString (n_id n); CString (n_type n);
                CNumber (round (n_x n)); CNumber (round (n_y n)) ] in
  let node :=
    node ++ [ match n_data n with
              | Some data => if decide (data = ∅) then CUndefined
                             else CRecord data
              | None => CUndefined
              end ] in
  let node :=
    node ++ [ if truthyNumber (n_width n)
              then match n_width n with
                   | Some w => CNumber w
                   | None => CUndefined
                   end
              else CUndefined ] in
  let node :=
    node ++ [ if truthyNumber (n_height n)
              then match n_height n with
                   | Some h => CNumber h
                   | None => CUndefined
                   end
              else CUndefined ] in
  trim node.

Definition serializeConnection (c : Connection) : list Cell :=
  [ CString (nodeId (from c)); CString (port (from c));
    CString (nodeId (to c)); CString (port (to c)) ].

(** The value handed to [JSON.stringify]. *)
Definition serializedState (nodes : list NodeData)
           (connections : list Connection) : list Rows :=
  [ map serializeNode nodes; map serializeConnection connections ].

(** What [JSON.parse] reads back from the text that [JSON.stringify]
    writes for an entry: an [undefined] entry of an array is written as
    [null]; strings and the numbers of the rows, which are finite, come
    back as they are. *)
Definition jsonCell (c : Cell) : Cell :=
  match c with
  | CUndefined => CNull
  | CRecord data => CParsed data
  | c => c
  end.

Definition throughJson (state : list Rows) : list Rows :=
  map (map (map jsonCell)) state.

(** The node object that [deserializeGraph] builds: the fields hold the
    cells as they are, the casts check nothing. *)
Record RawNode := {
  r_id : Cell;
  r_type : Cell;
  r_x : Cell;
  r_y : Cell;
  r_data : option Cell;
  r_width : option Cell;
  r_height : option Cell
}.

Record RawEndpoint := { r_nodeId : Cell; r_port : Cell }.

Record RawConnection := { r_from : RawEndpoint; r_to : RawEndpoint }.

Record GraphState := {
  g_nodes : list RawNode;
  g_connections : list RawConnection
}.

(** [n[i]] *)
Definition at_ (n : list Cell) (i : nat) : Cell := nth i n CUndefined.

(** [if (n[i]) node.field = n[i]] *)
Definition whenTruthy (c : Cell) : option Cell :=
  if truthy c then Some c else None.

Definition deserializeNode (n : list Cell) : RawNode :=
  {| r_id := at_ n 0; r_type := at_ n 1; r_x := at_ n 2; r_y := at_ n 3;
     r_data := whenTruthy (at_ n 4);
     r_width := whenTruthy (at_ n 5);
     r_height := whenTruthy (at_ n 6) |}.

Definition deserializeConnection (c : list Cell) : RawConnection :=
  {| r_from := {| r_nodeId := at_ c 0; r_port := at_ c 1 |};
     r_to := {| r_nodeId := at_ c 2; r_port := at_ c 3 |} |}.

(** [deserializeGraph] on a parsed text that is an array of arrays of
    rows; [None] is the thrown "Invalid graph state format". *)
Definition deserializeGraph (state : list Rows) : option GraphState :=
  match state with
  | [nodeRows; connectionRows] =>
      Some {| g_nodes := map deserializeNode nodeRows;
              g_connections := map deserializeConnection connectionRows |}
  | _ => None
  end.

(** A node as a saved graph gives it back: the position rounded, the data
    as JSON reads them back unless they were empty, the width and the
    height unless they are zero, and no selection flag. *)
Definition rawNode (n : NodeData) : RawNode :=
  {| r_id := CString (n_id n); r_type := CString (n_type n);
     r_x := CNumber (round (n_x n)); r_y := CNumber (round (n_y n));
     r_data := match n_data n with
               | Some data => if decide (data = ∅) then None
                              else Some (CParsed data)
               | None => None
               end;
     r_width := match n_width n with
                | Some w => if Req_dec_T w 0 then None
                            else Some (CNumber w)
                | None => None
                end;
     r_height := match n_height n with
                 | Some h => if Req_dec_T h 0 then None
                             else Some (CNumber h)
                 | None => None
                 end |}.

(** A connection as a saved graph gives it back: the four identifiers. *)
Definition rawConnection (c : Connection) : RawConnection :=
  {| r_from := {| r_nodeId := CString (nodeId (from c));
                  r_port := CString (port (from c)) |};
     r_to := {| r_nodeId := CString (nodeId (to c));
                r_port := CString (port (to c)) |} |}.
End Serialize.

(** *** Colour conversions ([VariableEditor/editors/ColorEditor.tsx]) *)

Module Color.
Local Open Scope R_scope.

(** [Math.round] *)
Definition round (r : R) : R := IZR (Int_part (r + / 2)).

Definition clamp (val min max : R) : R := Rmax min (Rmin max val).

Definition vec3ToRgb (v : list R) : list R :=
  map (fun n => clamp (round (n * 255)) 0 255) v.

Record Hsv := { h : R; s : R; v : R }.

Definition rgbToHsv (r g b : R) : Hsv :=
  let r := r / 255 in
  let g := g / 255 in
  let b := b / 255 in
  let max := Rmax (Rmax r g) b in
  let min := Rmin (Rmin r g) b in
  let v := max in
  let d := max - min in
  let s := if Req_dec_T max 0 then 0 else d / max in
  let h :=
    if Req_dec_T max min then 0
    else (if Req_dec_T max r then
            (g - b) / d + (if Rlt_dec g b then 6 else 0)
          else if Req_dec_T max g then (b - r) / d + 2
          else if Req_dec_T max b then (r - g) / d + 4
          else 0) / 6 in
  {| h := h * 360; s := s * 100; v := v * 100 |}.

Definition hsvToRgb (h s v : R) : list R :=
  let h := h / 360 in
  let s := s / 100 in
  let v := v / 100 in
  let i := Int_part (h * 6) in
  let f := h * 6 - IZR i in
  let p := v * (1 - s) in
  let q := v * (1 - f * s) in
  let t := v * (1 - (1 - f) * s) in
  let '(r, g, b) :=
    match Z.rem i 6 with
    | 0%Z => (v, t, p)
    | 1%Z => (q, v, p)
    | 2%Z => (p, v, t)
    | 3%Z => (p, q, v)
    | 4%Z => (t, p, v)
    | 5%Z => (v, p, q)
    | _ => (0, 0, 0)
    end in
  [round (r * 255); round (g * 255); round (b * 255)].
End Color.

(** The hexadecimal notation of a colour, on whole-number channels: a
    channel that is negative or not whole has a sign or a fraction in
    [toString(16)], which no caller here produces. *)
Module Hex.

(** The digit of [Number.prototype.toString(16)] for a value below 16. *)
Definition digit (d : nat) : ascii :=
  match String.get d "0123456789abcdef" with
  | Some c => c
  | None => "0"%char
  end.

(** The digits of [n] in base 16 are put in front of [acc], the least
    significant first; [fuel] bounds the number of digits. *)
Fixpoint digits (fuel n : nat) (acc : string) : string :=
  match fuel with
  | O => acc
  | S fuel =>
      let acc := String (digit (n mod 16)) acc in
      if (n / 16 =? 0)%nat then acc else digits fuel (n / 16) acc
  end.

(** [x.toString(16)] for a whole number [x >= 0]; a number has at most as
    many digits as its successor says. *)
Definition toString16 (x : nat) : string := digits (S x) x "".

Fixpoint repeatChar (n : nat) (c : ascii) : string :=
  match n with
  | O => ""
  | S n => String c (repeatChar n c)
  end.

(** [s.padStart(targetLength, padChar)] *)
Definition padStart (targetLength : nat) (padChar : ascii) (s : string)
  : string :=
  repeatChar (targetLength - String.length s) padChar ++ s.

(** [rgbToHex], on whole-number channels. *)
Definition rgbToHex (r g b : nat) : string :=
  "#" ++ String.concat ""
           (map (fun x => padStart 2 "0" (toString16 x)) [r; g; b]).

(** The value of a character of the class [[a-f\d]] under the [i] flag. *)
Definition hexValue (c : ascii) : option nat :=
  let n := nat_of_ascii c in
  if ((48 <=? n) && (n <=? 57))%nat then Some (n - 48)
  else if ((97 <=? n) && (n <=? 102))%nat then Some (n - 87)
  else if ((65 <=? n) && (n <=? 70))%nat then Some (n - 55)
  else None.

(** [parseInt(xy, 16)] on two characters of the class. *)
Definition parsePair (x y : ascii) : option nat :=
  match hexValue x, hexValue y with
  | Some x, Some y => Some (16 * x + y)
  | _, _ => None
  end.

(** [hexToRgb]: an optional [#], then exactly three pairs of hexadecimal
    digits; [None] is the result [null]. *)
Definition hexToRgb (hex : string) : option (list nat) :=
  let body := match hex with
              | String "#" rest => rest
              | _ => hex
              end in
  match body with
  | String r1 (String r2 (String g1 (String g2
      (String b1 (String b2 EmptyString))))) =>
      match parsePair r1 r2, parsePair g1 g2, parsePair b1 b2 with
      | Some r, Some g, Some b => Some [r; g; b]
      | _, _, _ => None
      end
  | _ => None
  end.
End Hex.

(** * Properties *)

(** ** HistoryStore *)

Section HistoryFacts.
Context {T : Type}.
Implicit Types (h : History.HistoryState T) (s : T) (ss : list T).

Lemma last_index l (x : T) :
  nth_error (l ++ [x]) (length (l ++ [x]) - 1) = Some x.
Proof.
  rewrite length_app; simpl.
  replace (length l + 1 - 1) with (length l) by lia.
  rewrite nth_error_app2 by lia.
  now rewrite Nat.sub_diag.
Qed.

Lemma init_slice l (x : T) :
  firstn (length (l ++ [x]) - 1) (l ++ [x]) = l.
Proof.
  rewrite length_app; simpl.
  replace (length l + 1 - 1) with (length l + 0) by lia.
  rewrite firstn_app_2. simpl. apply app_nil_r.
Qed.

Lemma undo_snoc l (x p : T) f :
  History.undo {| History.past := l ++ [x]; History.present := p;
                  History.future := f |}
  = {| History.past := l; History.present := x;
       History.future := p :: f |}.
Proof.
  unfold History.undo; simpl.
  destruct (length (l ++ [x]) =? 0) eqn:E.
  - apply Nat.eqb_eq in E. rewrite length_app in E. simpl in E. lia.
  - now rewrite last_index, init_slice.
Qed.

Lemma redo_cons l (p n : T) f :
  History.redo {| History.past := l; History.present := p;
                  History.future := n :: f |}
  = {| History.past := l ++ [p]; History.present := n;
       History.future := f |}.
Proof. reflexivity. Qed.

Lemma undo_empty h : History.past h = [] -> History.undo h = h.
Proof. intros E. unfold History.undo. now rewrite E. Qed.

Lemma redo_empty h : History.future h = [] -> History.redo h = h.
Proof. intros E. unfold History.redo. now rewrite E. Qed.

Lemma redo_undo h : History.past h <> [] -> History.redo (History.undo h) = h.
Proof.
  destruct h as [pa p f]; simpl. intros Hne.
  destruct (exists_last Hne) as [l [x ->]].
  now rewrite undo_snoc, redo_cons.
Qed.

Lemma set_replace m h s :
  History.set m h s true
  = {| History.past := History.past h; History.present := s;
       History.future := History.future h |}.
Proof. reflexivity. Qed.

Lemma set_commit_future m h s : History.future (History.set m h s false) = [].
Proof. reflexivity. Qed.

Lemma set_commit_past m h s :
  History.past (History.set m h s false)
  = if m <? length (History.trail h) then skipn 1 (History.trail h)
    else History.trail h.
Proof. reflexivity. Qed.

Lemma last_default (l : list T) (x d d' : T) :
  List.last (x :: l) d = List.last (x :: l) d'.
Proof.
  revert x. induction l as [|y l IH]; intros x; [reflexivity|].
  change (List.last (y :: l) d = List.last (y :: l) d'). apply IH.
Qed.

(** Replace commits never touch [past] or [future]; the present is the
    last value written. *)
Lemma setAll_replace m h ss :
  History.setAll m true h ss
  = {| History.past := History.past h;
       History.present := List.last ss (History.present h);
       History.future := History.future h |}.
Proof.
  revert h. induction ss as [|s ss IH]; intros h.
  - now destruct h.
  - unfold History.setAll in *. cbn [fold_left]. rewrite IH, set_replace.
    cbn [History.past History.present History.future].
    destruct ss as [|t ss]; [reflexivity|].
    f_equal. change (List.last (s :: t :: ss) (History.present h))
               with (List.last (t :: ss) (History.present h)).
    apply last_default.
Qed.

(** Below the bound nothing is evicted. *)
Lemma setAll_commit_under m h ss :
  length (History.past h) + length ss <= m ->
  History.trail (History.setAll m false h ss) = History.trail h ++ ss.
Proof.
  revert h. induction ss as [|s ss IH]; intros h Hlen.
  - simpl. now rewrite app_nil_r.
  - unfold History.setAll in *. cbn [fold_left]. cbn [length] in Hlen.
    rewrite IH.
    + unfold History.trail at 1. rewrite set_commit_past.
      assert (length (History.trail h) <= m) as Hle.
      { unfold History.trail. rewrite length_app. simpl. lia. }
      apply Nat.ltb_ge in Hle. rewrite Hle. cbn [History.present History.set].
      now rewrite <- app_assoc.
    + rewrite set_commit_past.
      assert (length (History.trail h) <= m) as Hle.
      { unfold History.trail. rewrite length_app. simpl. lia. }
      pose proof Hle as Hle'. apply Nat.ltb_ge in Hle'. rewrite Hle'.
      unfold History.trail. rewrite length_app. simpl. lia.
Qed.

(** The bound on [past] is an invariant of [set]. *)
Lemma set_past_bounded m h s replace :
  length (History.past h) <= m ->
  length (History.past (History.set m h s replace)) <= m.
Proof.
  intros Hle. destruct replace; [exact Hle|].
  rewrite set_commit_past.
  destruct (m <? length (History.trail h)) eqn:E.
  - rewrite length_skipn. unfold History.trail. rewrite length_app. simpl. lia.
  - now apply Nat.ltb_ge in E.
Qed.
End HistoryFacts.


(** C3 (as amended).  With the default bound of 50: after 51 non-replace
    commits from an empty past, [past] holds exactly 50 entries, namely the
    first 50 committed values; the initial present, which was the oldest
    entry of [past] after 50 commits, is gone.  A run of replace commits followed by one non-replace commit
    leaves [past] alone until the last commit, which appends one entry, the
    present at that moment: the value of the last replace commit (the
    original present only when the run is empty); if [past] is already full
    its oldest entry is evicted. *)
Theorem history_bounds_and_coalescing (T : Type) :
  (forall (p0 : T) (fut : list T) (ss : list T),
      length ss = 51 ->
      let h := History.setAll History.defaultMaxHistory false
                 {| History.past := []; History.present := p0;
                    History.future := fut |} ss in
      length (History.past h) = 50 /\
      History.past h = removelast ss /\
      History.past
        (History.setAll History.defaultMaxHistory false
           {| History.past := []; History.present := p0;
              History.future := fut |} (removelast ss))
      = p0 :: removelast (removelast ss)) /\
  (forall (h : History.HistoryState T) (rs : list T) (s : T),
      let dragged := History.setAll History.defaultMaxHistory true h rs in
      let entry := List.last rs (History.present h) in
      History.past dragged = History.past h /\
      History.present dragged = entry /\
      History.past (History.set History.defaultMaxHistory dragged s false)
      = (if 50 <? length (History.past h ++ [entry])
         then skipn 1 (History.past h ++ [entry])
         else History.past h ++ [entry]) /\
      (length (History.past h) < 50 ->
       History.past (History.set History.defaultMaxHistory dragged s false)
       = History.past h ++ [entry])).
Proof.
  split.
  - intros p0 fut ss Hlen h.
    destruct (exists_last (l := ss)) as [ss' [s51 ->]].
    { intros ->. discriminate. }
    rewrite length_app in Hlen. simpl in Hlen.
    assert (length ss' = 50) as Hlen' by lia.
    rewrite removelast_last. subst h.
    pose proof (setAll_commit_under History.defaultMaxHistory
                  {| History.past := []; History.present := p0;
                     History.future := fut |} ss') as Htrail.
    assert (History.past
              (History.setAll History.defaultMaxHistory false
                 {| History.past := []; History.present := p0;
                    History.future := fut |} ss')
            = p0 :: removelast ss') as Hbefore.
    { apply (f_equal (@removelast T)) in Htrail;
        [|cbn [History.past length]; unfold History.defaultMaxHistory; lia].
      unfold History.trail in Htrail at 1.
      rewrite removelast_last in Htrail. rewrite Htrail.
      unfold History.trail. cbn [History.past History.present app].
      destruct ss' as [|s ss'']; [discriminate|reflexivity]. }
    unfold History.setAll in *. rewrite fold_left_app. cbn [fold_left].
    rewrite set_commit_past, Htrail
      by (cbn [History.past length]; unfold History.defaultMaxHistory; lia).
    unfold History.trail, History.defaultMaxHistory.
    cbn [History.past History.present app length]. rewrite Hlen'.
    change (50 <? 51) with true. cbv iota. cbn [skipn].
    split; [exact Hlen'|]. split; [reflexivity|exact Hbefore].
  - intros h rs s dragged entry. subst dragged entry.
    rewrite setAll_replace. cbn [History.past History.present].
    split; [reflexivity|]. split; [reflexivity|].
    rewrite set_commit_past. unfold History.trail, History.defaultMaxHistory.
    cbn [History.past History.present].
    split; [reflexivity|].
    intros Hlt. rewrite length_app. cbn [length].
    assert ((50 <? length (History.past h) + 1) = false) as ->
        by (apply Nat.ltb_ge; lia).
    reflexivity.
Qed.

(** C3, witness: 51 commits of the numbers 1 to 51 after the initial 0. *)
Lemma history_bounds_and_coalescing_witness :
  length (seq 1 51) = 51 /\
  History.past (History.setAll History.defaultMaxHistory false
                  {| History.past := []; History.present := 0;
                     History.future := [] |} (seq 1 51))
  = removelast (seq 1 51).
Proof.
  split; [reflexivity|].
  apply (proj1 (history_bounds_and_coalescing nat) 0 [] (seq 1 51)).
  reflexivity.
Defined.

(** C3, counterexample to the claim as stated: after one replace commit
    and one non-replace commit, the new [past] entry is the replaced value
    1, not the present 0 from before the replace. *)
Lemma history_coalescing_counterexample :
  let h := History.init 0 in
  let h' := History.set History.defaultMaxHistory
              (History.setAll History.defaultMaxHistory true h [1]) 2 false in
  History.past h' = [1] /\
  History.past h' <> History.past h ++ [History.present h].
Proof. split; [reflexivity|discriminate]. Qed.

(** C4.  Undo followed by redo gives back the whole store (past, present
    and future) whenever there is something to undo; undo does nothing on an
    empty past, redo nothing on an empty future; right after a non-replace
    [set] the future is empty, [canRedo] is false and redo does nothing. *)
Theorem undo_redo_symmetry (T : Type) (h : History.HistoryState T) :
  (History.past h <> [] -> History.redo (History.undo h) = h) /\
  (History.past h = [] -> History.undo h = h) /\
  (History.future h = [] -> History.redo h = h) /\
  (forall (m : nat) (s : T),
      History.future (History.set m h s false) = [] /\
      History.canRedo (History.set m h s false) = false /\
      History.redo (History.set m h s false) = History.set m h s false).
Proof.
  split; [apply redo_undo|]. split; [apply undo_empty|].
  split; [apply redo_empty|].
  intros m s. split; [reflexivity|]. split; [reflexivity|].
  apply redo_empty. reflexivity.
Qed.

(** C4, witness: a store with two past entries, and a fresh store. *)
Lemma undo_redo_symmetry_witness :
  let h := {| History.past := [1; 2]; History.present := 3;
              History.future := [4] |} in
  (History.past h <> [] /\ History.redo (History.undo h) = h) /\
  (History.past (History.init 7) = [] /\
   History.undo (History.init 7) = History.init 7) /\
  (History.future (History.init 7) = [] /\
   History.redo (History.init 7) = History.init 7).
Proof.
  intros h.
  assert (History.past h <> []) as Hne by discriminate.
  split.
  - split; [exact Hne|].
    exact (proj1 (undo_redo_symmetry nat h) Hne).
  - split.
    + split; [reflexivity|].
      exact (proj1 (proj2 (undo_redo_symmetry nat (History.init 7))) eq_refl).
    + split; [reflexivity|].
      exact (proj1 (proj2 (proj2 (undo_redo_symmetry nat (History.init 7))))
                   eq_refl).
Defined.

(** ** The coordinator: selection *)

(** C10.  Whatever the argument of [handleNodeSelect] (one id with or
    without the ctrl/cmd modifier, a list of ids, or null), the new snapshot
    is committed with [replace = true]; the store's [past] and [future] are
    the ones it had before. *)
Theorem selection_commits_by_replace
        (rendered : AppState) (id : NodeSystem.SelectArg)
        (evt : option NodeSystem.PointerEvent)
        (curr : History.HistoryState AppState) :
  let next := NodeSystem.handleNodeSelect rendered id evt curr in
  (exists snapshot, next = NodeSystem.set curr snapshot true) /\
  History.past next = History.past curr /\
  History.future next = History.future curr.
Proof.
  destruct id as [|ids|one]; cbn zeta; unfold NodeSystem.handleNodeSelect;
    (split; [eexists; reflexivity|split; reflexivity]).
Qed.

(** ** The coordinator: deletion *)

Lemma includes_In (ids : list string) (s : string) :
  includes ids s = true <-> In s ids.
Proof.
  unfold includes. rewrite existsb_exists. split.
  - intros [x [Hin Heq]]. apply String.eqb_eq in Heq. now subst.
  - intros Hin. exists s. split; [assumption|apply String.eqb_refl].
Qed.

Lemma includes_not_In (ids : list string) (s : string) :
  negb (includes ids s) = true <-> ~ In s ids.
Proof.
  rewrite negb_true_iff, <- includes_In.
  destruct (includes ids s); split; congruence.
Qed.

Lemma delete_connections_In rendered id curr c :
  In c (connections (History.present
                       (NodeSystem.handleNodeDelete rendered id curr)))
  <-> In c (connections rendered) /\
      ~ In (nodeId (from c)) (Spec.deleted id) /\
      ~ In (nodeId (to c)) (Spec.deleted id).
Proof.
  unfold NodeSystem.handleNodeDelete, NodeSystem.set, History.set.
  cbn [History.present connections].
  fold (Spec.deleted id).
  rewrite filter_In, andb_true_iff, !includes_not_In. tauto.
Qed.

Lemma delete_nodes_In rendered id curr n :
  In n (nodes (History.present
                 (NodeSystem.handleNodeDelete rendered id curr)))
  <-> In n (nodes rendered) /\ ~ In (n_id n) (Spec.deleted id).
Proof.
  unfold NodeSystem.handleNodeDelete, NodeSystem.set, History.set.
  cbn [History.present nodes].
  fold (Spec.deleted id).
  rewrite filter_In, includes_not_In. tauto.
Qed.

(** C8.  After [handleNodeDelete], no connection of the new snapshot has a
    deleted node at either end; if every connection of the old snapshot
    referenced nodes of the old snapshot (I2), every connection of the new
    one references nodes of the new one; every old connection between two
    nodes that were not deleted is still there, and nothing else is. *)
Theorem delete_preserves_no_dangling
        (rendered : AppState) (id : NodeSystem.DeleteArg)
        (curr : History.HistoryState AppState) :
  let after := History.present
                 (NodeSystem.handleNodeDelete rendered id curr) in
  (forall c, In c (connections after) ->
             ~ In (nodeId (from c)) (Spec.deleted id) /\
             ~ In (nodeId (to c)) (Spec.deleted id)) /\
  (Spec.noDangling rendered -> Spec.noDangling after) /\
  (forall c, In c (connections rendered) ->
             ~ In (nodeId (from c)) (Spec.deleted id) ->
             ~ In (nodeId (to c)) (Spec.deleted id) ->
             In c (connections after)) /\
  (forall c, In c (connections after) -> In c (connections rendered)).
Proof.
  cbn zeta. repeat split.
  - now apply delete_connections_In in H.
  - now apply delete_connections_In in H.
  - apply delete_connections_In in H0 as [Hin [Hf Ht]].
    destruct (H c Hin) as [[n [Hn Hid]] _].
    exists n. split; [|assumption].
    apply delete_nodes_In. split; [assumption|]. now rewrite Hid.
  - apply delete_connections_In in H0 as [Hin [Hf Ht]].
    destruct (H c Hin) as [_ [n [Hn Hid]]].
    exists n. split; [|assumption].
    apply delete_nodes_In. split; [assumption|]. now rewrite Hid.
  - intros c Hin Hf Ht. apply delete_connections_In. tauto.
  - intros c Hin. now apply delete_connections_In in Hin.
Qed.

(** Finds a node of a concrete list by its id. *)
Ltac pick_node :=
  unfold Spec.hasNode; cbn;
  first [ solve [eexists; split; [left; reflexivity|reflexivity]]
        | solve [eexists; split; [right; left; reflexivity|reflexivity]]
        | solve [eexists; split; [right; right; left; reflexivity|reflexivity]]
        | solve [eexists; split;
                 [right; right; right; left; reflexivity|reflexivity]] ].

(** C8, witness: deleting the middle node of the chain a -> b -> c. *)
Lemma delete_preserves_no_dangling_witness :
  Spec.noDangling Sample.chain /\
  Spec.noDangling
    (History.present
       (NodeSystem.handleNodeDelete Sample.chain (NodeSystem.DelOne "b")
                                    (History.init Sample.chain))).
Proof.
  assert (Spec.noDangling Sample.chain) as Hok.
  { intros c [<-|[<-|[]]]; split; pick_node. }
  split; [exact Hok|].
  exact (proj1 (proj2 (delete_preserves_no_dangling
                         Sample.chain (NodeSystem.DelOne "b")
                         (History.init Sample.chain))) Hok).
Defined.

(** ** The arrow-key nudge *)

(** C6, evaluated on two selected nodes [a] and [b] and an unselected [c]:
    after ArrowRight, only [b], the last selected node, has moved by 10;
    [a] is where it was, so the snapshot is not the one in which every
    selected node is translated.  Each call of [onNodeMove] rebuilds the
    node list from the [nodes] of the last render, so the second call
    discards the move of the first; the first move survives only as an
    entry of [past]. *)
Theorem arrow_nudge_moves_only_last_selected :
  let st := Sample.mounted Sample.twoSelected 0 in
  let st' := Editor.keyDown Sample.arrowRight false st in
  Keyboard.handleKeyDown Sample.arrowRight false (nodes Sample.twoSelected)
  = [ {| Keyboard.mv_id := "a"; Keyboard.mv_x := 0 + 10;
         Keyboard.mv_y := 0 + 0 |};
      {| Keyboard.mv_id := "b"; Keyboard.mv_x := 100 + 10;
         Keyboard.mv_y := 0 + 0 |} ]%R /\
  nodes (History.present (Editor.history st'))
  = [ Sample.node "a" "Add" 0 0 (Some true);
      Sample.node "b" "Add" (100 + 10) (0 + 0) (Some true);
      Sample.node "c" "Add" 200 0 None ]%R /\
  Spec.nudged Sample.arrowRight (nodes Sample.twoSelected)
  = [ Sample.node "a" "Add" (0 + 10) (0 + 0) (Some true);
      Sample.node "b" "Add" (100 + 10) (0 + 0) (Some true);
      Sample.node "c" "Add" 200 0 None ]%R /\
  nodes (History.present (Editor.history st'))
  <> Spec.nudged Sample.arrowRight (nodes Sample.twoSelected) /\
  History.past (Editor.history st')
  = [ Sample.twoSelected;
      {| nodes := [ Sample.node "a" "Add" (0 + 10) (0 + 0) (Some true);
                    Sample.node "b" "Add" 100 0 (Some true);
                    Sample.node "c" "Add" 200 0 None ]%R;
         connections := [] |} ].
Proof.
  cbn zeta.
  assert (nodes (History.present
                   (Editor.history
                      (Editor.keyDown Sample.arrowRight false
                         (Sample.mounted Sample.twoSelected 0))))
          = [ Sample.node "a" "Add" 0 0 (Some true);
              Sample.node "b" "Add" (100 + 10) (0 + 0) (Some true);
              Sample.node "c" "Add" 200 0 None ]%R) as Hnodes
      by reflexivity.
  assert (Spec.nudged Sample.arrowRight (nodes Sample.twoSelected)
          = [ Sample.node "a" "Add" (0 + 10) (0 + 0) (Some true);
              Sample.node "b" "Add" (100 + 10) (0 + 0) (Some true);
              Sample.node "c" "Add" 200 0 None ]%R) as Hspec
      by reflexivity.
  split; [reflexivity|]. split; [exact Hnodes|]. split; [exact Hspec|].
  split; [|reflexivity].
  rewrite Hnodes, Hspec. intros Heq.
  assert (0 = 0 + 10)%R as Habs by (injection Heq; auto).
  lra.
Qed.

(** What a key press leaves in [present]: the rendered node list with the
    last call of [onNodeMove] applied, and nothing of the earlier calls. *)
Lemma keyDown_keeps_last_move_only
      (e : Keyboard.KeyboardEvent) (blockMenuOpen : bool) (st : Editor.State)
      (ms : list Keyboard.MoveCall) (m : Keyboard.MoveCall) :
  Keyboard.handleKeyDown e blockMenuOpen (nodes (Editor.rendered st))
  = ms ++ [m] ->
  History.present (Editor.history (Editor.keyDown e blockMenuOpen st))
  = {| nodes := map (fun n => if String.eqb (n_id n) (Keyboard.mv_id m)
                              then withPosition n (Keyboard.mv_x m)
                                                (Keyboard.mv_y m)
                              else n) (nodes (Editor.rendered st));
       connections := connections (Editor.rendered st) |}.
Proof.
  intros Hcalls. unfold Editor.keyDown. cbn [Editor.history].
  rewrite Hcalls, fold_left_app. cbn [fold_left].
  unfold NodeSystem.handleNodeMove at 1, NodeSystem.set, History.set.
  now destruct (Editor.isDraggingRef st).
Qed.

Lemma arrow_key_enters_arrow_branch
      (e : Keyboard.KeyboardEvent) (blockMenuOpen : bool) :
  In (Keyboard.key e) Spec.arrowKeys ->
  Keyboard.shortcutOf e blockMenuOpen = Keyboard.ArrowNudge.
Proof.
  unfold Spec.arrowKeys, Keyboard.shortcutOf.
  intros [<-|[<-|[<-|[<-|[]]]]]; cbn;
    rewrite ?andb_false_r; reflexivity.
Qed.

Lemma unique_id_determines_node (ns : list NodeData) (a b : NodeData) :
  Spec.uniqueIds ns -> In a ns -> In b ns -> n_id a = n_id b -> a = b.
Proof.
  unfold Spec.uniqueIds.
  induction ns as [|n ns IH]; intros Huniq Ha Hb Hid; [contradiction|].
  cbn in Huniq. inversion Huniq as [|? ? Hnotin Hrest]; subst.
  destruct Ha as [<-|Ha]; destruct Hb as [<-|Hb].
  - reflexivity.
  - elim Hnotin. rewrite Hid. now apply in_map.
  - elim Hnotin. rewrite <- Hid. now apply in_map.
  - now apply IH.
Qed.

(** With exactly one selected node (and unique ids) the arrow keys do
    what section 4.7 says: the one call of [onNodeMove] translates the
    selected node and leaves the rest of the snapshot alone. *)
Lemma arrow_nudge_single_selection
      (e : Keyboard.KeyboardEvent) (blockMenuOpen : bool) (st : Editor.State)
      (selected : NodeData) :
  In (Keyboard.key e) Spec.arrowKeys ->
  Keyboard.ctrlKey e || Keyboard.metaKey e = false ->
  List.filter isSelected (nodes (Editor.rendered st)) = [selected] ->
  Spec.uniqueIds (nodes (Editor.rendered st)) ->
  History.present (Editor.history (Editor.keyDown e blockMenuOpen st))
  = {| nodes := Spec.nudged e (nodes (Editor.rendered st));
       connections := connections (Editor.rendered st) |}.
Proof.
  intros Hkey Hmod Hsel Huniq.
  assert (In selected (nodes (Editor.rendered st)) /\
          isSelected selected = true) as [Hin Hflag].
  { apply filter_In. rewrite Hsel. now left. }
  rewrite (keyDown_keeps_last_move_only e blockMenuOpen st []
             {| Keyboard.mv_id := n_id selected;
                Keyboard.mv_x := (n_x selected + fst (Spec.nudge e))%R;
                Keyboard.mv_y := (n_y selected + snd (Spec.nudge e))%R |}).
  - cbn [Keyboard.mv_id Keyboard.mv_x Keyboard.mv_y]. f_equal.
    unfold Spec.nudged. apply map_ext_in. intros n Hn.
    destruct (String.eqb (n_id n) (n_id selected)) eqn:Eid.
    + apply String.eqb_eq in Eid.
      rewrite (unique_id_determines_node _ n selected Huniq Hn Hin Eid).
      now rewrite Hflag.
    + destruct (isSelected n) eqn:Eflag; [|reflexivity].
      assert (In n [selected]) as Hn'.
      { rewrite <- Hsel. apply filter_In. now split. }
      destruct Hn' as [<-|[]]. now rewrite String.eqb_refl in Eid.
  - unfold Keyboard.handleKeyDown.
    rewrite arrow_key_enters_arrow_branch by assumption.
    unfold Keyboard.arrowBranch. rewrite Hsel, Hmod. cbn [length Nat.ltb
      Nat.leb negb map app].
    unfold Spec.nudge.
    repeat match goal with
           | |- context [String.eqb (Keyboard.key e) ?k] =>
               destruct (String.eqb (Keyboard.key e) k)
           end; reflexivity.
Qed.

(** ** Splicing *)

Lemma filter_other_refs (X c : Connection) (cs : list Connection) :
  In c (List.filter (fun d => negb (ref d =? ref X)) cs)
  <-> In c cs /\ ref c <> ref X.
Proof.
  rewrite filter_In, negb_true_iff, Nat.eqb_neq. tauto.
Qed.

Lemma target_determines_entry (cs : list Connection) (c d : Connection) :
  List.NoDup (map Valid.target cs) -> In c cs -> In d cs ->
  Valid.target c = Valid.target d -> c = d.
Proof.
  induction cs as [ | e cs IH ]; intros Hnd Hc Hd Ht; [ contradiction | ].
  cbn [map] in Hnd. inversion Hnd as [ | ? ? Hnotin Hrest ]; subst.
  destruct Hc as [ <- | Hc ]; destruct Hd as [ <- | Hd ].
  - reflexivity.
  - elim Hnotin. rewrite Ht. apply in_map. exact Hd.
  - elim Hnotin. rewrite <- Ht. apply in_map. exact Hc.
  - apply IH; assumption.
Qed.

(** X31 (handleSpliceNode).  On a graph in which no input port has two
    connections, a splice of the connection object [X], an entry of the
    current list that does not touch the dropped node (the resolver never
    chooses one that does), yields the current list without [X], followed
    by the two new connections: from [X]'s source to the dropped node's
    chosen input, and from its chosen output to [X]'s destination.  [X] is
    gone, no connection with [X]'s four fields remains, and every other
    entry is kept as it was, in order. *)
Theorem splice_rewires_when_inputs_unique
        (st : Editor.State) (dropped : string) (X : Connection)
        (bestInput bestOutput : string) :
  In X (connections (Editor.rendered st)) ->
  Editor.refsAllocated st ->
  Valid.inputUnique (Editor.rendered st) ->
  NodeSystem.touches dropped X = false ->
  let before := connections (Editor.rendered st) in
  let after :=
    connections
      (History.present
         (Editor.history
            (Editor.spliceNode dropped X bestInput bestOutput st))) in
  let connectionIn :=
    {| ref := Editor.nextRef st;
       from := from X;
       to := {| nodeId := dropped; port := bestInput; portDef := None |} |} in
  let connectionOut :=
    {| ref := Editor.nextRef st + 1;
       from := {| nodeId := dropped; port := bestOutput; portDef := None |};
       to := to X |} in
  after = List.filter (fun c => negb (ref c =? ref X)) before
          ++ [connectionIn; connectionOut] /\
  ~ In X after /\
  (forall c, In c after -> ~ Spec.sameFields c X) /\
  (forall c, In c before -> ref c <> ref X -> In c after).
Proof.
  intros HX Halloc Hunique Htouch before after connectionIn connectionOut.
  assert (after = List.filter (fun c => negb (ref c =? ref X)) before
                  ++ [connectionIn; connectionOut]) as Hafter by reflexivity.
  assert (ref X < Editor.nextRef st) as Hlt.
  { exact (proj1 (List.Forall_forall _ _) Halloc X HX). }
  split; [ exact Hafter | ]. rewrite Hafter. split; [ | split ].
  - rewrite in_app_iff, filter_other_refs. cbn [In].
    intros [ [_ Hne] | [ Heq | [ Heq | [] ] ] ].
    + now apply Hne.
    + rewrite <- Heq in Hlt. cbn [ref connectionIn] in Hlt. lia.
    + rewrite <- Heq in Hlt. cbn [ref connectionOut] in Hlt. lia.
  - intros c. rewrite in_app_iff, filter_other_refs. cbn [In].
    unfold NodeSystem.touches in Htouch.
    apply orb_false_iff in Htouch as [Hfrom Hto].
    apply String.eqb_neq in Hfrom, Hto.
    intros [ [Hc Hne] | [ Heq | [ Heq | [] ] ] ] [Hfn [Hfp [Htn Htp]]].
    + apply Hne. f_equal.
      apply (target_determines_entry before); try assumption.
      unfold Valid.target. now rewrite Htn, Htp.
    + rewrite <- Heq in Htn. cbn in Htn. congruence.
    + rewrite <- Heq in Hfn. cbn in Hfn. congruence.
  - intros c Hc Hne. rewrite in_app_iff, filter_other_refs. now left.
Qed.

(** X31, witness: splicing [m] into the wire a -> n of the fan-out
    graph. *)
Lemma splice_rewires_when_inputs_unique_witness :
  let st := Sample.mounted Sample.fanOut 2 in
  let X := Sample.wire 0 "a" "Result" "n" "A" in
  (In X (connections (Editor.rendered st)) /\ Editor.refsAllocated st /\
   Valid.inputUnique (Editor.rendered st) /\
   NodeSystem.touches "m" X = false) /\
  connections
    (History.present
       (Editor.history (Editor.spliceNode "m" X "A" "Result" st)))
  = [ Sample.wire 1 "a" "Result" "b" "A";
      Sample.wire 2 "a" "Result" "m" "A";
      Sample.wire 3 "m" "Result" "n" "A" ].
Proof.
  intros st X.
  assert (In X (connections (Editor.rendered st))) as HX by (left; reflexivity).
  assert (Editor.refsAllocated st) as Halloc.
  { repeat constructor. }
  assert (Valid.inputUnique (Editor.rendered st)) as Hunique.
  { unfold Valid.inputUnique. cbn.
    apply List.NoDup_cons; [ intros [H | []]; discriminate | ].
    apply List.NoDup_cons; [ intros [] | apply List.NoDup_nil ]. }
  assert (NodeSystem.touches "m" X = false) as Htouch by reflexivity.
  split; [ repeat split; assumption | ].
  exact (proj1 (splice_rewires_when_inputs_unique st "m" X "A" "Result"
                  HX Halloc Hunique Htouch)).
Defined.

(** C5 (the code departs from the claim).  [handleSpliceNode] wires the
    source of the chosen connection into the chosen input of the dropped
    node without looking whether that input is free, which a pointer-up on
    a port refuses to do.  The fan-out graph has no input with two wires.
    Dropping [n] on the wire a -> b splices it in and leaves [n.A] with two
    wires a.Result -> n.A.  Dropping [m] on the first of the two then
    removes that object only: the list still contains a connection
    a.Result -> n.A, the one the splice was to remove. *)
Theorem splice_wires_into_occupied_input :
  let st0 := Sample.mounted Sample.fanOut 2 in
  let st1 := Editor.spliceNode "n" (Sample.wire 1 "a" "Result" "b" "A")
                               "A" "Result" st0 in
  let X := Sample.wire 0 "a" "Result" "n" "A" in
  let st2 := Editor.spliceNode "m" X "A" "Result" st1 in
  Valid.inputUnique (Editor.rendered st0) /\
  NodeSystem.touches "n" (Sample.wire 1 "a" "Result" "b" "A") = false /\
  connections (Editor.rendered st1)
  = [ Sample.wire 0 "a" "Result" "n" "A";
      Sample.wire 2 "a" "Result" "n" "A";
      Sample.wire 3 "n" "Result" "b" "A" ] /\
  ~ Valid.inputUnique (Editor.rendered st1) /\
  In X (connections (Editor.rendered st1)) /\
  NodeSystem.touches "m" X = false /\
  Editor.refsAllocated st1 /\
  exists c, In c (connections (Editor.rendered st2)) /\ Spec.sameFields c X.
Proof.
  cbn zeta. split.
  { unfold Valid.inputUnique. cbn.
    apply List.NoDup_cons; [ intros [H | []]; discriminate | ].
    apply List.NoDup_cons; [ intros [] | apply List.NoDup_nil ]. }
  split; [ reflexivity | ]. split; [ reflexivity | ]. split.
  { unfold Valid.inputUnique. cbn. intros Hnd.
    inversion Hnd as [ | ? ? Hnotin _ ]. apply Hnotin. left. reflexivity. }
  split; [ left; reflexivity | ]. split; [ reflexivity | ]. split.
  { repeat constructor. }
  exists (Sample.wire 2 "a" "Result" "n" "A").
  split; [ left; reflexivity | ]. now repeat split.
Qed.

(** ** Geometry *)

Section GeometryFacts.
Import Geometry.
Local Open Scope R_scope.

Lemma hypot_nonneg (u v : R) : 0 <= hypot u v.
Proof. apply sqrt_pos. Qed.

Lemma hypot_zero : hypot 0 0 = 0.
Proof.
  unfold hypot. replace (0 * 0 + 0 * 0) with 0 by ring. apply sqrt_0.
Qed.

Lemma hypot_le (u v u' v' : R) :
  u * u + v * v <= u' * u' + v' * v' -> hypot u v <= hypot u' v'.
Proof. intros Hle. unfold hypot. now apply sqrt_le_1_alt. Qed.

Lemma distance_self (p : Point) : distance p p = 0.
Proof.
  unfold distance. replace (x p - x p) with 0 by ring.
  replace (y p - y p) with 0 by ring. apply hypot_zero.
Qed.

Lemma degenerate_segment (a b : Point) :
  (x b - x a) ^ 2 + (y b - y a) ^ 2 = 0 -> x b = x a /\ y b = y a.
Proof.
  intros H. rewrite <- !Rsqr_pow2 in H.
  apply Rplus_sqr_eq_0 in H as [Hx Hy]. split; lra.
Qed.

(** On a proper segment the result is the distance to the point at the
    clamped parameter. *)
Lemma distancePointToSegment_projection (p a b : Point) :
  (x b - x a) ^ 2 + (y b - y a) ^ 2 <> 0 ->
  distancePointToSegment p a b
  = distance p (pointAt a b (clampedParameter p a b)).
Proof.
  intros Hne. unfold distancePointToSegment.
  destruct (Req_dec_T _ 0) as [E|_]; [contradiction|]. reflexivity.
Qed.

Lemma distancePointToSegment_degenerate (p a b : Point) :
  (x b - x a) ^ 2 + (y b - y a) ^ 2 = 0 ->
  distancePointToSegment p a b = distance p a.
Proof.
  intros E. unfold distancePointToSegment.
  destruct (Req_dec_T _ 0) as [_|Hne]; [reflexivity|contradiction].
Qed.

Lemma clamp_least (t s : R) :
  0 <= s <= 1 ->
  Rmax 0 (Rmin 1 t) * Rmax 0 (Rmin 1 t) - 2 * Rmax 0 (Rmin 1 t) * t
  <= s * s - 2 * s * t.
Proof.
  intros Hs. unfold Rmax, Rmin.
  destruct (Rle_dec 1 t) as [H1|H1]; destruct (Rle_dec 0 _) as [H0|H0].
  - assert (0 <= (1 - s) * (2 * t - s - 1)) by (apply Rmult_le_pos; lra).
    lra.
  - lra.
  - pose proof (Rle_0_sqr (s - t)) as Hsq. unfold Rsqr in Hsq. lra.
  - assert (0 <= s * (s - 2 * t)) by (apply Rmult_le_pos; lra). lra.
Qed.

(** The clamped projection is the point of the segment nearest to [p]. *)
Lemma distancePointToSegment_least (p a b : Point) (s : R) :
  0 <= s <= 1 ->
  distancePointToSegment p a b <= distance p (pointAt a b s).
Proof.
  intros Hs.
  destruct (Req_dec_T ((x b - x a) ^ 2 + (y b - y a) ^ 2) 0) as [E|Hne].
  - rewrite distancePointToSegment_degenerate by assumption.
    destruct (degenerate_segment a b E) as [Hx Hy].
    unfold distance, pointAt; cbn [x y]. apply hypot_le.
    rewrite Hx, Hy. nra.
  - rewrite distancePointToSegment_projection by assumption.
    unfold distance, pointAt, clampedParameter; cbn [x y].
    apply hypot_le.
    set (dx := x b - x a) in *. set (dy := y b - y a) in *.
    set (wx := x p - x a). set (wy := y p - y a).
    set (l2 := dx ^ 2 + dy ^ 2) in *.
    assert (0 < l2) as Hpos by (subst l2; nra).
    set (t := (wx * dx + wy * dy) / l2).
    assert (t * l2 = wx * dx + wy * dy) as Ht
        by (subst t; field; lra).
    replace (x p - (x a + Rmax 0 (Rmin 1 t) * dx))
      with (wx - Rmax 0 (Rmin 1 t) * dx) by (subst wx; ring).
    replace (y p - (y a + Rmax 0 (Rmin 1 t) * dy))
      with (wy - Rmax 0 (Rmin 1 t) * dy) by (subst wy; ring).
    replace (x p - (x a + s * dx)) with (wx - s * dx) by (subst wx; ring).
    replace (y p - (y a + s * dy)) with (wy - s * dy) by (subst wy; ring).
    assert (forall r, (wx - r * dx) * (wx - r * dx)
                      + (wy - r * dy) * (wy - r * dy)
                      = wx * wx + wy * wy + l2 * (r * r - 2 * r * t)) as Hq.
    { intros r.
      transitivity (wx * wx + wy * wy - 2 * r * (wx * dx + wy * dy)
                    + r * r * l2); [subst l2; ring|rewrite <- Ht; ring]. }
    rewrite !Hq.
    apply Rplus_le_compat_l, Rmult_le_compat_l; [lra|].
    now apply clamp_least.
Qed.
End GeometryFacts.

(** ** Wheel pan and zoom *)

Section Wheel.
Import Geometry Panning.
Local Open Scope R_scope.

Lemma clamp_scale_range (v : R) : scaleInRange (Rmin (Rmax 0.2 v) 2).
Proof.
  unfold scaleInRange. split.
  - apply Rmin_glb; [apply Rmax_l|lra].
  - apply Rmin_r.
Qed.

Lemma handleWheel_scale_range (e : WheelEvent) (st : PanningState) :
  scaleInRange (scale st) -> scaleInRange (scale (handleWheel e st)).
Proof.
  intros Hin. unfold handleWheel.
  destruct (ctrlKey e || metaKey e); cbn [scale];
    [apply clamp_scale_range|exact Hin].
Qed.

Lemma handleWheels_scale_range (es : list WheelEvent) (st : PanningState) :
  scaleInRange (scale st) -> scaleInRange (scale (handleWheels es st)).
Proof.
  revert st. induction es as [|e es IH]; intros st Hin; [exact Hin|].
  unfold handleWheels in *. cbn [fold_left].
  apply IH. now apply handleWheel_scale_range.
Qed.

(** C9.  With ctrl or cmd held, a wheel event sets the scale to
    [scale + (- deltaY * 0.001)] clamped to [0.2, 2] (the bound itself when
    the sum is outside, the sum when it is inside) and moves [offset.x] by
    [- deltaY], leaving [offset.y]; without them it moves [offset.y] by
    [- deltaY] and leaves [offset.x] and the scale.  From a scale within
    [0.2, 2] any sequence of wheel events ends with a scale within
    [0.2, 2]. *)
Theorem wheel_zoom_clamped_and_pan (e : WheelEvent) (st : PanningState) :
  (ctrlKey e || metaKey e = true ->
   let delta := - deltaY e * 0.001 in
   let st' := handleWheel e st in
   scale st' = Rmin (Rmax 0.2 (scale st + delta)) 2 /\
   (scale st + delta < 0.2 -> scale st' = 0.2) /\
   (0.2 <= scale st + delta <= 2 -> scale st' = scale st + delta) /\
   (2 < scale st + delta -> scale st' = 2) /\
   0.2 <= scale st' <= 2 /\
   x (offset st') = x (offset st) - deltaY e /\
   y (offset st') = y (offset st)) /\
  (ctrlKey e || metaKey e = false ->
   let st' := handleWheel e st in
   scale st' = scale st /\
   x (offset st') = x (offset st) /\
   y (offset st') = y (offset st) - deltaY e) /\
  (forall es : list WheelEvent,
      0.2 <= scale st <= 2 ->
      0.2 <= scale (handleWheels es st) <= 2).
Proof.
  split; [|split].
  - intros Hmod delta st'. subst st'. unfold handleWheel. rewrite Hmod.
    cbn [scale offset x y]. fold delta.
    split; [reflexivity|].
    split; [|split; [|split; [|split; [|split; reflexivity]]]].
    + intros Hlow. unfold Rmax, Rmin.
      destruct (Rle_dec 0.2 _); destruct (Rle_dec _ 2); lra.
    + intros Hmid. unfold Rmax, Rmin.
      destruct (Rle_dec 0.2 _); destruct (Rle_dec _ 2); lra.
    + intros Hhigh. unfold Rmax, Rmin.
      destruct (Rle_dec 0.2 _); destruct (Rle_dec _ 2); lra.
    + apply clamp_scale_range.
  - intros Hmod st'. subst st'. unfold handleWheel. rewrite Hmod.
    cbn [scale offset x y]. repeat split.
  - intros es Hin. now apply handleWheels_scale_range.
Qed.
End Wheel.

(** C9, witness: a ctrl-wheel of 5000 from scale 1 hits the lower bound,
    a plain wheel of 120 pans, and a sequence of both stays in range. *)
Lemma wheel_zoom_clamped_and_pan_witness :
  let zoom := {| Panning.deltaY := 5000; Panning.ctrlKey := true;
                 Panning.metaKey := false |}%R in
  let pan := {| Panning.deltaY := 120; Panning.ctrlKey := false;
                Panning.metaKey := false |}%R in
  (Panning.scale (Panning.handleWheel zoom Panning.initial) = 0.2)%R /\
  (Geometry.y (Panning.offset (Panning.handleWheel pan Panning.initial))
   = 0 - 120)%R /\
  (0.2 <= Panning.scale
            (Panning.handleWheels [zoom; pan; zoom] Panning.initial) <= 2)%R.
Proof.
  intros zoom pan. split; [|split].
  - refine (proj1 (proj2 (proj1 (wheel_zoom_clamped_and_pan
                                   zoom Panning.initial) eq_refl)) _).
    cbn. lra.
  - exact (proj2 (proj2 (proj1 (proj2 (wheel_zoom_clamped_and_pan
                                         pan Panning.initial)) eq_refl))).
  - refine (proj2 (proj2 (wheel_zoom_clamped_and_pan zoom Panning.initial))
                  [zoom; pan; zoom] _).
    cbn. lra.
Defined.

(** ** Connection validation *)

Section Validation.
Import ConnectionDrag.
Variable ns : list NodeData.
Variable edges : list Connection.
Variable nodeTypes : gmap string NodeTypeDef.

Lemma falsy_given (s : option string) :
  falsy s = match Spec.given s with Some _ => false | None => true end.
Proof.
  destruct s as [s|]; [|reflexivity]. cbn.
  now destruct (String.eqb s "").
Qed.

Lemma given_Some (s : option string) (v : string) :
  Spec.given s = Some v -> s = Some v /\ orEmpty s = v.
Proof.
  destruct s as [s|]; [|discriminate]. cbn.
  destruct (String.eqb s ""); [discriminate|].
  intros [= ->]. now split.
Qed.

(** The validation chain of [handlePortPointerUp] on resolved
    identifiers is the first failing check of the specification. *)
Lemma handlePortPointerUp_refines
      (fresh : nat) (g : Gesture) (nc : NewConnection)
      (dropNode : string) (dropPort : PortDef) (direction : PortDirection) :
  newConnection g = Some nc ->
  handlePortPointerUp ns edges nodeTypes fresh g dropNode dropPort direction
  = match Spec.resolveCandidate nc dropNode dropPort direction with
    | None => (clearGesture g, None)
    | Some cand =>
        match Spec.verdict ns edges nodeTypes cand with
        | Some r =>
            (clearGesture (setWarningMessage g (Some (Spec.message r))), None)
        | None => (clearGesture g, Some (Spec.committed fresh cand))
        end
    end.
Proof.
  intros Hnc. unfold handlePortPointerUp. rewrite Hnc.
  unfold Spec.resolveCandidate.
  destruct direction; rewrite !falsy_given;
    [ destruct (Spec.given (option_map nodeId (nc_from nc))) as [f|] eqn:Ef;
        [|reflexivity];
      destruct (Spec.given (option_map port (nc_from nc))) as [fp|] eqn:Efp;
        [|reflexivity];
      destruct (Spec.given (Some dropNode)) as [t|] eqn:Et; [|reflexivity];
      destruct (Spec.given (Some (pd_name dropPort))) as [tp|] eqn:Etp;
        [|reflexivity]
    | destruct (Spec.given (option_map nodeId (nc_to nc))) as [t|] eqn:Et;
        [|now rewrite !orb_true_r];
      destruct (Spec.given (option_map port (nc_to nc))) as [tp|] eqn:Etp;
        [|now rewrite !orb_true_r];
      destruct (Spec.given (Some dropNode)) as [f|] eqn:Ef; [|reflexivity];
      destruct (Spec.given (Some (pd_name dropPort))) as [fp|] eqn:Efp;
        [|reflexivity] ];
    cbn [orb];
    apply given_Some in Ef as [_ ->], Efp as [_ ->], Et as [_ ->],
          Etp as [_ ->];
    unfold Spec.verdict, Spec.checks, Spec.firstFailure,
      Spec.checkSelfLoop, Spec.checkNodeTypes, Spec.checkPorts,
      Spec.checkTypes, Spec.checkDuplicate, Spec.checkInputFree,
      Spec.outputPort, Spec.inputPort, Spec.typeOfNode, Spec.declared,
      isDuplicate, inputAlreadyConnected;
    cbn [Spec.fromNodeId Spec.fromPort Spec.toNodeId Spec.toPort];
    (destruct (String.eqb f t); [reflexivity|]);
    repeat match goal with
           | |- context [find ?k ns] => destruct (find k ns) as [?|]
           | |- context [nodeTypes !! ?k] => destruct (nodeTypes !! k) as [?|]
           | |- context [find ?k (?proj ?nt)] =>
               destruct (find k (proj nt)) as [?|]
           | |- context [String.eqb (pd_type ?a) (pd_type ?b)] =>
               destruct (String.eqb (pd_type a) (pd_type b))
           | |- context [existsb ?k edges] => destruct (existsb k edges)
           end;
    reflexivity.
Qed.
End Validation.

Section Verdict.
Variable ns : list NodeData.
Variable edges : list Connection.
Variable nodeTypes : gmap string NodeTypeDef.

Lemma duplicate_test (c : Spec.Candidate) :
  existsb (fun e => String.eqb (nodeId (from e)) (Spec.fromNodeId c) &&
                    String.eqb (port (from e)) (Spec.fromPort c) &&
                    String.eqb (nodeId (to e)) (Spec.toNodeId c) &&
                    String.eqb (port (to e)) (Spec.toPort c)) edges = true
  <-> Spec.exactDuplicate edges c.
Proof.
  rewrite existsb_exists. unfold Spec.exactDuplicate.
  split; intros [e [Hin H]]; exists e; (split; [exact Hin|]).
  - rewrite !andb_true_iff, !String.eqb_eq in H. tauto.
  - rewrite !andb_true_iff, !String.eqb_eq. tauto.
Qed.

Lemma input_test (c : Spec.Candidate) :
  existsb (fun e => String.eqb (nodeId (to e)) (Spec.toNodeId c) &&
                    String.eqb (port (to e)) (Spec.toPort c)) edges = true
  <-> Spec.inputTaken edges c.
Proof.
  rewrite existsb_exists. unfold Spec.inputTaken.
  split; intros [e [Hin H]]; exists e; (split; [exact Hin|]).
  - rewrite !andb_true_iff, !String.eqb_eq in H. tauto.
  - rewrite !andb_true_iff, !String.eqb_eq. tauto.
Qed.

(** No check fails exactly when the candidate passes the gate P1. *)
Lemma verdict_None_iff_admissible (c : Spec.Candidate) :
  Spec.verdict ns edges nodeTypes c = None
  <-> Spec.admissible ns edges nodeTypes c.
Proof.
  unfold Spec.verdict, Spec.checks, Spec.firstFailure, Spec.admissible,
    Spec.typesMatch, Spec.checkSelfLoop, Spec.checkNodeTypes,
    Spec.checkPorts, Spec.checkTypes, Spec.checkDuplicate,
    Spec.checkInputFree, Spec.outputPort, Spec.inputPort.
  rewrite <- duplicate_test, <- input_test.
  destruct (String.eqb (Spec.fromNodeId c) (Spec.toNodeId c)) eqn:Eself.
  { apply String.eqb_eq in Eself. split; [discriminate|tauto]. }
  apply String.eqb_neq in Eself.
  destruct (Spec.typeOfNode ns nodeTypes (Spec.fromNodeId c)) as [ntf|].
  2:{ split; [discriminate|]. intros [[p [q [Hp _]]] _]. discriminate. }
  destruct (Spec.typeOfNode ns nodeTypes (Spec.toNodeId c)) as [ntt|].
  2:{ split; [discriminate|]. intros [[p [q [_ [Hq _]]]] _]. discriminate. }
  destruct (Spec.declared (nt_outputs ntf) (Spec.fromPort c)) as [p|].
  2:{ split; [discriminate|]. intros [[p [q [Hp _]]] _]. discriminate. }
  destruct (Spec.declared (nt_inputs ntt) (Spec.toPort c)) as [q|].
  2:{ split; [discriminate|]. intros [[p' [q [_ [Hq _]]]] _]. discriminate. }
  destruct (String.eqb (pd_type p) (pd_type q)) eqn:Etype.
  2:{ apply String.eqb_neq in Etype. split; [discriminate|].
      intros [[p' [q' [[= <-] [[= <-] Heq]]]] _]. contradiction. }
  apply String.eqb_eq in Etype.
  match goal with
  | |- context [if existsb ?k edges then Some Spec.DuplicateConnection
                else None] => destruct (existsb k edges)
  end.
  { split; [discriminate|]. intros [_ [_ [Hdup _]]]. now elim Hdup. }
  match goal with
  | |- context [if existsb ?k edges then Some (Spec.InputConnected _)
                else None] => destruct (existsb k edges)
  end.
  { split; [discriminate|]. intros [_ [_ [_ Hin]]]. now elim Hin. }
  split; [intros _|reflexivity].
  split; [exists p, q; auto|]. split; [exact Eself|].
  split; discriminate.
Qed.
End Verdict.

Section PortPointerUp.
Import ConnectionDrag Editor.
Variable nodeTypes : gmap string NodeTypeDef.

(** A port pointer-up, case by case. *)
Lemma portPointerUp_cases
      (st : State) (nc : NewConnection)
      (dropNode : string) (dropPort : PortDef) (direction : PortDirection) :
  newConnection (gesture st) = Some nc ->
  portPointerUp nodeTypes st dropNode dropPort direction
  = match Spec.resolveCandidate nc dropNode dropPort direction with
    | None =>
        {| history := history st; isDraggingRef := isDraggingRef st;
           gesture := clearGesture (gesture st); nextRef := nextRef st |}
    | Some cand =>
        match Spec.verdict (nodes (rendered st)) (connections (rendered st))
                           nodeTypes cand with
        | Some r =>
            {| history := history st; isDraggingRef := isDraggingRef st;
               gesture := clearGesture
                            (setWarningMessage (gesture st)
                                              (Some (Spec.message r)));
               nextRef := nextRef st |}
        | None =>
            {| history :=
                 NodeSystem.set
                   (history st)
                   {| nodes := nodes (rendered st);
                      connections :=
                        connections (rendered st)
                        ++ [Spec.committed (nextRef st) cand] |}
                   false;
               isDraggingRef := isDraggingRef st;
               gesture := clearGesture (gesture st);
               nextRef := S (nextRef st) |}
        end
    end.
Proof.
  intros Hnc. unfold portPointerUp.
  rewrite (handlePortPointerUp_refines _ _ _ _ _ nc) by assumption.
  destruct (Spec.resolveCandidate nc dropNode dropPort direction) as [cand|];
    [|reflexivity].
  destruct (Spec.verdict _ _ _ cand); reflexivity.
Qed.
End PortPointerUp.

Section GestureCells.
Import ConnectionDrag.

Lemma coherent_idle : coherent Sample.idle.
Proof. intros _. reflexivity. Qed.

Lemma coherent_clearGesture (g : Gesture) : coherent (clearGesture g).
Proof. intros _. reflexivity. Qed.

Lemma coherent_handlePointerUp (g : Gesture) : coherent (handlePointerUp g).
Proof. apply coherent_clearGesture. Qed.

Lemma coherent_handlePortPointerDown
      (edges : list Connection) (v : View) (g : Gesture)
      (nodeId_ : string) (port_ : PortDef) (direction : PortDirection)
      (clientX clientY : R) :
  coherent g ->
  coherent (fst (handlePortPointerDown edges v g nodeId_ port_ direction
                                       clientX clientY)).
Proof.
  intros Hg. unfold handlePortPointerDown.
  destruct (portPositions v !! _) as [pos|]; [|exact Hg].
  destruct (platformRect v) as [rect|]; [|exact Hg].
  destruct (match direction with input => _ | output => _ end);
    [exact Hg|].
  intros Hnone. discriminate.
Qed.

Lemma coherent_handlePointerMove
      (v : View) (clientX clientY : R) (g : Gesture) :
  coherent g -> coherent (handlePointerMove v clientX clientY g).
Proof.
  intros Hg. unfold handlePointerMove.
  destruct (connectionPreview g) as [prev|] eqn:Eprev; [|exact Hg].
  destruct (newConnection g) as [nc|] eqn:Enc; [|exact Hg].
  destruct (platformRect v); [|exact Hg].
  intros Hnone. cbn in Hnone. congruence.
Qed.

Lemma coherent_handlePortPointerUp
      (ns : list NodeData) (edges : list Connection)
      (nodeTypes : gmap string NodeTypeDef) (fresh : nat) (g : Gesture)
      (nodeId_ : string) (port_ : PortDef) (direction : PortDirection) :
  coherent g ->
  coherent (fst (handlePortPointerUp ns edges nodeTypes fresh g
                                     nodeId_ port_ direction)).
Proof.
  intros Hg. destruct (newConnection g) as [nc|] eqn:Enc.
  - rewrite (handlePortPointerUp_refines _ _ _ _ _ nc) by assumption.
    destruct (Spec.resolveCandidate _ _ _ _);
      [destruct (Spec.verdict _ _ _ _)|]; apply coherent_clearGesture.
  - unfold handlePortPointerUp. rewrite Enc. exact Hg.
Qed.
End GestureCells.

Section ConnectionGate.
Import ConnectionDrag Editor.
Variable nodeTypes : gmap string NodeTypeDef.

Lemma append_one_differs {A : Type} (l : list A) (a : A) : l <> l ++ [a].
Proof.
  intros Heq. apply (f_equal (@length A)) in Heq.
  rewrite length_app in Heq. cbn in Heq. lia.
Qed.

(** C1.  For a pointer-up on a port during a drag, with both ends
    resolved to a candidate: the connection list of the new snapshot is the
    old one followed by the candidate's connection (node ids and port names
    only) exactly when the candidate is admissible, that is, both ports
    resolve and carry the same type, the two node ids differ, no existing
    connection has the same four fields, and no existing connection ends at
    the destination port.  In that case [onCompleteConnection] receives that
    connection and the snapshot is committed as a new history step;
    otherwise the history is untouched. *)
Theorem connection_committed_iff_admissible
        (st : State) (nc : NewConnection)
        (dropNode : string) (dropPort : PortDef) (direction : PortDirection)
        (cand : Spec.Candidate) :
  newConnection (gesture st) = Some nc ->
  Spec.resolveCandidate nc dropNode dropPort direction = Some cand ->
  let before := rendered st in
  let st' := portPointerUp nodeTypes st dropNode dropPort direction in
  let connection := Spec.committed (nextRef st) cand in
  let admissible :=
    Spec.admissible (nodes before) (connections before) nodeTypes cand in
  (connections (History.present (history st'))
   = connections before ++ [connection] <-> admissible) /\
  (completion nodeTypes st dropNode dropPort direction = Some connection
   <-> admissible) /\
  (admissible ->
   history st'
   = NodeSystem.set (history st)
       {| nodes := nodes before;
          connections := connections before ++ [connection] |} false) /\
  (~ admissible ->
   history st' = history st /\
   completion nodeTypes st dropNode dropPort direction = None).
Proof.
  intros Hnc Hres before st' connection admissible.
  subst st' admissible. unfold completion.
  rewrite (portPointerUp_cases nodeTypes st nc) by assumption.
  rewrite (handlePortPointerUp_refines _ _ _ _ _ nc) by assumption.
  rewrite Hres. fold before.
  pose proof (verdict_None_iff_admissible
                (nodes before) (connections before) nodeTypes cand) as Hiff.
  destruct (Spec.verdict (nodes before) (connections before) nodeTypes cand)
    as [r|]; cbn [history snd].
  - assert (~ Spec.admissible (nodes before) (connections before)
              nodeTypes cand) as Hno.
    { intros Hadm. apply Hiff in Hadm. discriminate. }
    split; [|split; [|split]].
    + split; [|tauto]. intros Heq.
      now apply append_one_differs in Heq.
    + split; [discriminate|tauto].
    + tauto.
    + intros _. split; reflexivity.
  - assert (Spec.admissible (nodes before) (connections before)
              nodeTypes cand) as Hadm by now apply Hiff.
    split; [|split; [|split]].
    + split; [intros _; exact Hadm|reflexivity].
    + split; [intros _; exact Hadm|reflexivity].
    + reflexivity.
    + tauto.
Qed.

(** C2.  A pointer-up on a port with no drag in progress changes nothing;
    during a drag it always clears [newConnection] and the preview; so
    from every state in which a preview exists only during a drag, which
    is every state the hook can be in, both are clear afterwards, whatever
    the outcome.  During a drag: if an identifier is missing nothing else
    happens, no warning is set and the history is untouched.  Otherwise the
    checks run in the order self-loop, node types, ports, port types,
    duplicate, input already connected; if one fails, the warning becomes
    the message of the first that fails, and the history, hence the
    connection list, is untouched; if none fails the warning is left as it
    was. *)
Theorem rejected_pointer_up_warns_and_clears
        (st : State)
        (dropNode : string) (dropPort : PortDef) (direction : PortDirection) :
  let before := rendered st in
  let st' := portPointerUp nodeTypes st dropNode dropPort direction in
  (newConnection (gesture st) = None -> st' = st) /\
  (coherent (gesture st) ->
   newConnection (gesture st') = None /\
   connectionPreview (gesture st') = None) /\
  (forall nc : NewConnection,
      newConnection (gesture st) = Some nc ->
      newConnection (gesture st') = None /\
      connectionPreview (gesture st') = None /\
      match Spec.resolveCandidate nc dropNode dropPort direction with
      | None =>
          warningMessage (gesture st') = warningMessage (gesture st) /\
          history st' = history st
      | Some cand =>
          match Spec.firstFailure
                  [ Spec.checkSelfLoop;
                    Spec.checkNodeTypes (nodes before) nodeTypes;
                    Spec.checkPorts (nodes before) nodeTypes;
                    Spec.checkTypes (nodes before) nodeTypes;
                    Spec.checkDuplicate (connections before);
                    Spec.checkInputFree (connections before) ]
                  cand with
          | Some r =>
              warningMessage (gesture st') = Some (Spec.message r) /\
              history st' = history st /\
              connections (History.present (history st'))
              = connections before
          | None =>
              warningMessage (gesture st') = warningMessage (gesture st)
          end
      end) /\
  Spec.message (Spec.TypeMismatch "number" "boolean")
  = "Cannot connect ports of different types: number and boolean"%string.
Proof.
  intros before st'.
  assert (newConnection (gesture st) = None -> st' = st) as Hidle.
  { intros Hnone. subst st'. unfold portPointerUp, handlePortPointerUp.
    rewrite Hnone. now destruct st. }
  assert (forall nc, newConnection (gesture st) = Some nc ->
                     newConnection (gesture st') = None /\
                     connectionPreview (gesture st') = None) as Hclear.
  { intros nc Hnc. subst st'.
    rewrite (portPointerUp_cases nodeTypes st nc) by assumption.
    destruct (Spec.resolveCandidate nc dropNode dropPort direction)
      as [cand|]; [|now split].
    destruct (Spec.verdict _ _ _ cand); now split. }
  split; [exact Hidle|]. split; [|split; [|reflexivity]].
  - intros Hcoh. destruct (newConnection (gesture st)) as [nc|] eqn:Enc.
    + now apply (Hclear nc).
    + rewrite (Hidle eq_refl). split; [exact Enc|now apply Hcoh].
  - intros nc Hnc. destruct (Hclear nc Hnc) as [Hc1 Hc2].
    split; [exact Hc1|]. split; [exact Hc2|]. subst st'.
    rewrite (portPointerUp_cases nodeTypes st nc) by assumption.
    destruct (Spec.resolveCandidate nc dropNode dropPort direction)
      as [cand|]; [|now split].
    change (Spec.firstFailure _ cand)
      with (Spec.verdict (nodes (rendered st)) (connections (rendered st))
                         nodeTypes cand).
    destruct (Spec.verdict _ _ _ cand); now repeat split.
Qed.
End ConnectionGate.

(** C1, witness (scenario A): a wire dragged from [add.Result] and
    released on [sub.A], both of type number, is committed. *)
Lemma connection_committed_iff_admissible_witness :
  let st := Sample.draggingResult in
  let nc := {| ConnectionDrag.nc_from :=
                 Some {| nodeId := "add"; port := "Result";
                         portDef := Some {| pd_name := "Result";
                                            pd_type := "number" |} |};
               ConnectionDrag.nc_to := None |} in
  let dropPort := {| pd_name := "A"; pd_type := "number" |} in
  let cand := {| Spec.fromNodeId := "add"; Spec.fromPort := "Result";
                 Spec.toNodeId := "sub"; Spec.toPort := "A" |} in
  (ConnectionDrag.newConnection (Editor.gesture st) = Some nc /\
   Spec.resolveCandidate nc "sub" dropPort input = Some cand) /\
  connections
    (History.present
       (Editor.history
          (Editor.portPointerUp Sample.nodeTypes st "sub" dropPort input)))
  = [ Sample.wire 0 "add" "Result" "sub" "A" ] /\
  Spec.admissible (nodes Sample.unwired) (connections Sample.unwired)
                  Sample.nodeTypes cand.
Proof.
  intros st nc dropPort cand.
  assert (ConnectionDrag.newConnection (Editor.gesture st) = Some nc)
    as Hnc by reflexivity.
  assert (Spec.resolveCandidate nc "sub" dropPort input = Some cand)
    as Hres by reflexivity.
  split; [split; assumption|].
  assert (connections
            (History.present
               (Editor.history
                  (Editor.portPointerUp Sample.nodeTypes st "sub"
                                        dropPort input)))
          = [ Sample.wire 0 "add" "Result" "sub" "A" ]) as Hrun
      by reflexivity.
  split; [exact Hrun|].
  exact (proj1 (proj1 (connection_committed_iff_admissible
                         Sample.nodeTypes st nc "sub" dropPort input cand
                         Hnc Hres)) Hrun).
Defined.

(** C2, witness (scenario B): the same wire released on [not.Value], of
    type boolean, is refused with the type-mismatch warning; and a
    pointer-up on a port of an idle editor leaves the gesture clear. *)
Lemma rejected_pointer_up_warns_and_clears_witness :
  let st := Sample.draggingResult in
  let nc := {| ConnectionDrag.nc_from :=
                 Some {| nodeId := "add"; port := "Result";
                         portDef := Some {| pd_name := "Result";
                                            pd_type := "number" |} |};
               ConnectionDrag.nc_to := None |} in
  let dropPort := {| pd_name := "Value"; pd_type := "boolean" |} in
  let st' := Editor.portPointerUp Sample.nodeTypes st "not" dropPort input in
  let idle := Sample.mounted Sample.unwired 0 in
  let idle' :=
    Editor.portPointerUp Sample.nodeTypes idle "not" dropPort input in
  (ConnectionDrag.newConnection (Editor.gesture st) = Some nc /\
   ConnectionDrag.newConnection (Editor.gesture st') = None /\
   ConnectionDrag.connectionPreview (Editor.gesture st') = None /\
   ConnectionDrag.warningMessage (Editor.gesture st')
   = Some "Cannot connect ports of different types: number and boolean"%string
   /\ Editor.history st' = Editor.history st) /\
  (ConnectionDrag.newConnection (Editor.gesture idle) = None /\
   idle' = idle) /\
  (ConnectionDrag.coherent (Editor.gesture idle) /\
   ConnectionDrag.connectionPreview (Editor.gesture idle') = None).
Proof.
  intros st nc dropPort st' idle idle'.
  assert (ConnectionDrag.newConnection (Editor.gesture st) = Some nc)
    as Hnc by reflexivity.
  destruct (proj1 (proj2 (proj2 (rejected_pointer_up_warns_and_clears
                                   Sample.nodeTypes st "not" dropPort input)))
                  nc Hnc) as [Hcleared [Hpreview Hverdict]].
  split; [|split].
  - split; [exact Hnc|]. split; [exact Hcleared|]. split; [exact Hpreview|].
    split; [exact (proj1 Hverdict)|exact (proj1 (proj2 Hverdict))].
  - split; [reflexivity|].
    exact (proj1 (rejected_pointer_up_warns_and_clears
                    Sample.nodeTypes idle "not" dropPort input) eq_refl).
  - split; [exact coherent_idle|].
    exact (proj2 (proj1 (proj2 (rejected_pointer_up_warns_and_clears
                                  Sample.nodeTypes idle "not" dropPort input))
                        coherent_idle)).
Defined.

(** * Further properties *)

(** ** HistoryStore: redo, bounds and single-step undo *)

(** X1.  Redo followed by undo gives back the whole store whenever there
    is something to redo. *)
Theorem undo_after_redo (T : Type) (h : History.HistoryState T) :
  History.future h <> [] -> History.undo (History.redo h) = h.
Proof.
  destruct h as [pa p f]. cbn [History.future]. intros Hne.
  destruct f as [|n f]; [contradiction|].
  now rewrite redo_cons, undo_snoc.
Qed.

(** X1, witness. *)
Lemma undo_after_redo_witness :
  let h := {| History.past := [1]; History.present := 2;
              History.future := [3; 4] |} in
  History.future h <> [] /\ History.undo (History.redo h) = h.
Proof.
  intros h.
  assert (History.future h <> []) as Hne by discriminate.
  split; [exact Hne|exact (undo_after_redo nat h Hne)].
Defined.

Section TimelineFacts.
Context {T : Type}.
Implicit Types (h : History.HistoryState T) (op : Timeline.Op T).

Lemma undo_stored h : Timeline.stored (History.undo h) = Timeline.stored h.
Proof.
  destruct h as [pa p f].
  destruct (list_eq_nil_dec pa) as [->|Hne]; [reflexivity|].
  destruct (exists_last Hne) as [l [x ->]]. rewrite undo_snoc.
  unfold Timeline.stored. cbn [History.past History.future length].
  rewrite length_app. cbn [length]. lia.
Qed.

Lemma redo_stored h : Timeline.stored (History.redo h) = Timeline.stored h.
Proof.
  destruct h as [pa p [|n f]]; [reflexivity|]. rewrite redo_cons.
  unfold Timeline.stored. cbn [History.past History.future length].
  rewrite length_app. cbn [length]. lia.
Qed.

Lemma step_stored_bounded (m : nat) h op :
  Timeline.stored h <= m -> Timeline.stored (Timeline.step m h op) <= m.
Proof.
  intros Hle. destruct op as [s [|]| |]; cbn [Timeline.step].
  - exact Hle.
  - unfold Timeline.stored. rewrite set_commit_future. cbn [length].
    rewrite Nat.add_0_r. apply set_past_bounded.
    unfold Timeline.stored in Hle. lia.
  - now rewrite undo_stored.
  - now rewrite redo_stored.
Qed.
End TimelineFacts.

(** X2.  Whatever sequence of [set], [undo] and [redo] calls is made, the
    store never holds more than [maxHistory] snapshots besides the present,
    counting [past] and [future] together: a store that respects the bound
    keeps respecting it, and a fresh store does.  In particular neither
    list ever exceeds the bound, so redo cannot push [past] beyond it. *)
Theorem history_never_exceeds_bound
        (T : Type) (m : nat) (ops : list (Timeline.Op T)) :
  (forall h : History.HistoryState T,
      Timeline.stored h <= m ->
      Timeline.stored (Timeline.run m h ops) <= m) /\
  (forall p : T,
      let h := Timeline.run m (History.init p) ops in
      length (History.past h) <= m /\ length (History.future h) <= m).
Proof.
  assert (forall h : History.HistoryState T,
             Timeline.stored h <= m ->
             Timeline.stored (Timeline.run m h ops) <= m) as Hinv.
  { induction ops as [|op ops IH]; intros h Hle; [exact Hle|].
    unfold Timeline.run in *. cbn [fold_left].
    apply IH. now apply step_stored_bounded. }
  split; [exact Hinv|].
  intros p h.
  assert (Timeline.stored h <= m) as Hle.
  { apply Hinv. unfold Timeline.stored. cbn. lia. }
  unfold Timeline.stored in Hle. lia.
Qed.

(** X2, witness: three commits, two undos and a redo under a bound of 2. *)
Lemma history_never_exceeds_bound_witness :
  let h := {| History.past := [1]; History.present := 2;
              History.future := [3] |} in
  let ops := [ Timeline.OpSet 4 false; Timeline.OpSet 5 false;
               Timeline.OpSet 6 false; Timeline.OpUndo; Timeline.OpUndo;
               Timeline.OpRedo ] in
  Timeline.stored h <= 2 /\ Timeline.stored (Timeline.run 2 h ops) <= 2.
Proof.
  intros h ops.
  assert (Timeline.stored h <= 2) as Hle by (cbn; lia).
  split; [exact Hle|].
  exact (proj1 (history_never_exceeds_bound nat 2 ops) h Hle).
Defined.

(** X3.  With a bound of at least one, a non-replace [set] is undone by
    one [undo]: the present is the one from before the [set], the committed
    value is the single entry of [future], and [past] is what it was, or
    what it was minus its oldest entry if it was full.  One [redo] then
    gives the store as it was right after the [set]. *)
Theorem commit_then_undo (T : Type) (m : nat)
        (h : History.HistoryState T) (s : T) :
  1 <= m ->
  length (History.past h) <= m ->
  let committed := History.set m h s false in
  History.undo committed
  = {| History.past := if length (History.past h) <? m
                       then History.past h
                       else skipn 1 (History.past h);
       History.present := History.present h;
       History.future := [s] |} /\
  History.redo (History.undo committed) = committed.
Proof.
  intros Hm Hlen committed.
  assert (History.past committed
          = (if length (History.past h) <? m
             then History.past h else skipn 1 (History.past h))
            ++ [History.present h]) as Hpast.
  { subst committed. rewrite set_commit_past. unfold History.trail.
    rewrite length_app. cbn [length].
    destruct (length (History.past h) <? m) eqn:E.
    - apply Nat.ltb_lt in E.
      assert ((m <? length (History.past h) + 1) = false) as ->
          by (apply Nat.ltb_ge; lia).
      reflexivity.
    - apply Nat.ltb_ge in E.
      assert ((m <? length (History.past h) + 1) = true) as ->
          by (apply Nat.ltb_lt; lia).
      destruct (History.past h) as [|x l]; [cbn in E; lia|reflexivity]. }
  assert (History.undo committed
          = {| History.past := if length (History.past h) <? m
                               then History.past h
                               else skipn 1 (History.past h);
               History.present := History.present h;
               History.future := [s] |}) as Hundo.
  { replace committed
      with {| History.past := History.past committed;
              History.present := s; History.future := [] |}
      by (subst committed; reflexivity).
    rewrite Hpast. apply undo_snoc. }
  split; [exact Hundo|].
  rewrite Hundo, redo_cons, <- Hpast. subst committed. reflexivity.
Qed.

(** X3, witness: a commit on a full store of bound 2. *)
Lemma commit_then_undo_witness :
  let h := {| History.past := [1; 2]; History.present := 3;
              History.future := [9] |} in
  (1 <= 2 /\ length (History.past h) <= 2) /\
  History.undo (History.set 2 h 4 false)
  = {| History.past := [2]; History.present := 3; History.future := [4] |}.
Proof.
  intros h.
  assert (1 <= 2) as Hm by lia.
  assert (length (History.past h) <= 2) as Hlen by (cbn; lia).
  split; [split; assumption|].
  exact (proj1 (commit_then_undo nat 2 h 4 Hm Hlen)).
Defined.

(** ** Geometry: the distance and the projection agree *)

Section ProjectionFacts.
Import Geometry.
Local Open Scope R_scope.

(** X4.  [distancePointToSegment p a b] is [distance] from [p] to
    [projectPointToSegment p a b]: the two functions take the same branch
    and project with the same clamped parameter, and on a segment of
    length zero the projection is [a]. *)
Theorem distancePointToSegment_is_distance_to_projection (p a b : Point) :
  distancePointToSegment p a b = distance p (projectPointToSegment p a b) /\
  ((x b - x a) ^ 2 + (y b - y a) ^ 2 = 0 ->
   projectPointToSegment p a b = {| x := x a; y := y a |} /\
   distancePointToSegment p a b = distance p a).
Proof.
  unfold distancePointToSegment, projectPointToSegment, distance.
  destruct (Req_dec_T ((x b - x a) ^ 2 + (y b - y a) ^ 2) 0) as [E | Hne].
  - split; [ reflexivity | ]. intros _. split; reflexivity.
  - split; [ reflexivity | ]. intros E. contradiction.
Qed.
End ProjectionFacts.

(** X4, witness: the segment from (1,2) to itself, seen from (4,6). *)
Lemma distancePointToSegment_is_distance_to_projection_witness :
  let c := {| Geometry.x := 1; Geometry.y := 2 |}%R in
  let q := {| Geometry.x := 4; Geometry.y := 6 |}%R in
  ((Geometry.x c - Geometry.x c) ^ 2 + (Geometry.y c - Geometry.y c) ^ 2
   = 0)%R /\
  Geometry.distancePointToSegment q c c = Geometry.distance q c.
Proof.
  intros c q.
  assert (E : ((Geometry.x c - Geometry.x c) ^ 2
               + (Geometry.y c - Geometry.y c) ^ 2 = 0)%R)
    by (cbn; lra).
  split; [ exact E | ].
  exact (proj2 (proj2
    (distancePointToSegment_is_distance_to_projection q c c) E)).
Defined.

(** ** Pan gestures *)

Section PanFacts.
Import Geometry Panning.
Local Open Scope R_scope.

Lemma pan_moves_scale (g : Pan.Gesture) (evs : list Pan.PointerEvent)
      (st : PanningState) :
  scale (Pan.moves g evs st) = scale st.
Proof.
  revert st. induction evs as [|ev evs IH]; intros st; [reflexivity|].
  unfold Pan.moves in *. cbn [fold_left]. now rewrite IH.
Qed.

(** X10.  A pan starts only on the middle button.  Once started, after any
    sequence of pointer moves the offset is the offset at pointer-down plus
    the displacement of the last move from the pointer-down position,
    whatever happened in between; the scale is not touched. *)
Theorem pan_follows_pointer
        (e : Pan.PointerEvent) (st : PanningState) :
  (Pan.button e <> 1%nat -> Pan.handleMiddleMousePan e st = None) /\
  (Pan.button e = 1%nat ->
   exists g,
     Pan.handleMiddleMousePan e st = Some g /\
     forall (evs : list Pan.PointerEvent) (ev : Pan.PointerEvent)
            (current : PanningState),
       let after := Pan.moves g (evs ++ [ev]) current in
       x (offset after)
       = x (offset st) + (Pan.clientX ev - Pan.clientX e) /\
       y (offset after)
       = y (offset st) + (Pan.clientY ev - Pan.clientY e) /\
       scale after = scale current).
Proof.
  unfold Pan.handleMiddleMousePan. split.
  - intros Hne. apply Nat.eqb_neq in Hne. now rewrite Hne.
  - intros Heq. rewrite Heq. cbn [Nat.eqb negb].
    eexists. split; [reflexivity|].
    intros evs ev current.
    split; [|split; [|apply pan_moves_scale]];
      unfold Pan.moves; rewrite fold_left_app; reflexivity.
Qed.
End PanFacts.

(** X10, witness: a middle-button press at (10,10), moved to (25,4). *)
Lemma pan_follows_pointer_witness :
  let down := {| Pan.button := 1; Pan.clientX := 10; Pan.clientY := 10 |}%R in
  let left := {| Pan.button := 0; Pan.clientX := 10; Pan.clientY := 10 |}%R in
  (Pan.button left <> 1 /\
   Pan.handleMiddleMousePan left Panning.initial = None) /\
  (Pan.button down = 1 /\
   exists g, Pan.handleMiddleMousePan down Panning.initial = Some g).
Proof.
  intros down left.
  assert (Pan.button left <> 1) as Hleft by discriminate.
  split.
  - split; [exact Hleft|].
    exact (proj1 (pan_follows_pointer left Panning.initial) Hleft).
  - split; [reflexivity|].
    destruct (proj2 (pan_follows_pointer down Panning.initial) eq_refl)
      as [g [Hg _]].
    exists g. exact Hg.
Defined.

(** ** Connections: what a pointer-up commits *)

Section CommitKeepsValid.
Import ConnectionDrag Editor.
Variable nodeTypes : gmap string NodeTypeDef.

Lemma typeOfNode_hasNode (ns : list NodeData) (id : string)
      (nt : NodeTypeDef) :
  Spec.typeOfNode ns nodeTypes id = Some nt -> Spec.hasNode ns id.
Proof.
  unfold Spec.typeOfNode.
  destruct (find _ ns) as [n|] eqn:Efind; [|discriminate].
  intros _. apply find_some in Efind as [Hin Heq].
  apply String.eqb_eq in Heq. now exists n.
Qed.

Lemma typesMatch_hasNodes (ns : list NodeData) (c : Spec.Candidate) :
  Spec.typesMatch ns nodeTypes c ->
  Spec.hasNode ns (Spec.fromNodeId c) /\ Spec.hasNode ns (Spec.toNodeId c).
Proof.
  intros [p [q [Hp [Hq _]]]].
  unfold Spec.outputPort in Hp. unfold Spec.inputPort in Hq.
  destruct (Spec.typeOfNode ns nodeTypes (Spec.fromNodeId c)) eqn:Ef;
    [|discriminate].
  destruct (Spec.typeOfNode ns nodeTypes (Spec.toNodeId c)) eqn:Et;
    [|discriminate].
  split; eapply typeOfNode_hasNode; eassumption.
Qed.

Lemma fields_committed (r : nat) (c : Spec.Candidate) :
  Valid.fields (Spec.committed r c) = c.
Proof. now destruct c. Qed.

Lemma snapshot_with_admissible (s : AppState) (r : nat)
      (c : Spec.Candidate) :
  Valid.snapshot nodeTypes s ->
  Spec.admissible (nodes s) (connections s) nodeTypes c ->
  Valid.snapshot nodeTypes
    {| nodes := nodes s;
       connections := connections s ++ [Spec.committed r c] |}.
Proof.
  intros [Hdangling [Hunique [Hloop Htyped]]] [Hmatch [Hne [_ Hfree]]].
  repeat split; cbn [nodes connections] in *.
  - apply in_app_iff in H as [Hin|[<-|[]]].
    + now apply Hdangling.
    + now apply typesMatch_hasNodes.
  - apply in_app_iff in H as [Hin|[<-|[]]].
    + now apply Hdangling.
    + now apply typesMatch_hasNodes.
  - unfold Valid.inputUnique in *. cbn [connections].
    rewrite map_app. apply List.NoDup_app; [exact Hunique| |].
    + cbn. apply List.NoDup_cons; [intros []|apply List.NoDup_nil].
    + intros t Hin [<-|[]]. apply Hfree.
      apply in_map_iff in Hin as [e [He Hin]].
      exists e. split; [exact Hin|].
      unfold Valid.target in He. cbn in He. now inversion He.
  - intros d Hd. apply in_app_iff in Hd as [Hin|[<-|[]]].
    + now apply Hloop.
    + exact Hne.
  - intros d Hd. apply in_app_iff in Hd as [Hin|[<-|[]]].
    + now apply Htyped.
    + now rewrite fields_committed.
Qed.

(** X11.  A pointer-up on a port keeps a valid snapshot valid: if the
    rendered snapshot has no dangling connection (I2), no input port with
    two connections (I3), no self-loop (I4) and only connections between
    declared ports of one type (I5), so has the snapshot after the
    pointer-up, whichever port it lands on and whatever the gesture was. *)
Theorem pointer_up_keeps_snapshot_valid
        (st : State)
        (dropNode : string) (dropPort : PortDef) (direction : PortDirection) :
  Valid.snapshot nodeTypes (rendered st) ->
  Valid.snapshot nodeTypes
    (rendered (portPointerUp nodeTypes st dropNode dropPort direction)).
Proof.
  intros Hvalid.
  destruct (newConnection (gesture st)) as [nc|] eqn:Enc.
  - rewrite (portPointerUp_cases nodeTypes st nc) by assumption.
    destruct (Spec.resolveCandidate nc dropNode dropPort direction)
      as [cand|]; [|exact Hvalid].
    destruct (Spec.verdict _ _ _ cand) eqn:Everdict; [exact Hvalid|].
    apply verdict_None_iff_admissible in Everdict.
    unfold rendered at 1. cbn [history].
    now apply snapshot_with_admissible.
  - unfold portPointerUp, handlePortPointerUp. rewrite Enc. exact Hvalid.
Qed.
End CommitKeepsValid.

(** X11, witness: the unwired sample graph, with a wire dropped on
    [sub.A]. *)
Lemma pointer_up_keeps_snapshot_valid_witness :
  let dropPort := {| pd_name := "A"; pd_type := "number" |} in
  Valid.snapshot Sample.nodeTypes (Editor.rendered Sample.draggingResult) /\
  Valid.snapshot Sample.nodeTypes
    (Editor.rendered
       (Editor.portPointerUp Sample.nodeTypes Sample.draggingResult
                             "sub" dropPort input)).
Proof.
  intros dropPort.
  assert (Valid.snapshot Sample.nodeTypes
            (Editor.rendered Sample.draggingResult)) as Hvalid.
  { split; [intros c []|]. split; [apply List.NoDup_nil|].
    split; intros c []. }
  split; [exact Hvalid|].
  exact (pointer_up_keeps_snapshot_valid
           Sample.nodeTypes Sample.draggingResult "sub" dropPort input
           Hvalid).
Defined.

(** ** Connections: pointer-down on a port *)

Section PointerDown.
Import ConnectionDrag Editor.

Lemma handlePortPointerDown_grab
      (edges : list Connection) (v : View) (g : Gesture)
      (nodeId_ : string) (port_ : PortDef) (clientX clientY : R)
      (pos : Geometry.Point) (rect : Rect) (c : Connection) :
  portPositions v !! Ports.portKey nodeId_ port_ = Some pos ->
  platformRect v = Some rect ->
  Ports.incoming edges nodeId_ port_ = Some c ->
  handlePortPointerDown edges v g nodeId_ port_ input clientX clientY
  = (setWarningMessage g None, Some c).
Proof.
  unfold Ports.portKey, Ports.incoming, handlePortPointerDown.
  intros -> -> ->. reflexivity.
Qed.

Lemma handlePortPointerDown_start
      (edges : list Connection) (v : View) (g : Gesture)
      (nodeId_ : string) (port_ : PortDef) (direction : PortDirection)
      (clientX clientY : R) (pos : Geometry.Point) (rect : Rect) :
  portPositions v !! Ports.portKey nodeId_ port_ = Some pos ->
  platformRect v = Some rect ->
  (direction = input -> Ports.incoming edges nodeId_ port_ = None) ->
  handlePortPointerDown edges v g nodeId_ port_ direction clientX clientY
  = ({| newConnection :=
          Some match direction with
               | output => {| nc_from := Some (Ports.fixedEnd nodeId_ port_);
                              nc_to := None |}
               | input => {| nc_from := None;
                             nc_to := Some (Ports.fixedEnd nodeId_ port_) |}
               end;
        connectionPreview :=
          Some {| start := pos; end_ := toWorld v rect clientX clientY |};
        warningMessage := None |}, None).
Proof.
  unfold Ports.portKey, Ports.incoming, handlePortPointerDown.
  intros -> -> Hfree.
  destruct direction; [rewrite (Hfree eq_refl)|]; reflexivity.
Qed.

Lemma unique_target_determines (cs : list Connection) (c d : Connection) :
  List.NoDup (map Valid.target cs) ->
  In c cs -> In d cs -> Valid.target c = Valid.target d -> c = d.
Proof.
  induction cs as [|e cs IH]; intros Huniq Hc Hd Heq; [contradiction|].
  cbn in Huniq. inversion Huniq as [|? ? Hnotin Hrest]; subst.
  destruct Hc as [<-|Hc]; destruct Hd as [<-|Hd].
  - reflexivity.
  - elim Hnotin. rewrite Heq. now apply in_map.
  - elim Hnotin. rewrite <- Heq. now apply in_map.
  - now apply IH.
Qed.

(** X12.  A pointer-down on an input port that already has a connection,
    on a mounted platform that knows the port's position, starts no drag:
    [newConnection] and the preview are as before and the warning is
    cleared.  It removes the first connection into that port from the
    snapshot, as a new history step, keeps every other connection object
    and the nodes; and if no input had two connections, the port is free
    afterwards. *)
Theorem pointer_down_on_connected_input_disconnects
        (v : View) (st : State) (nodeId_ : string) (port_ : PortDef)
        (clientX clientY : R)
        (pos : Geometry.Point) (rect : Rect) (c : Connection) :
  portPositions v !! Ports.portKey nodeId_ port_ = Some pos ->
  platformRect v = Some rect ->
  Ports.incoming (connections (rendered st)) nodeId_ port_ = Some c ->
  let st' := portPointerDown v st nodeId_ port_ input clientX clientY in
  gesture st' = setWarningMessage (gesture st) None /\
  history st'
  = NodeSystem.set (history st)
      {| nodes := nodes (rendered st);
         connections :=
           List.filter (fun d => negb (ref d =? ref c))
                       (connections (rendered st)) |} false /\
  (In c (connections (rendered st)) /\
   Valid.target c = (nodeId_, pd_name port_)) /\
  ~ In c (connections (rendered st')) /\
  (forall d, In d (connections (rendered st)) -> ref d <> ref c ->
             In d (connections (rendered st'))) /\
  (Valid.inputUnique (rendered st) ->
   Ports.incoming (connections (rendered st')) nodeId_ port_ = None).
Proof.
  intros Hpos Hrect Hin st'. subst st'. unfold portPointerDown.
  rewrite (handlePortPointerDown_grab _ _ _ _ _ _ _ pos rect c)
    by assumption.
  assert (In c (connections (rendered st)) /\
          Valid.target c = (nodeId_, pd_name port_)) as [Hc Htarget].
  { unfold Ports.incoming in Hin. apply find_some in Hin as [Hmem Htest].
    apply andb_true_iff in Htest as [Hn Hp].
    apply String.eqb_eq in Hn, Hp.
    split; [exact Hmem|]. unfold Valid.target. now rewrite Hn, Hp. }
  split; [reflexivity|]. split; [reflexivity|].
  split; [now split|].
  unfold rendered at 1 3 4. cbn [history].
  unfold NodeSystem.handleDeleteConnection, NodeSystem.set, History.set.
  cbn [History.present connections].
  split; [|split].
  - rewrite filter_other_refs. tauto.
  - intros d Hd Hne. now apply filter_other_refs.
  - intros Huniq. unfold Ports.incoming.
    destruct (find _ _) as [d|] eqn:Efind; [|reflexivity].
    apply find_some in Efind as [Hmem Htest].
    apply filter_other_refs in Hmem as [Hmem Hne].
    apply andb_true_iff in Htest as [Hn Hp].
    apply String.eqb_eq in Hn, Hp.
    elim Hne. f_equal.
    apply (unique_target_determines (connections (rendered st)));
      try assumption.
    rewrite Htarget. unfold Valid.target. now rewrite Hn, Hp.
Qed.

Lemma resolveCandidate_either_way
      (a b : string) (pa pb : PortDef) :
  Spec.resolveCandidate
    {| nc_from := Some (Ports.fixedEnd a pa); nc_to := None |} b pb input
  = Spec.resolveCandidate
      {| nc_from := None; nc_to := Some (Ports.fixedEnd b pb) |} a pa output.
Proof.
  unfold Spec.resolveCandidate, Ports.fixedEnd. cbn [nc_from nc_to option_map
    nodeId port].
  destruct (Spec.given (Some a)); destruct (Spec.given (Some (pd_name pa)));
    destruct (Spec.given (Some b)); destruct (Spec.given (Some (pd_name pb)));
    reflexivity.
Qed.

(** X13.  A wire can be dragged in either direction.  On a mounted
    platform that knows both port positions, pressing the output port of
    one node and releasing on a free input port of another leaves the
    editor in the same state (history, gesture, warning) as pressing that
    input port and releasing on the output port, wherever the pointer was
    pressed, and whether the connection is accepted or refused. *)
Theorem wire_drag_direction_irrelevant
        (nodeTypes : gmap string NodeTypeDef) (v : View) (st : State)
        (a b : string) (pa pb : PortDef)
        (posA posB : Geometry.Point) (rect : Rect)
        (xa ya xb yb : R) :
  portPositions v !! Ports.portKey a pa = Some posA ->
  portPositions v !! Ports.portKey b pb = Some posB ->
  platformRect v = Some rect ->
  Ports.incoming (connections (rendered st)) b pb = None ->
  portPointerUp nodeTypes (portPointerDown v st a pa output xa ya) b pb input
  = portPointerUp nodeTypes (portPointerDown v st b pb input xb yb)
                  a pa output.
Proof.
  intros HposA HposB Hrect Hfree. unfold portPointerDown.
  rewrite (handlePortPointerDown_start _ _ _ a pa output xa ya posA rect)
    by (try assumption; discriminate).
  rewrite (handlePortPointerDown_start _ _ _ b pb input xb yb posB rect)
    by (try assumption; intros _; exact Hfree).
  rewrite (portPointerUp_cases nodeTypes _
             {| nc_from := Some (Ports.fixedEnd a pa); nc_to := None |})
    by reflexivity.
  rewrite (portPointerUp_cases nodeTypes _
             {| nc_from := None; nc_to := Some (Ports.fixedEnd b pb) |})
    by reflexivity.
  rewrite resolveCandidate_either_way.
  reflexivity.
Qed.
End PointerDown.

(** X12, witness: pressing the input [b.A] of the chain a -> b -> c. *)
Lemma pointer_down_on_connected_input_disconnects_witness :
  let st := Sample.mounted Sample.chain 2 in
  let c := Sample.wire 0 "a" "Result" "b" "A" in
  (ConnectionDrag.portPositions Scene.view !! Ports.portKey "b" Scene.aPort
   = Some (Scene.at_ 200 20) /\
   Ports.incoming (connections (Editor.rendered st)) "b" Scene.aPort
   = Some c) /\
  connections
    (Editor.rendered
       (Editor.portPointerDown Scene.view st "b" Scene.aPort input 0 0))
  = [Sample.wire 1 "b" "Result" "c" "A"].
Proof.
  intros st c.
  assert (ConnectionDrag.portPositions Scene.view
            !! Ports.portKey "b" Scene.aPort
          = Some (Scene.at_ 200 20)) as Hpos by reflexivity.
  assert (Ports.incoming (connections (Editor.rendered st)) "b" Scene.aPort
          = Some c) as Hin by reflexivity.
  split; [split; assumption|].
  pose proof (proj1 (proj2 (pointer_down_on_connected_input_disconnects
                              Scene.view st "b" Scene.aPort 0 0
                              (Scene.at_ 200 20)
                              {| ConnectionDrag.left := 0;
                                 ConnectionDrag.top := 0 |} c
                              Hpos eq_refl Hin))) as Hhist.
  unfold Editor.rendered. rewrite Hhist. reflexivity.
Defined.

(** X13, witness: the wire add.Result -> sub.A, dragged either way. *)
Lemma wire_drag_direction_irrelevant_witness :
  let st := Sample.mounted Sample.unwired 0 in
  Ports.incoming (connections (Editor.rendered st)) "sub" Scene.aPort = None /\
  Editor.portPointerUp Sample.nodeTypes
    (Editor.portPointerDown Scene.view st "add" Scene.resultPort output 5 5)
    "sub" Scene.aPort input
  = Editor.portPointerUp Sample.nodeTypes
      (Editor.portPointerDown Scene.view st "sub" Scene.aPort input 7 7)
      "add" Scene.resultPort output.
Proof.
  intros st. split; [reflexivity|].
  exact (wire_drag_direction_irrelevant
           Sample.nodeTypes Scene.view st "add" "sub"
           Scene.resultPort Scene.aPort
           (Scene.at_ 100 20) (Scene.at_ 200 20)
           {| ConnectionDrag.left := 0; ConnectionDrag.top := 0 |}
           5 5 7 7 eq_refl eq_refl eq_refl eq_refl).
Defined.

(** ** The splice resolver *)

Section SpliceResolver.
Import Geometry Splice.
Local Open Scope R_scope.

Variable v : ConnectionDrag.View.
Variable dropped : string.
Variable nodeCenter : Point.

Lemma considerEdge_edgeDistance
      (acc : option Connection * option R) (edge : Connection) :
  considerEdge v dropped nodeCenter acc edge
  = match edgeDistance v dropped nodeCenter edge with
    | Some dist =>
        if (if Rlt_dec dist SPLICE_THRESHOLD then true else false) &&
           below dist (snd acc)
        then (Some edge, Some dist) else acc
    | None => acc
    end.
Proof.
  unfold considerEdge, edgeDistance, NodeSystem.touches.
  destruct (_ || _); [reflexivity|].
  destruct (_ !! _); [|reflexivity].
  destruct (_ !! _); reflexivity.
Qed.

Lemma considerEdge_bestSoFar
      (seen : list Connection) (acc : option Connection * option R)
      (edge : Connection) :
  bestSoFar v dropped nodeCenter seen acc ->
  bestSoFar v dropped nodeCenter (seen ++ [edge])
            (considerEdge v dropped nodeCenter acc edge).
Proof.
  intros Hinv. rewrite considerEdge_edgeDistance.
  destruct (edgeDistance v dropped nodeCenter edge) as [dist|] eqn:Edist.
  - destruct (Rlt_dec dist SPLICE_THRESHOLD) as [Hlt|Hge].
    + destruct acc as [[best|] [m|]]; cbn [snd below andb];
        try contradiction.
      * destruct Hinv as [Hin [Hbest [Hm Hmin]]].
        destruct (Rlt_dec dist m) as [Hcloser|Hfarther].
        -- cbn [bestSoFar]. split; [apply in_app_iff; right; now left|].
           split; [exact Edist|]. split; [exact Hlt|].
           intros e d He Hd. apply in_app_iff in He as [He|[<-|[]]].
           ++ pose proof (Hmin e d He Hd). lra.
           ++ rewrite Edist in Hd. injection Hd as <-. lra.
        -- cbn [bestSoFar]. split; [apply in_app_iff; now left|].
           split; [exact Hbest|]. split; [exact Hm|].
           intros e d He Hd. apply in_app_iff in He as [He|[<-|[]]].
           ++ now apply (Hmin e d).
           ++ rewrite Edist in Hd. injection Hd as <-. lra.
      * cbn [bestSoFar] in *. split; [apply in_app_iff; right; now left|].
        split; [exact Edist|]. split; [exact Hlt|].
        intros e d He Hd. apply in_app_iff in He as [He|[<-|[]]].
        -- pose proof (Hinv e d He Hd). lra.
        -- rewrite Edist in Hd. injection Hd as <-. lra.
    + cbn [andb].
      destruct acc as [[best|] [m|]]; cbn [bestSoFar] in *;
        try contradiction.
      * destruct Hinv as [Hin [Hbest [Hm Hmin]]].
        split; [apply in_app_iff; now left|].
        split; [exact Hbest|]. split; [exact Hm|].
        intros e d He Hd. apply in_app_iff in He as [He|[<-|[]]].
        -- now apply (Hmin e d).
        -- rewrite Edist in Hd. injection Hd as <-. lra.
      * intros e d He Hd. apply in_app_iff in He as [He|[<-|[]]].
        -- now apply (Hinv e d).
        -- rewrite Edist in Hd. injection Hd as <-. lra.
  - destruct acc as [[best|] [m|]]; cbn [bestSoFar] in *;
      try contradiction.
    + destruct Hinv as [Hin [Hbest [Hm Hmin]]].
      split; [apply in_app_iff; now left|].
      split; [exact Hbest|]. split; [exact Hm|].
      intros e d He Hd. apply in_app_iff in He as [He|[<-|[]]].
      * now apply (Hmin e d).
      * congruence.
    + intros e d He Hd. apply in_app_iff in He as [He|[<-|[]]].
      * now apply (Hinv e d).
      * congruence.
Qed.

Lemma edge_loop_bestSoFar
      (edges seen : list Connection) (acc : option Connection * option R) :
  bestSoFar v dropped nodeCenter seen acc ->
  bestSoFar v dropped nodeCenter (seen ++ edges)
            (fold_left (considerEdge v dropped nodeCenter) edges acc).
Proof.
  revert seen acc. induction edges as [|edge edges IH]; intros seen acc Hinv.
  - now rewrite app_nil_r.
  - cbn [fold_left].
    replace (seen ++ edge :: edges) with ((seen ++ [edge]) ++ edges)
      by now rewrite <- app_assoc.
    apply IH. now apply considerEdge_bestSoFar.
Qed.
End SpliceResolver.

Section SpliceChoice.
Import Geometry Splice.
Local Open Scope R_scope.

Lemma considerPort_nearestSoFar
      (target : Point) (seen : list Measured)
      (acc : option string * option R) (c : Measured) :
  nearestSoFar target seen acc ->
  nearestSoFar target (seen ++ [c]) (considerPort target acc c).
Proof.
  intros Hinv. unfold considerPort.
  destruct acc as [[best|] [m|]]; cbn [snd below nearestSoFar] in *;
    try contradiction.
  - destruct Hinv as [b [Hb [Hname [Hd Hmin]]]].
    destruct (Rlt_dec (distance (p c) target) m) as [Hcloser|Hfarther];
      cbn [nearestSoFar].
    + exists c. split; [apply in_app_iff; right; now left|].
      split; [reflexivity|]. split; [reflexivity|].
      intros c' Hc'. apply in_app_iff in Hc' as [Hc'|[<-|[]]]; [|lra].
      pose proof (Hmin c' Hc'). lra.
    + exists b. split; [apply in_app_iff; now left|].
      split; [exact Hname|]. split; [exact Hd|].
      intros c' Hc'. apply in_app_iff in Hc' as [Hc'|[<-|[]]]; [|lra].
      now apply Hmin.
  - subst seen. exists c. split; [now left|].
    split; [reflexivity|]. split; [reflexivity|].
    intros c' [<-|[]]. lra.
Qed.

Lemma port_loop_nearestSoFar
      (target : Point) (ports seen : list Measured)
      (acc : option string * option R) :
  nearestSoFar target seen acc ->
  nearestSoFar target (seen ++ ports)
               (fold_left (considerPort target) ports acc).
Proof.
  revert seen acc. induction ports as [|c ports IH]; intros seen acc Hinv.
  - now rewrite app_nil_r.
  - cbn [fold_left].
    replace (seen ++ c :: ports) with ((seen ++ [c]) ++ ports)
      by now rewrite <- app_assoc.
    apply IH. now apply considerPort_nearestSoFar.
Qed.

(** The loop over measured ports returns a nearest one, and returns
    nothing only when there is none. *)
Lemma nearestPort_spec (ports : list Measured) (target : Point) :
  match nearestPort ports target with
  | Some best => nearestAmong ports target best
  | None => ports = []
  end.
Proof.
  unfold nearestPort.
  pose proof (port_loop_nearestSoFar target ports [] (None, None) eq_refl)
    as Hinv.
  cbn [app] in Hinv.
  destruct (fold_left _ ports _) as [[best|] [m|]];
    cbn [fst nearestSoFar] in *; try contradiction; [|exact Hinv].
  destruct Hinv as [c [Hc [Hname [Hd Hmin]]]].
  exists c. split; [exact Hc|]. split; [exact Hname|].
  intros c' Hc'. rewrite Hd. now apply Hmin.
Qed.

Lemma measure_wellMeasured
      (v : ConnectionDrag.View) (platformRect : ConnectionDrag.Rect)
      (nodeType : NodeTypeDef) (m : Measurement) (el : PortElement) :
  wellMeasured m -> wellMeasured (measure v platformRect nodeType m el).
Proof.
  intros [Hin [Hout Hcount]]. unfold measure.
  destruct (portName el) as [n|]; cbn [ConnectionDrag.falsy];
    [|now repeat split].
  destruct (String.eqb n "") eqn:En; [now repeat split|].
  apply String.eqb_neq in En. cbn [ConnectionDrag.orEmpty].
  destruct (declares (nt_inputs nodeType) n).
  - repeat split; cbn [inputPositions outputPositions count].
    + apply Forall_app. split; [exact Hin|]. now constructor.
    + exact Hout.
    + rewrite length_app. cbn [length]. lia.
  - destruct (declares (nt_outputs nodeType) n); [|now repeat split].
    repeat split; cbn [inputPositions outputPositions count].
    + exact Hin.
    + apply Forall_app. split; [exact Hout|]. now constructor.
    + rewrite length_app. cbn [length]. lia.
Qed.

Lemma measurement_wellMeasured
      (v : ConnectionDrag.View) (nodeType : NodeTypeDef)
      (portElements : list PortElement) :
  wellMeasured (measurement v nodeType portElements).
Proof.
  unfold measurement.
  assert (wellMeasured noMeasurement) as Hstart
      by (repeat split; constructor).
  destruct (ConnectionDrag.platformRect v) as [platformRect|];
    [|exact Hstart].
  revert Hstart. generalize noMeasurement.
  induction portElements as [|el els IH]; intros m Hm; [exact Hm|].
  cbn [fold_left]. apply IH. now apply measure_wellMeasured.
Qed.
End SpliceChoice.

Section SpliceDecision.
Import Geometry Splice.
Local Open Scope R_scope.

Variable nodes_ : list NodeData.
Variable nodeTypes : gmap string NodeTypeDef.
Variable edges : list Connection.
Variable v : ConnectionDrag.View.
Variable portElements : list PortElement.
Variable dropped : string.

Lemma handleNodeDragEndWrapper_resolved
      (node : NodeData) (nodeType : NodeTypeDef) :
  find (fun n => String.eqb (n_id n) dropped) nodes_ = Some node ->
  nodeTypes !! n_type node = Some nodeType ->
  handleNodeDragEndWrapper nodes_ nodeTypes edges v portElements dropped
  = let m := measurement v nodeType portElements in
    if (count m =? 0)%nat then None
    else
      match fst (fold_left (considerEdge v dropped (centroid m)) edges
                           (None, None)) with
      | None => None
      | Some bestConnection =>
        match ConnectionDrag.portPositions v
                !! endpointKey (from bestConnection),
              ConnectionDrag.portPositions v
                !! endpointKey (to bestConnection) with
        | Some startPos, Some endPos =>
            if negb (ConnectionDrag.falsy
                       (nearestPort (inputPositions m) startPos)) &&
               negb (ConnectionDrag.falsy
                       (nearestPort (outputPositions m) endPos))
            then Some {| sc_nodeId := dropped;
                         sc_connection := bestConnection;
                         sc_inputPort :=
                           ConnectionDrag.orEmpty
                             (nearestPort (inputPositions m) startPos);
                         sc_outputPort :=
                           ConnectionDrag.orEmpty
                             (nearestPort (outputPositions m) endPos) |}
            else None
        | _, _ => None
        end
      end.
Proof.
  intros Hnode Htype. unfold handleNodeDragEndWrapper.
  rewrite Hnode, Htype. unfold measurement, centroid.
  destruct (ConnectionDrag.platformRect v); reflexivity.
Qed.

Lemma edgeDistance_Some (center : Point) (e : Connection) (d : R) :
  edgeDistance v dropped center e = Some d ->
  NodeSystem.touches dropped e = false /\
  exists startPos endPos,
    ConnectionDrag.portPositions v !! endpointKey (from e) = Some startPos /\
    ConnectionDrag.portPositions v !! endpointKey (to e) = Some endPos /\
    distancePointToSegment center startPos endPos = d.
Proof.
  unfold edgeDistance.
  destruct (NodeSystem.touches dropped e); [discriminate|].
  destruct (_ !! _) as [startPos|]; [|discriminate].
  destruct (_ !! _) as [endPos|]; [|discriminate].
  intros [= <-]. split; [reflexivity|]. now exists startPos, endPos.
Qed.

Lemma nearestPort_truthy (ports : list Measured) (target : Point) :
  Forall (fun c => name c <> ""%string) ports ->
  ports <> [] ->
  exists best,
    nearestPort ports target = Some best /\
    ConnectionDrag.falsy (Some best) = false.
Proof.
  intros Hnames Hne. pose proof (nearestPort_spec ports target) as Hspec.
  destruct (nearestPort ports target) as [best|]; [|contradiction].
  exists best. split; [reflexivity|].
  destruct Hspec as [c [Hc [Hname _]]].
  rewrite List.Forall_forall in Hnames. specialize (Hnames c Hc).
  cbn. apply String.eqb_neq. now rewrite <- Hname.
Qed.

(** What a call of [onSpliceNode] by the resolver implies. *)
Lemma handleNodeDragEndWrapper_call (call : SpliceCall) :
  handleNodeDragEndWrapper nodes_ nodeTypes edges v portElements dropped
  = Some call ->
  exists node nodeType startPos endPos,
    find (fun n => String.eqb (n_id n) dropped) nodes_ = Some node /\
    nodeTypes !! n_type node = Some nodeType /\
    let m := measurement v nodeType portElements in
    sc_nodeId call = dropped /\
    In (sc_connection call) edges /\
    NodeSystem.touches dropped (sc_connection call) = false /\
    ConnectionDrag.portPositions v
      !! endpointKey (from (sc_connection call)) = Some startPos /\
    ConnectionDrag.portPositions v
      !! endpointKey (to (sc_connection call)) = Some endPos /\
    distancePointToSegment (centroid m) startPos endPos
    < SPLICE_THRESHOLD /\
    (forall e d, In e edges ->
                 edgeDistance v dropped (centroid m) e = Some d ->
                 distancePointToSegment (centroid m) startPos endPos <= d) /\
    nearestAmong (inputPositions m) startPos (sc_inputPort call) /\
    nearestAmong (outputPositions m) endPos (sc_outputPort call).
Proof.
  intros Hcall.
  destruct (find (fun n => String.eqb (n_id n) dropped) nodes_)
    as [node|] eqn:Hnode;
    [|unfold handleNodeDragEndWrapper in Hcall; rewrite Hnode in Hcall;
      discriminate].
  destruct (nodeTypes !! n_type node) as [nodeType|] eqn:Htype;
    [|unfold handleNodeDragEndWrapper in Hcall;
      rewrite Hnode, Htype in Hcall; discriminate].
  rewrite (handleNodeDragEndWrapper_resolved node nodeType) in Hcall
    by assumption.
  cbn zeta in Hcall.
  set (m := measurement v nodeType portElements) in *.
  destruct (count m =? 0)%nat; [discriminate|].
  pose proof (edge_loop_bestSoFar v dropped (centroid m) edges []
                (None, None)) as Hbest.
  cbn [app] in Hbest.
  assert (bestSoFar v dropped (centroid m) [] (None, None)) as Hstart
      by (intros e d []).
  specialize (Hbest Hstart).
  destruct (fold_left _ edges _) as [[best|] [dist|]];
    cbn [fst bestSoFar] in *; try contradiction; try discriminate.
  destruct Hbest as [Hin [Hdist [Hlt Hmin]]].
  apply edgeDistance_Some in Hdist as [Htouch [startPos [endPos
    [Hstartpos [Hendpos Hd]]]]].
  rewrite Hstartpos, Hendpos in Hcall.
  pose proof (nearestPort_spec (inputPositions m) startPos) as Hinput.
  pose proof (nearestPort_spec (outputPositions m) endPos) as Houtput.
  destruct (nearestPort (inputPositions m) startPos) as [bestInput|];
    [|discriminate].
  destruct (nearestPort (outputPositions m) endPos) as [bestOutput|];
    [|now rewrite andb_false_r in Hcall].
  destruct (negb _ && negb _); [|discriminate].
  injection Hcall as <-. cbn [sc_nodeId sc_connection sc_inputPort
    sc_outputPort ConnectionDrag.orEmpty].
  exists node, nodeType, startPos, endPos. subst dist.
  repeat split; try assumption; try reflexivity.
Qed.

(** X14.  When the splice resolver asks for a splice, the dropped node
    exists and its type is known; the chosen connection is one of the
    edges, does not touch the dropped node, and has both ends at cached
    positions; the distance from the centroid of the node's measured ports
    to the segment between those positions is below 50 and no edge that
    could have been chosen is nearer; the chosen input is a measured input
    port of the node nearest to the connection's source, and the chosen
    output a measured output port nearest to its destination. *)
Theorem splice_resolver_chooses_nearest_edge (call : SpliceCall) :
  handleNodeDragEndWrapper nodes_ nodeTypes edges v portElements dropped
  = Some call ->
  exists node nodeType startPos endPos,
    find (fun n => String.eqb (n_id n) dropped) nodes_ = Some node /\
    nodeTypes !! n_type node = Some nodeType /\
    let m := measurement v nodeType portElements in
    sc_nodeId call = dropped /\
    In (sc_connection call) edges /\
    NodeSystem.touches dropped (sc_connection call) = false /\
    ConnectionDrag.portPositions v
      !! endpointKey (from (sc_connection call)) = Some startPos /\
    ConnectionDrag.portPositions v
      !! endpointKey (to (sc_connection call)) = Some endPos /\
    distancePointToSegment (centroid m) startPos endPos
    < SPLICE_THRESHOLD /\
    (forall e d, In e edges ->
                 edgeDistance v dropped (centroid m) e = Some d ->
                 distancePointToSegment (centroid m) startPos endPos <= d) /\
    nearestAmong (inputPositions m) startPos (sc_inputPort call) /\
    nearestAmong (outputPositions m) endPos (sc_outputPort call).
Proof. apply handleNodeDragEndWrapper_call. Qed.

(** X15.  The splice resolver asks for a splice exactly when the dropped
    node exists with a known type, at least one input port and at least
    one output port of it were measured, and some edge that does not touch
    the node, with both ends at cached positions, passes within 50 of the
    centroid of the measured ports.  Otherwise it makes no call: not for
    an unknown node, not before the platform is mounted (nothing is
    measured then), and not when every such edge is at 50 or more. *)
Theorem splice_requested_iff_edge_in_reach :
  handleNodeDragEndWrapper nodes_ nodeTypes edges v portElements dropped
  <> None
  <-> exists node nodeType,
      find (fun n => String.eqb (n_id n) dropped) nodes_ = Some node /\
      nodeTypes !! n_type node = Some nodeType /\
      inputPositions (measurement v nodeType portElements) <> [] /\
      outputPositions (measurement v nodeType portElements) <> [] /\
      exists e d,
        In e edges /\
        edgeDistance v dropped
          (centroid (measurement v nodeType portElements)) e = Some d /\
        d < SPLICE_THRESHOLD.
Proof.
  split.
  - intros Hcall.
    destruct (handleNodeDragEndWrapper nodes_ nodeTypes edges v portElements
                                       dropped) as [call|] eqn:Ecall;
      [|contradiction].
    destruct (handleNodeDragEndWrapper_call call Ecall)
      as [node [nodeType [startPos [endPos
         [Hnode [Htype [_ [Hin [Htouch [Hs [Ht [Hlt [_ [Hbi Hbo]]]]]]]]]]]]]].
    exists node, nodeType. split; [exact Hnode|]. split; [exact Htype|].
    split; [|split].
    + destruct Hbi as [c [Hc _]]. intros Hnil. now rewrite Hnil in Hc.
    + destruct Hbo as [c [Hc _]]. intros Hnil. now rewrite Hnil in Hc.
    + exists (sc_connection call). eexists. split; [exact Hin|].
      split; [|exact Hlt].
      unfold edgeDistance. now rewrite Htouch, Hs, Ht.
  - intros [node [nodeType [Hnode [Htype [Hinputs [Houtputs
      [e [d [He [Hd Hlt]]]]]]]]]].
    rewrite (handleNodeDragEndWrapper_resolved node nodeType)
      by assumption.
    cbn zeta.
    set (m := measurement v nodeType portElements) in *.
    destruct (measurement_wellMeasured v nodeType portElements)
      as [Hin [Hout Hcount]].
    fold m in Hin, Hout, Hcount.
    assert ((count m =? 0)%nat = false) as ->.
    { apply Nat.eqb_neq. rewrite Hcount.
      destruct (inputPositions m); [contradiction|]. cbn. lia. }
    pose proof (edge_loop_bestSoFar v dropped (centroid m) edges []
                  (None, None)) as Hbest.
    cbn [app] in Hbest.
    assert (bestSoFar v dropped (centroid m) [] (None, None)) as Hstart
        by (intros e' d' []).
    specialize (Hbest Hstart).
    destruct (fold_left _ edges _) as [[best|] [dist|]];
      cbn [fst bestSoFar] in *; try contradiction.
    + destruct Hbest as [_ [Hdist _]].
      apply edgeDistance_Some in Hdist as [_ [startPos [endPos
        [Hstartpos [Hendpos _]]]]].
      rewrite Hstartpos, Hendpos.
      destruct (nearestPort_truthy (inputPositions m) startPos Hin Hinputs)
        as [bi [-> ->]].
      destruct (nearestPort_truthy (outputPositions m) endPos Hout Houtputs)
        as [bo [-> ->]].
      discriminate.
    + pose proof (Hbest e d He Hd). lra.
Qed.
End SpliceDecision.

Section SampleDrop.
Import Geometry Splice.
Local Open Scope R_scope.

Lemma distancePointToSegment_on_segment (q a b : Point) :
  onSegment q a b -> distancePointToSegment q a b = 0.
Proof.
  intros [s [Hs ->]].
  pose proof (distancePointToSegment_least (pointAt a b s) a b s Hs) as Hle.
  rewrite distance_self in Hle.
  pose proof (hypot_nonneg 0 0) as _.
  assert (0 <= distancePointToSegment (pointAt a b s) a b) as Hge.
  { unfold distancePointToSegment.
    destruct (Req_dec_T _ 0); apply hypot_nonneg. }
  lra.
Qed.

(** The sample drop, evaluated. *)
Lemma sample_drop_call :
  handleNodeDragEndWrapper (nodes Sample.fanOut) Sample.nodeTypes
                           (connections Sample.fanOut) Scene.view
                           Drop.portElements "m"
  = Some Drop.call.
Proof.
  rewrite (handleNodeDragEndWrapper_resolved _ _ _ _ _ _
             (Sample.node "m" "Add" 100 200 None) Sample.addType)
    by reflexivity.
  cbn zeta.
  set (m := measurement Scene.view Sample.addType Drop.portElements).
  assert (inputPositions m
          = [{| name := "A";
                p := ConnectionDrag.toWorld
                       Scene.view
                       {| ConnectionDrag.left := 0; ConnectionDrag.top := 0 |}
                       (145 + 10 / 2) (15 + 10 / 2) |}]) as Hin
      by reflexivity.
  assert (outputPositions m
          = [{| name := "Result";
                p := ConnectionDrag.toWorld
                       Scene.view
                       {| ConnectionDrag.left := 0; ConnectionDrag.top := 0 |}
                       (155 + 10 / 2) (15 + 10 / 2) |}]) as Hout
      by reflexivity.
  assert (count m = 2%nat) as Hcount by reflexivity.
  assert (centroid m = Scene.at_ 155 20) as Hcenter.
  { unfold centroid. rewrite Hcount.
    assert (centerX m = 0 + (145 + 10 / 2 - 0 - 0) / 1
                        + (155 + 10 / 2 - 0 - 0) / 1) as -> by reflexivity.
    assert (centerY m = 0 + (15 + 10 / 2 - 0 - 0) / 1
                        + (15 + 10 / 2 - 0 - 0) / 1) as -> by reflexivity.
    unfold Scene.at_. cbn [INR]. f_equal; lra. }
  rewrite Hcount, Hcenter, Hin, Hout. cbn [Nat.eqb].
  cbn [fold_left connections Sample.fanOut].
  rewrite !considerEdge_edgeDistance.
  assert (edgeDistance Scene.view "m" (Scene.at_ 155 20)
                       (Sample.wire 0 "a" "Result" "n" "A") = None)
    as -> by reflexivity.
  assert (edgeDistance Scene.view "m" (Scene.at_ 155 20)
                       (Sample.wire 1 "a" "Result" "b" "A")
          = Some (distancePointToSegment (Scene.at_ 155 20)
                    (Scene.at_ 100 20) (Scene.at_ 200 20)))
    as -> by reflexivity.
  rewrite distancePointToSegment_on_segment.
  2:{ exists (55 / 100). split; [lra|].
      unfold pointAt, Scene.at_; cbn [x y]. f_equal; lra. }
  unfold SPLICE_THRESHOLD.
  destruct (Rlt_dec 0 50) as [_|Hno]; [|lra].
  reflexivity.
Qed.
End SampleDrop.

(** X14, witness: the sample drop; the chosen wire a -> b does not touch
    the dropped node [m]. *)
Lemma splice_resolver_chooses_nearest_edge_witness :
  Splice.handleNodeDragEndWrapper
    (nodes Sample.fanOut) Sample.nodeTypes (connections Sample.fanOut)
    Scene.view Drop.portElements "m" = Some Drop.call /\
  NodeSystem.touches "m" (Splice.sc_connection Drop.call) = false.
Proof.
  split; [exact sample_drop_call|].
  destruct (splice_resolver_chooses_nearest_edge
              (nodes Sample.fanOut) Sample.nodeTypes
              (connections Sample.fanOut) Scene.view Drop.portElements "m"
              Drop.call sample_drop_call)
    as [node [nodeType [startPos [endPos [_ [_ [_ [_ [Htouch _]]]]]]]]].
  exact Htouch.
Defined.

(** X15, witness: the sample drop has an edge in reach. *)
Lemma splice_requested_iff_edge_in_reach_witness :
  Splice.handleNodeDragEndWrapper
    (nodes Sample.fanOut) Sample.nodeTypes (connections Sample.fanOut)
    Scene.view Drop.portElements "m" <> None /\
  exists node nodeType,
    find (fun n => String.eqb (n_id n) "m") (nodes Sample.fanOut)
    = Some node /\
    Sample.nodeTypes !! n_type node = Some nodeType.
Proof.
  assert (Splice.handleNodeDragEndWrapper
            (nodes Sample.fanOut) Sample.nodeTypes
            (connections Sample.fanOut) Scene.view Drop.portElements "m"
          <> None) as Hcall.
  { rewrite sample_drop_call. discriminate. }
  split; [exact Hcall|].
  destruct (proj1 (splice_requested_iff_edge_in_reach
                     (nodes Sample.fanOut) Sample.nodeTypes
                     (connections Sample.fanOut) Scene.view
                     Drop.portElements "m") Hcall)
    as [node [nodeType [Hnode [Htype _]]]].
  exists node, nodeType. now split.
Defined.

(** ** Node drags *)

Section NodeDrags.
Import History NodeSystem Editor Session.




Lemma undo_commit_present (h : Hist) (s : AppState) :
  present (undo (NodeSystem.set h s false)) = present h.
Proof.
  unfold NodeSystem.set, History.set, defaultMaxHistory. cbv zeta.
  destruct (50 <? length (past h ++ [present h])) eqn:E.
  - destruct (past h) as [|x l] eqn:Epast.
    + cbn in E. discriminate.
    + change (skipn 1 ((x :: l) ++ [present h])) with (l ++ [present h]).
      now rewrite undo_snoc.
  - now rewrite undo_snoc.
Qed.

End NodeDrags.


Section SingleDrag.
Import History NodeSystem Editor Session.
Local Open Scope R_scope.

Lemma withPosition_ext (n : NodeData) (x x' y y' : R) :
  x = x' -> y = y' -> withPosition n x y = withPosition n x' y'.
Proof. now intros -> ->. Qed.

(** X17.  A move of a dragged node, made through the closures of some
    render, when the node is not selected in that render's snapshot or is
    its only selected node: the store's present becomes that snapshot with
    every node of that id at the pointer's position and nothing else
    changed, whatever the present was.  A move addressed to an id that no
    node of the snapshot has changes nothing at all. *)
Theorem single_node_drag_follows_pointer
        (closure : AppState) (id : string) (x y : R) (st : State) :
  (find (fun n => String.eqb (n_id n) id) (nodes closure) = None ->
   nodeMoveFrom closure id x y st = st) /\
  (forall node,
      find (fun n => String.eqb (n_id n) id) (nodes closure) = Some node ->
      isSelected node = false \/
      List.filter isSelected (nodes closure) = [node] ->
      present (history (nodeMoveFrom closure id x y st))
      = {| nodes := map (fun n => if String.eqb (n_id n) id
                                  then withPosition n x y else n)
                        (nodes closure);
           connections := connections closure |}).
Proof.
  split.
  - intros Hnone. unfold nodeMoveFrom, onMove. rewrite Hnone.
    now destruct st.
  - intros node Hfind Hsole.
    assert (n_id node = id) as Hid.
    { apply find_some in Hfind as [_ Heq]. now apply String.eqb_eq. }
    unfold nodeMoveFrom, onMove. rewrite Hfind. cbn [history].
    destruct (isSelected node) eqn:Hsel.
    + destruct Hsole as [Hno|Hsole]; [discriminate|].
      rewrite Hsole. cbn [map fold_left Keyboard.mv_id Keyboard.mv_x
        Keyboard.mv_y].
      unfold handleNodeMove, NodeSystem.set, History.set.
      destruct (isDraggingRef st); cbn [present]; rewrite Hid;
        f_equal; apply map_ext; intros n;
        destruct (String.eqb (n_id n) id); try reflexivity;
        apply withPosition_ext; ring.
    + cbn [fold_left Keyboard.mv_id Keyboard.mv_x Keyboard.mv_y].
      unfold handleNodeMove, NodeSystem.set, History.set.
      now destruct (isDraggingRef st).
Qed.
End SingleDrag.

(** X17, witness: dragging the unselected node [c] of the sample with two
    selected nodes, and a move for an id that is not there. *)
Lemma single_node_drag_follows_pointer_witness :
  let st := Sample.mounted Sample.twoSelected 0 in
  let c := Sample.node "c" "Add" 200 0 None in
  (find (fun n => String.eqb (n_id n) "zz") (nodes Sample.twoSelected)
   = None /\ Session.nodeMoveFrom Sample.twoSelected "zz" 1 1 st = st) /\
  (find (fun n => String.eqb (n_id n) "c") (nodes Sample.twoSelected)
   = Some c /\
   nodes (History.present
            (Editor.history
               (Session.nodeMoveFrom Sample.twoSelected "c" 7 9 st)))
   = [ Sample.node "a" "Add" 0 0 (Some true);
       Sample.node "b" "Add" 100 0 (Some true);
       Sample.node "c" "Add" 7 9 None ]).
Proof.
  intros st c. split.
  - split; [reflexivity|].
    exact (proj1 (single_node_drag_follows_pointer
                    Sample.twoSelected "zz" 1 1 st) eq_refl).
  - split; [reflexivity|].
    rewrite (proj2 (single_node_drag_follows_pointer
                      Sample.twoSelected "c" 7 9 st) c eq_refl
                   (or_introl eq_refl)).
    reflexivity.
Defined.

(** ** The node drag controller *)

Lemma onPointerMove_pressed cfg down deferred moved e :
  NodeDrag.onPointerMove cfg e (NodeDrag.pressed cfg down deferred moved) =
  if (NodeDrag.pointerId e =? NodeDrag.pointerId down)%nat
  then (NodeDrag.pressed cfg down deferred
          (moved || NodeDrag.leavesThreshold down e),
        NodeDrag.follow cfg down e)
  else (NodeDrag.pressed cfg down deferred moved, []).
Proof.
  unfold NodeDrag.onPointerMove, NodeDrag.otherPointer,
    NodeDrag.leavesThreshold, NodeDrag.follow.
  cbn [NodeDrag.pressed NodeDrag.dragging NodeDrag.ds_pointerId negb
       NodeDrag.startX NodeDrag.startY NodeDrag.initX NodeDrag.initY].
  destruct (NodeDrag.pointerId e =? NodeDrag.pointerId down)%nat;
    cbn [negb andb]; [ | reflexivity ].
  destruct (NodeDrag.beyondThreshold _ _); cbn [NodeDrag.initX NodeDrag.initY].
  - rewrite orb_true_r. reflexivity.
  - rewrite orb_false_r. destruct moved; reflexivity.
Qed.

Lemma moves_pressed cfg down deferred evs : forall moved calls,
  NodeDrag.moves cfg evs (NodeDrag.pressed cfg down deferred moved, calls) =
  (NodeDrag.pressed cfg down deferred
     (moved || existsb (NodeDrag.leavesThreshold down) evs),
   calls ++ flat_map (NodeDrag.follow cfg down) (NodeDrag.own down evs)).
Proof.
  unfold NodeDrag.moves.
  induction evs as [ | e evs IH ]; intros moved calls.
  - cbn. rewrite orb_false_r, app_nil_r. reflexivity.
  - cbn [fold_left]. unfold NodeDrag.andThen at 2.
    rewrite onPointerMove_pressed.
    unfold NodeDrag.own. cbn [List.filter existsb].
    unfold NodeDrag.leavesThreshold at 2.
    destruct (NodeDrag.pointerId e =? NodeDrag.pointerId down)%nat eqn:Hp.
    + rewrite IH. unfold NodeDrag.leavesThreshold at 1. rewrite Hp.
      cbn [andb flat_map]. rewrite orb_assoc, <- app_assoc. reflexivity.
    + rewrite IH. cbn [andb orb]. rewrite app_nil_r. reflexivity.
Qed.

Lemma onPointerDown_pressed cfg down :
  NodeDrag.button down = 0%nat ->
  NodeDrag.onPointerDown cfg down NodeDrag.idle =
  (NodeDrag.pressed cfg down (NodeDrag.defers cfg down) false,
   (if NodeDrag.defers cfg down then []
    else [NodeDrag.Select (NodeDrag.nodeId cfg) down])
   ++ [NodeDrag.DragStart (NodeDrag.nodeId cfg)]).
Proof.
  intros Hb. unfold NodeDrag.onPointerDown, NodeDrag.defers. rewrite Hb.
  cbn [Nat.eqb negb].
  destruct (NodeDrag.selected cfg); cbn [negb andb].
  - destruct (NodeDrag.ctrlKey down || NodeDrag.metaKey down
              || NodeDrag.shiftKey down); reflexivity.
  - reflexivity.
Qed.

(** X18 (useNodeDrag): the first press with the primary button on a
    mounted node, any pointer moves, and the release of the same pointer
    make exactly these calls, in this order: the selection at the press
    unless the node is selected and no modifier is held, the drag start,
    one move to
    node position + (pointer - press point) for every move event of the
    pressing pointer (events of other pointers are ignored), the deferred
    selection at the release if the press deferred it and no move left the
    2 pixel threshold, and the drag end.  The node is therefore selected at
    most once per press, and not at all exactly when an already selected
    node is dragged without modifier beyond the threshold. *)
Theorem press_call_sequence cfg down evs up :
  NodeDrag.button down = 0%nat ->
  NodeDrag.pointerId up = NodeDrag.pointerId down ->
  let id := NodeDrag.nodeId cfg in
  let deferred := NodeDrag.defers cfg down in
  let moved := existsb (NodeDrag.leavesThreshold down) evs in
  let calls := snd (NodeDrag.press cfg down evs up) in
  NodeDrag.dragging (fst (NodeDrag.press cfg down evs up)) = false /\
  calls =
    (if deferred then [] else [NodeDrag.Select id down])
    ++ [NodeDrag.DragStart id]
    ++ flat_map (NodeDrag.follow cfg down) (NodeDrag.own down evs)
    ++ (if deferred && negb moved then [NodeDrag.Select id up] else [])
    ++ [NodeDrag.DragEnd id] /\
  (length (List.filter NodeDrag.isSelect calls) <= 1)%nat /\
  (List.filter NodeDrag.isSelect calls = [] <->
   deferred = true /\ moved = true).
Proof.
  intros Hb Hp id deferred moved calls.
  assert (Hpress : NodeDrag.press cfg down evs up =
    ({| NodeDrag.dragging := false;
        NodeDrag.startX := NodeDrag.clientX down;
        NodeDrag.startY := NodeDrag.clientY down;
        NodeDrag.initX := NodeDrag.nodeX cfg;
        NodeDrag.initY := NodeDrag.nodeY cfg;
        NodeDrag.ds_pointerId := Some (NodeDrag.pointerId down);
        NodeDrag.hasMoved := Some moved;
        NodeDrag.selectOnUp := Some deferred |},
     (if deferred then [] else [NodeDrag.Select id down])
     ++ [NodeDrag.DragStart id]
     ++ flat_map (NodeDrag.follow cfg down) (NodeDrag.own down evs)
     ++ (if deferred && negb moved then [NodeDrag.Select id up] else [])
     ++ [NodeDrag.DragEnd id])).
  { unfold NodeDrag.press. rewrite onPointerDown_pressed by exact Hb.
    rewrite moves_pressed. cbn [orb].
    unfold NodeDrag.andThen, NodeDrag.onPointerUp, NodeDrag.otherPointer.
    cbn [NodeDrag.pressed NodeDrag.dragging NodeDrag.ds_pointerId negb
         NodeDrag.startX NodeDrag.startY NodeDrag.initX NodeDrag.initY
         NodeDrag.hasMoved NodeDrag.selectOnUp NodeDrag.truthy].
    rewrite Hp, Nat.eqb_refl. cbn [negb].
    fold deferred moved id.
    rewrite (andb_comm (negb moved) deferred).
    rewrite <- !app_assoc. reflexivity. }
  assert (Hfollow : forall l,
    List.filter NodeDrag.isSelect (flat_map (NodeDrag.follow cfg down) l)
    = []).
  { induction l as [ | e l IH ]; [ reflexivity | ].
    cbn [flat_map]. rewrite List.filter_app, IH. reflexivity. }
  subst calls. rewrite Hpress. cbn [fst snd NodeDrag.dragging].
  split; [ reflexivity | ]. split; [ reflexivity | ].
  rewrite !List.filter_app, Hfollow.
  destruct deferred, moved; cbn; (split; [ lia | ]);
    split; try (intros [? ?]); intros; try discriminate; auto.
Qed.

(** X18, witness: a selected node dragged 5 pixels is not selected again. *)
Lemma press_call_sequence_witness :
  NodeDrag.button (Press.at_ 0 0) = 0%nat /\
  NodeDrag.pointerId (Press.at_ 5 0) = NodeDrag.pointerId (Press.at_ 0 0) /\
  List.filter NodeDrag.isSelect
    (snd (NodeDrag.press Press.cfg (Press.at_ 0 0) [Press.at_ 5 0]
            (Press.at_ 5 0))) = [].
Proof.
  split; [ reflexivity | ]. split; [ reflexivity | ].
  apply (proj2 (proj2 (proj2
    (press_call_sequence Press.cfg (Press.at_ 0 0) [Press.at_ 5 0]
       (Press.at_ 5 0) eq_refl eq_refl)))).
  split; [ reflexivity | ].
  cbn. unfold NodeDrag.beyondThreshold.
  destruct (Rgt_dec (Rabs (5 - 0)) 2) as [ | Hn ]; [ reflexivity | ].
  exfalso. apply Hn. rewrite Rabs_right; lra.
Defined.

(** ** The clipboard shortcuts *)

Lemma mathMin_le_first rest : forall first,
  (Clipboard.mathMin first rest <= first)%R.
Proof.
  unfold Clipboard.mathMin.
  induction rest as [ | r rest IH ]; intros first; cbn [fold_left].
  - lra.
  - eapply Rle_trans; [ apply IH | apply Rmin_l ].
Qed.

Lemma mathMin_le rest : forall first r,
  In r (first :: rest) -> (Clipboard.mathMin first rest <= r)%R.
Proof.
  induction rest as [ | r' rest IH ]; intros first r [ <- | Hin ].
  - apply mathMin_le_first.
  - destruct Hin.
  - apply mathMin_le_first.
  - unfold Clipboard.mathMin. cbn [fold_left].
    fold (Clipboard.mathMin (Rmin first r') rest).
    destruct Hin as [ <- | Hin ].
    + eapply Rle_trans; [ apply mathMin_le_first | apply Rmin_r ].
    + apply IH. right. exact Hin.
Qed.

Lemma mathMin_attained rest : forall first,
  In (Clipboard.mathMin first rest) (first :: rest).
Proof.
  induction rest as [ | r rest IH ]; intros first.
  - left. reflexivity.
  - unfold Clipboard.mathMin. cbn [fold_left].
    fold (Clipboard.mathMin (Rmin first r) rest).
    destruct (IH (Rmin first r)) as [ E | Hin ].
    + rewrite <- E. unfold Rmin. destruct (Rle_dec first r).
      * left. reflexivity.
      * right. left. reflexivity.
    + right. right. exact Hin.
Qed.

Lemma filter_selected_deselected (l : list NodeData) :
  List.filter isSelected (map (fun n => withSelected n false) l) = [].
Proof. induction l as [ | n l IH ]; [ reflexivity | exact IH ]. Qed.

Lemma filter_selected_all (l : list NodeData) :
  Forall (fun n => isSelected n = true) l -> List.filter isSelected l = l.
Proof.
  induction 1 as [ | n l Hn _ IH ]; [ reflexivity | ].
  cbn [List.filter]. rewrite Hn, IH. reflexivity.
Qed.

Lemma paste_rendered newNodes st :
  Editor.rendered (Keys.paste newNodes st) =
  {| nodes := map (fun n => withSelected n false)
                  (nodes (Editor.rendered st))
              ++ map Authoring.withSelection newNodes;
     connections := connections (Editor.rendered st) |}.
Proof. reflexivity. Qed.

Lemma paste_undo newNodes st :
  History.present (History.undo (Editor.history (Keys.paste newNodes st))) =
  {| nodes := map (fun n => withSelected n false)
                  (nodes (Editor.rendered st));
     connections := connections (Editor.rendered st) |}.
Proof.
  unfold Keys.paste, Keys.withHistory, Authoring.handlePasteNodes.
  cbn [Editor.history]. rewrite undo_commit_present. reflexivity.
Qed.

(** X19 (useKeyboardShortcuts paste branch, handlePasteNodes): with a
    non-empty clipboard and a mounted platform, the paste shortcut keeps
    the connections and the clipboard, deselects every node that was there
    and appends one node per clipboard entry.  The appended nodes are
    exactly the selected nodes afterwards; the i-th one carries the i-th
    fresh identifier and the type of the i-th clipboard entry; the
    pasted nodes keep the left-to-right and top-to-bottom order of the
    clipboard entries, none lies left of or above the pointer's world
    position plus 20, and the leftmost and the topmost are exactly there.
    One undo afterwards shows the old nodes, all deselected. *)
Theorem paste_adds_selected_copies
        (v : ConnectionDrag.View) (mouse : Geometry.Point)
        (newNodeId : nat -> string) (e : Keyboard.KeyboardEvent)
        (menu : bool) (st : Keys.State)
        (first : NodeData) (rest : list NodeData)
        (rect : ConnectionDrag.Rect) :
  Keyboard.shortcutOf e menu = Keyboard.PasteClipboard ->
  Keys.clipboardRef st = first :: rest ->
  ConnectionDrag.platformRect v = Some rect ->
  let before := Editor.rendered (Keys.editor st) in
  let st' := Keys.keyDown v mouse newNodeId e menu st in
  let after := Editor.rendered (Keys.editor st') in
  let world := ConnectionDrag.toWorld v rect (Geometry.x mouse)
                                      (Geometry.y mouse) in
  exists pasted : list NodeData,
    nodes after =
      map (fun n => withSelected n false) (nodes before) ++ pasted /\
    connections after = connections before /\
    Keys.clipboardRef st' = Keys.clipboardRef st /\
    List.filter isSelected (nodes after) = pasted /\
    length pasted = length (first :: rest) /\
    (forall i c p,
        (first :: rest) !! i = Some c -> pasted !! i = Some p ->
        n_id p = newNodeId i /\ n_type p = n_type c /\
        (Geometry.x world + 20 <= n_x p)%R /\
        (Geometry.y world + 20 <= n_y p)%R) /\
    (forall i j ci cj pi pj,
        (first :: rest) !! i = Some ci -> pasted !! i = Some pi ->
        (first :: rest) !! j = Some cj -> pasted !! j = Some pj ->
        ((n_x ci <= n_x cj)%R -> (n_x pi <= n_x pj)%R) /\
        ((n_y ci <= n_y cj)%R -> (n_y pi <= n_y pj)%R)) /\
    (exists p, In p pasted /\ n_x p = (Geometry.x world + 20)%R) /\
    (exists p, In p pasted /\ n_y p = (Geometry.y world + 20)%R) /\
    History.present (History.undo (Editor.history (Keys.editor st'))) =
      {| nodes := map (fun n => withSelected n false) (nodes before);
         connections := connections before |}.
Proof.
  intros Hkey Hclip Hrect before st' after world.
  set (minX := Clipboard.mathMin (n_x first) (map n_x rest)).
  set (minY := Clipboard.mathMin (n_y first) (map n_y rest)).
  set (f := fun (i : nat) (node : NodeData) =>
              Clipboard.pastedNode node (newNodeId i)
                (Geometry.x world + (n_x node - minX) + 20)
                (Geometry.y world + (n_y node - minY) + 20)).
  assert (Hst' : st' =
    {| Keys.editor := Keys.paste (imap f (first :: rest)) (Keys.editor st);
       Keys.clipboardRef := Keys.clipboardRef st |}).
  { subst st'. unfold Keys.keyDown. rewrite Hkey, Hclip.
    unfold Clipboard.pasteBranch. rewrite Hrect. reflexivity. }
  assert (Hlook : forall i p,
    (map Authoring.withSelection (imap f (first :: rest))) !! i = Some p ->
    exists c, (first :: rest) !! i = Some c /\
              p = Authoring.withSelection (f i c)).
  { intros i p Hp.
    change (map Authoring.withSelection (imap f (first :: rest)))
      with (Authoring.withSelection <$> imap f (first :: rest)) in Hp.
    rewrite list_lookup_fmap, list_lookup_imap in Hp.
    destruct ((first :: rest) !! i) as [ c | ]; [ | discriminate ].
    exists c. split; [ reflexivity | ]. cbn in Hp. congruence. }
  assert (HminX : forall c, In c (first :: rest) -> (minX <= n_x c)%R).
  { intros c Hc. apply mathMin_le.
    change (n_x first :: map n_x rest) with (map n_x (first :: rest)).
    apply in_map. exact Hc. }
  assert (HminY : forall c, In c (first :: rest) -> (minY <= n_y c)%R).
  { intros c Hc. apply mathMin_le.
    change (n_y first :: map n_y rest) with (map n_y (first :: rest)).
    apply in_map. exact Hc. }
  assert (Hin : forall i c, (first :: rest) !! i = Some c ->
                            In c (first :: rest)).
  { intros i c Hc. apply list_elem_of_In. eapply list_elem_of_lookup_2.
    exact Hc. }
  assert (Hpasted : forall c, In c (first :: rest) -> exists i,
    (first :: rest) !! i = Some c /\
    In (Authoring.withSelection (f i c))
       (map Authoring.withSelection (imap f (first :: rest)))).
  { intros c Hc. apply list_elem_of_In, list_elem_of_lookup_1 in Hc.
    destruct Hc as [i Hi]. exists i. split; [ exact Hi | ].
    apply in_map. apply list_elem_of_In.
    apply (list_elem_of_lookup_2 _ i). rewrite list_lookup_imap, Hi.
    reflexivity. }
  exists (map Authoring.withSelection (imap f (first :: rest))).
  subst after. rewrite Hst'. cbn [Keys.editor Keys.clipboardRef].
  rewrite paste_rendered. cbn [nodes connections].
  split; [ reflexivity | ]. split; [ reflexivity | ].
  split; [ reflexivity | ]. split.
  { rewrite List.filter_app, filter_selected_deselected. cbn [app].
    apply filter_selected_all. apply List.Forall_forall.
    intros p Hp. apply list_elem_of_In, list_elem_of_lookup_1 in Hp.
    destruct Hp as [i Hp]. apply Hlook in Hp.
    destruct Hp as [c [_ ->]]. reflexivity. }
  split.
  { rewrite length_map, length_imap. reflexivity. }
  split.
  { intros i c p Hc Hp. apply Hlook in Hp. destruct Hp as [c' [Hc' ->]].
    assert (c' = c) as -> by congruence.
    pose proof (HminX c (Hin i c Hc)). pose proof (HminY c (Hin i c Hc)).
    cbn. repeat split; lra. }
  split.
  { intros i j ci cj pi pj Hci Hpi Hcj Hpj.
    apply Hlook in Hpi. destruct Hpi as [c [Hc ->]].
    assert (c = ci) as -> by congruence.
    apply Hlook in Hpj. destruct Hpj as [c [Hc' ->]].
    assert (c = cj) as -> by congruence.
    cbn. split; intros Hle; lra. }
  split.
  { pose proof (mathMin_attained (map n_x rest) (n_x first)) as Hat.
    change (n_x first :: map n_x rest) with (map n_x (first :: rest)) in Hat.
    apply in_map_iff in Hat. destruct Hat as [c [Hx Hc]].
    destruct (Hpasted c Hc) as [i [_ Hp]].
    eexists. split; [ exact Hp | ]. cbn. fold minX in Hx. lra. }
  split.
  { pose proof (mathMin_attained (map n_y rest) (n_y first)) as Hat.
    change (n_y first :: map n_y rest) with (map n_y (first :: rest)) in Hat.
    apply in_map_iff in Hat. destruct Hat as [c [Hy Hc]].
    destruct (Hpasted c Hc) as [i [_ Hp]].
    eexists. split; [ exact Hp | ]. cbn. fold minY in Hy. lra. }
  apply paste_undo.
Qed.

(** X19, witness: two clipboard entries pasted into the chain. *)
Lemma paste_adds_selected_copies_witness :
  let st := Desk.holding Sample.chain
              [ Sample.node "x" "Add" 30 40 None;
                Sample.node "y" "Not" 10 70 None ] in
  let st' := Keys.keyDown Scene.view (Scene.at_ 500 300) Desk.newNodeId
                          (Desk.ctrl "v") false st in
  Keyboard.shortcutOf (Desk.ctrl "v") false = Keyboard.PasteClipboard /\
  length (List.filter isSelected
            (nodes (Editor.rendered (Keys.editor st')))) = 2%nat.
Proof.
  intros st st'. split; [ reflexivity | ].
  destruct (paste_adds_selected_copies Scene.view (Scene.at_ 500 300)
              Desk.newNodeId (Desk.ctrl "v") false st
              (Sample.node "x" "Add" 30 40 None)
              [Sample.node "y" "Not" 10 70 None]
              {| ConnectionDrag.left := 0; ConnectionDrag.top := 0 |}
              eq_refl eq_refl eq_refl)
    as [pasted [_ [_ [_ [Hsel [Hlen _]]]]]].
  cbv zeta in Hsel. fold st in Hsel. fold st' in Hsel.
  rewrite Hsel. exact Hlen.
Defined.

Lemma selected_ids_include (ns : list NodeData) (n : NodeData) :
  Spec.uniqueIds ns -> In n ns ->
  includes (map n_id (Clipboard.selectedNodes ns)) (n_id n) = isSelected n.
Proof.
  intros Huniq Hn.
  destruct (isSelected n) eqn:Hsel.
  - apply includes_In. apply in_map. apply filter_In. tauto.
  - destruct (includes _ _) eqn:Hinc; [ | reflexivity ].
    apply includes_In, in_map_iff in Hinc.
    destruct Hinc as [m [Hid Hm]]. apply filter_In in Hm.
    destruct Hm as [Hm Hmsel].
    assert (m = n) as ->
      by (eapply unique_id_determines_node; eassumption).
    congruence.
Qed.

Lemma filter_selected_none_id (ns : list NodeData) :
  Clipboard.selectedNodes ns = [] ->
  List.filter (fun n => negb (isSelected n)) ns = ns.
Proof.
  unfold Clipboard.selectedNodes.
  induction ns as [ | n ns IH ]; [ reflexivity | ].
  cbn [List.filter]. destruct (isSelected n); [ discriminate | ].
  intros H. cbn [negb]. rewrite IH by exact H. reflexivity.
Qed.

Lemma deleteBranch_None (ns : list NodeData) :
  Clipboard.deleteBranch ns = None <-> Clipboard.selectedNodes ns = [].
Proof.
  unfold Clipboard.deleteBranch.
  destruct (Clipboard.selectedNodes ns); cbn; split; congruence.
Qed.

Lemma deleteBranch_Some (ns : list NodeData) ids :
  Clipboard.deleteBranch ns = Some ids ->
  ids = map n_id (Clipboard.selectedNodes ns).
Proof.
  unfold Clipboard.deleteBranch.
  destruct (0 <? _)%nat; congruence.
Qed.

(** The state after the selected nodes, if any, were handed to
    [onNodeDelete]. *)
Lemma delete_selected_rendered (st : Editor.State) :
  let before := Editor.rendered st in
  let after :=
    Editor.rendered
      match Clipboard.deleteBranch (nodes before) with
      | Some ids => Editor.nodeDelete (NodeSystem.DelMany ids) st
      | None => st
      end in
  Spec.uniqueIds (nodes before) ->
  nodes after = List.filter (fun n => negb (isSelected n)) (nodes before) /\
  (forall c, In c (connections after) <->
             In c (connections before) /\
             forall n, In n (nodes before) -> isSelected n = true ->
                       n_id n <> nodeId (from c) /\
                       n_id n <> nodeId (to c)).
Proof.
  intros before after Huniq. subst after.
  destruct (Clipboard.deleteBranch (nodes before)) as [ ids | ] eqn:Hd.
  - apply deleteBranch_Some in Hd. subst ids. split.
    + unfold Editor.rendered, Editor.nodeDelete,
        NodeSystem.handleNodeDelete, NodeSystem.set, History.set.
      cbn [Editor.history History.present nodes].
      apply filter_ext_in. intros n Hn. fold before.
      rewrite selected_ids_include by assumption. reflexivity.
    + intros c. unfold Editor.rendered at 1, Editor.nodeDelete.
      cbn [Editor.history]. rewrite delete_connections_In.
      cbn [Spec.deleted]. fold before.
      split.
      * intros [Hin [Hf Ht]]. split; [ exact Hin | ].
        intros n Hn Hsel. split; intros Hid.
        -- apply Hf. rewrite <- Hid. apply in_map. apply filter_In. tauto.
        -- apply Ht. rewrite <- Hid. apply in_map. apply filter_In. tauto.
      * intros [Hin Hall]. split; [ exact Hin | ].
        split; intros Hid; apply in_map_iff in Hid;
          destruct Hid as [n [Hid Hn]]; apply filter_In in Hn;
          destruct Hn as [Hn Hsel]; destruct (Hall n Hn Hsel); congruence.
  - apply deleteBranch_None in Hd. split.
    + symmetry. apply filter_selected_none_id. exact Hd.
    + intros c. split; [ | tauto ].
      intros Hin. split; [ exact Hin | ].
      intros n Hn Hsel. exfalso.
      assert (In n (Clipboard.selectedNodes (nodes before)))
        by (apply filter_In; tauto).
      rewrite Hd in H. destruct H.
Qed.

Lemma noDangling_after_delete (st : Editor.State) ids :
  Spec.noDangling (Editor.rendered st) ->
  Spec.noDangling
    (Editor.rendered (Editor.nodeDelete (NodeSystem.DelMany ids) st)).
Proof.
  intros Hnd c Hc. unfold Editor.rendered, Editor.nodeDelete in *.
  cbn [Editor.history] in *.
  apply delete_connections_In in Hc. destruct Hc as [Hin [Hf Ht]].
  destruct (Hnd c Hin) as [[a [Ha Hida]] [b [Hb Hidb]]].
  split; [ exists a | exists b ]; (split; [ | assumption ]);
    apply delete_nodes_In; (split; [ assumption | ]); congruence.
Qed.

(** X20 (useKeyboardShortcuts delete branch, handleNodeDelete): in a graph
    with unique node ids, Delete or Backspace leaves exactly the nodes that
    were not selected, in their order, and exactly the connections that
    touch no selected node; a graph without dangling connections stays so;
    the clipboard is kept.  With nothing selected the key changes nothing,
    not even the history; otherwise the deletion is one history entry and
    one undo shows the graph as it was. *)
Theorem delete_key_removes_selection
        (v : ConnectionDrag.View) (mouse : Geometry.Point)
        (newNodeId : nat -> string) (e : Keyboard.KeyboardEvent)
        (menu : bool) (st : Keys.State) :
  Keyboard.shortcutOf e menu = Keyboard.DeleteSelected ->
  Spec.uniqueIds (nodes (Editor.rendered (Keys.editor st))) ->
  let before := Editor.rendered (Keys.editor st) in
  let st' := Keys.keyDown v mouse newNodeId e menu st in
  let after := Editor.rendered (Keys.editor st') in
  nodes after = List.filter (fun n => negb (isSelected n)) (nodes before) /\
  (forall c, In c (connections after) <->
             In c (connections before) /\
             forall n, In n (nodes before) -> isSelected n = true ->
                       n_id n <> nodeId (from c) /\
                       n_id n <> nodeId (to c)) /\
  (Spec.noDangling before -> Spec.noDangling after) /\
  Keys.clipboardRef st' = Keys.clipboardRef st /\
  (Clipboard.selectedNodes (nodes before) = [] -> st' = st) /\
  (Clipboard.selectedNodes (nodes before) <> [] ->
   History.present (History.undo (Editor.history (Keys.editor st')))
   = before).
Proof.
  intros Hkey Huniq before st' after.
  assert (Hst' : Keys.editor st' =
    match Clipboard.deleteBranch (nodes before) with
    | Some ids => Editor.nodeDelete (NodeSystem.DelMany ids) (Keys.editor st)
    | None => Keys.editor st
    end /\ Keys.clipboardRef st' = Keys.clipboardRef st).
  { subst st'. unfold Keys.keyDown. rewrite Hkey. fold before.
    destruct (Clipboard.deleteBranch (nodes before)); split; reflexivity. }
  destruct Hst' as [Hed Hclip].
  pose proof (delete_selected_rendered (Keys.editor st) Huniq) as Hr.
  cbv zeta in Hr. fold before in Hr. rewrite <- Hed in Hr. fold after in Hr.
  destruct Hr as [Hnodes Hconns].
  split; [ exact Hnodes | ]. split; [ exact Hconns | ].
  split.
  { intros Hnd. subst after. rewrite Hed.
    destruct (Clipboard.deleteBranch (nodes before));
      [ apply noDangling_after_delete | ]; exact Hnd. }
  split; [ exact Hclip | ]. split.
  - intros Hnone. apply deleteBranch_None in Hnone.
    subst st'. unfold Keys.keyDown. rewrite Hkey. fold before.
    rewrite Hnone. reflexivity.
  - intros Hsome. rewrite Hed.
    destruct (Clipboard.deleteBranch (nodes before)) eqn:Hd.
    + unfold Editor.nodeDelete, NodeSystem.handleNodeDelete.
      cbn [Editor.history]. rewrite undo_commit_present. reflexivity.
    + apply deleteBranch_None in Hd. contradiction.
Qed.

(** X20, witness: Delete on the graph with [a] and [b] selected. *)
Lemma delete_key_removes_selection_witness :
  let st := Desk.holding Desk.wiredSelection [] in
  let st' := Keys.keyDown Scene.view (Scene.at_ 0 0) Desk.newNodeId
                          (Desk.plain "Delete") false st in
  Keyboard.shortcutOf (Desk.plain "Delete") false
    = Keyboard.DeleteSelected /\
  Spec.uniqueIds (nodes (Editor.rendered (Keys.editor st))) /\
  nodes (Editor.rendered (Keys.editor st'))
    = List.filter (fun n => negb (isSelected n))
                  (nodes (Editor.rendered (Keys.editor st))).
Proof.
  intros st st'.
  assert (Huniq : Spec.uniqueIds (nodes (Editor.rendered (Keys.editor st)))).
  { unfold Spec.uniqueIds. cbn.
    repeat (apply List.NoDup_cons; [ cbn; intuition discriminate | ]).
    apply List.NoDup_nil. }
  split; [ reflexivity | ]. split; [ exact Huniq | ].
  exact (proj1 (delete_key_removes_selection Scene.view (Scene.at_ 0 0)
                  Desk.newNodeId (Desk.plain "Delete") false st
                  eq_refl Huniq)).
Defined.

(** X21 (useKeyboardShortcuts copy and cut branches): the copy shortcut
    never changes the editor; with a selection it replaces the clipboard
    by one deselected copy of every selected node, in order, and with no
    selection it keeps the clipboard.  The cut shortcut has the effect of
    the copy shortcut followed by the Delete key. *)
Theorem cut_is_copy_then_delete
        (v : ConnectionDrag.View) (mouse : Geometry.Point)
        (newNodeId : nat -> string)
        (copy cut del : Keyboard.KeyboardEvent) (menu : bool)
        (st : Keys.State) :
  Keyboard.shortcutOf copy menu = Keyboard.CopySelected ->
  Keyboard.shortcutOf cut menu = Keyboard.CutSelected ->
  Keyboard.shortcutOf del menu = Keyboard.DeleteSelected ->
  let key := Keys.keyDown v mouse newNodeId in
  let selected :=
    Clipboard.selectedNodes (nodes (Editor.rendered (Keys.editor st))) in
  Keys.editor (key copy menu st) = Keys.editor st /\
  (selected <> [] ->
   Keys.clipboardRef (key copy menu st)
   = map (fun n => withSelected n false) selected) /\
  (selected = [] ->
   Keys.clipboardRef (key copy menu st) = Keys.clipboardRef st) /\
  key cut menu st = key del menu (key copy menu st).
Proof.
  intros Hcopy Hcut Hdel key selected.
  subst key. unfold Keys.keyDown. rewrite Hcopy, Hcut, Hdel.
  cbn [Keys.editor Keys.clipboardRef].
  unfold Clipboard.copyBranch, Clipboard.cutBranch, Clipboard.deleteBranch.
  fold selected.
  destruct selected as [ | s l ] eqn:Hsel; cbn [length Nat.ltb Nat.leb].
  - repeat split; try reflexivity; try congruence;
      destruct st; reflexivity.
  - repeat split; try reflexivity; congruence.
Qed.

(** X21, witness: ctrl+x against ctrl+c and Delete on the same graph. *)
Lemma cut_is_copy_then_delete_witness :
  let key := Keys.keyDown Scene.view (Scene.at_ 0 0) Desk.newNodeId in
  let st := Desk.holding Desk.wiredSelection [] in
  Keyboard.shortcutOf (Desk.ctrl "c") false = Keyboard.CopySelected /\
  Keyboard.shortcutOf (Desk.ctrl "x") false = Keyboard.CutSelected /\
  Keyboard.shortcutOf (Desk.plain "Delete") false
    = Keyboard.DeleteSelected /\
  key (Desk.ctrl "x") false st
    = key (Desk.plain "Delete") false (key (Desk.ctrl "c") false st).
Proof.
  intros key st. repeat (split; [ reflexivity | ]).
  exact (proj2 (proj2 (proj2
    (cut_is_copy_then_delete Scene.view (Scene.at_ 0 0) Desk.newNodeId
       (Desk.ctrl "c") (Desk.ctrl "x") (Desk.plain "Delete") false st
       eq_refl eq_refl eq_refl)))).
Defined.

(** ** Box selection *)

Lemma pushed_In (a b : Geometry.Point) el id :
  In id (SelectionBox.pushed
           (Rmin (Geometry.x a) (Geometry.x b))
           (Rmin (Geometry.y a) (Geometry.y b))
           (Rmax (Geometry.x a) (Geometry.x b))
           (Rmax (Geometry.y a) (Geometry.y b)) el) <->
  SelectionBox.hits el id a b.
Proof.
  unfold SelectionBox.pushed, SelectionBox.hits, SelectionBox.overlaps,
    SelectionBox.lt, SelectionBox.gt, ConnectionDrag.falsy,
    ConnectionDrag.orEmpty.
  destruct (Rlt_dec _ _); destruct (Rgt_dec _ _); destruct (Rlt_dec _ _);
    destruct (Rgt_dec _ _); cbn [orb negb];
    try (split; [ intros [] | intros [_ [_ H]]; lra ]).
  destruct (SelectionBox.dataId el) as [ s | ].
  - destruct (String.eqb s "") eqn:Hs.
    + apply String.eqb_eq in Hs. subst s.
      split; [ intros [] | intros [E [Hne _]]; congruence ].
    + apply String.eqb_neq in Hs. split.
      * intros [ <- | [] ]. repeat split; try assumption; lra.
      * intros [E _]. left. congruence.
  - split; [ intros [] | intros [E _]; discriminate ].
Qed.

Lemma up_None (a : Geometry.Point) platform ev :
  fst (SelectionBox.up a platform ev) = None <->
  forall els el id, platform = Some els -> In el els ->
                    ~ SelectionBox.hits el id a (SelectionBox.at_ ev).
Proof.
  unfold SelectionBox.up. cbn [fst].
  destruct platform as [ els | ].
  - set (ids := flat_map _ els).
    assert (Hids : forall id, In id ids <->
      exists el, In el els /\
                 SelectionBox.hits el id a (SelectionBox.at_ ev)).
    { intros id. subst ids. rewrite in_flat_map.
      split; intros [el [Hel H]]; exists el; (split; [ exact Hel | ]);
        apply (pushed_In a (SelectionBox.at_ ev)); exact H. }
    destruct ids as [ | id ids ]; cbn [length Nat.ltb Nat.leb].
    + split; [ | reflexivity ].
      intros _ els' el id [= <-] Hel Hhit.
      apply (proj2 (Hids id)). exists el. split; assumption.
    + split; [ discriminate | ].
      intros Hno. exfalso.
      destruct (proj1 (Hids id) (or_introl eq_refl)) as [el [Hel Hhit]].
      exact (Hno els el id eq_refl Hel Hhit).
  - split; [ | reflexivity ]. intros _ els el id [=].
Qed.

Lemma up_Some (a : Geometry.Point) platform ev ids :
  fst (SelectionBox.up a platform ev) = Some ids ->
  forall id, In id ids <->
             exists els el, platform = Some els /\ In el els /\
                            SelectionBox.hits el id a (SelectionBox.at_ ev).
Proof.
  unfold SelectionBox.up. cbn [fst].
  destruct platform as [ els | ]; [ | discriminate ].
  destruct (0 <? _)%nat; [ | discriminate ].
  intros [= <-] id. rewrite in_flat_map. split.
  - intros [el [Hel H]]. exists els, el.
    split; [ reflexivity | ]. split; [ exact Hel | ].
    apply (pushed_In a (SelectionBox.at_ ev)). exact H.
  - intros [els' [el [[= <-] [Hel H]]]]. exists el.
    split; [ exact Hel | ].
    apply (pushed_In a (SelectionBox.at_ ev)). exact H.
Qed.

(** X22 (NodePlatform onPointerDown, useSelectionBox, handleNodeSelect):
    a press with the primary button and shift on the platform and the
    release that ends its box select by overlap.  The box is the one
    spanned by the two pointer positions, whichever corner the drag started
    from.  The press clears the warning, and a release over the platform
    clears the wire gesture.  Beyond that, if no node element with a
    non-empty data-id overlaps the box, the editor is left as it is (the
    previous selection is kept); otherwise every node is selected exactly
    when its id is the data-id of an overlapping element, nothing else
    about the nodes or the connections changes, and the undo and redo
    stacks are as before.  The rubber band is cleared in both cases. *)
Theorem box_selection_selects_overlapped
        (platform : option (list SelectionBox.NodeElement))
        (down ev : SelectionBox.PointerEvent) (st : Editor.State) :
  SelectionBox.button down = 0%nat ->
  SelectionBox.shiftKey down = true ->
  let a := SelectionBox.at_ down in
  let b := SelectionBox.at_ ev in
  let hit id := exists els el, platform = Some els /\ In el els /\
                               SelectionBox.hits el id a b in
  let st' := SelectionBox.drag platform down ev st in
  fst (SelectionBox.up a platform ev) = fst (SelectionBox.up b platform down)
  /\
  snd (SelectionBox.up a platform ev) = None /\
  ConnectionDrag.warningMessage (Editor.gesture st') = None /\
  (SelectionBox.overPlatform ev = true ->
   ConnectionDrag.newConnection (Editor.gesture st') = None /\
   ConnectionDrag.connectionPreview (Editor.gesture st') = None) /\
  (SelectionBox.overPlatform ev = false ->
   ConnectionDrag.newConnection (Editor.gesture st')
   = ConnectionDrag.newConnection (Editor.gesture st) /\
   ConnectionDrag.connectionPreview (Editor.gesture st')
   = ConnectionDrag.connectionPreview (Editor.gesture st)) /\
  ((forall id, ~ hit id) -> st' = SelectionBox.settled ev st) /\
  ((exists id, hit id) ->
   Forall2 (fun n n' => exists s, n' = withSelected n s /\
                                  (s = true <-> hit (n_id n)))
           (nodes (Editor.rendered st)) (nodes (Editor.rendered st')) /\
   connections (Editor.rendered st') = connections (Editor.rendered st) /\
   History.past (Editor.history st') = History.past (Editor.history st) /\
   History.future (Editor.history st')
   = History.future (Editor.history st)).
Proof.
  intros Hbutton Hshift a b hit st'.
  split.
  { unfold SelectionBox.up. subst a b. cbn [fst SelectionBox.at_
      Geometry.x Geometry.y].
    rewrite (Rmin_comm (SelectionBox.clientX ev)),
      (Rmin_comm (SelectionBox.clientY ev)),
      (Rmax_comm (SelectionBox.clientX ev)),
      (Rmax_comm (SelectionBox.clientY ev)).
    reflexivity. }
  split; [ reflexivity | ].
  assert (Hst' : st' =
    match fst (SelectionBox.up a platform ev) with
    | Some ids =>
        Editor.nodeSelect (NodeSystem.SelMany ids)
          (Some {| NodeSystem.pe_ctrlKey := SelectionBox.ctrlKey ev;
                   NodeSystem.pe_metaKey := SelectionBox.metaKey ev |})
          (SelectionBox.settled ev st)
    | None => SelectionBox.settled ev st
    end).
  { subst st'. unfold SelectionBox.drag, SelectionBox.onPointerDown,
      SelectionBox.handleSelectionStart, SelectionBox.settled.
    rewrite Hbutton, Hshift. reflexivity. }
  assert (Hgesture : Editor.gesture st'
                     = Editor.gesture (SelectionBox.settled ev st)).
  { rewrite Hst'. destruct (fst (SelectionBox.up a platform ev));
      reflexivity. }
  rewrite Hgesture. unfold SelectionBox.settled.
  split.
  { destruct (SelectionBox.overPlatform ev); reflexivity. }
  split.
  { intros ->. split; reflexivity. }
  split.
  { intros ->. split; reflexivity. }
  fold (SelectionBox.settled ev st).
  split.
  - intros Hno. rewrite Hst'.
    assert (fst (SelectionBox.up a platform ev) = None) as ->.
    { apply up_None. intros els el id Hp Hel Hhit.
      apply (Hno id). exists els, el. tauto. }
    reflexivity.
  - intros [id0 Hhit0].
    destruct (fst (SelectionBox.up a platform ev)) as [ ids | ] eqn:Hup.
    + pose proof (up_Some a platform ev ids Hup) as Hids.
      assert (Hmap : forall ns,
        Forall2 (fun n n' => exists s, n' = withSelected n s /\
                                       (s = true <-> hit (n_id n)))
                ns (map (fun n => withSelected n (includes ids (n_id n)))
                        ns)).
      { induction ns as [ | n ns IH ]; cbn [map]; constructor;
          [ | exact IH ].
        exists (includes ids (n_id n)). split; [ reflexivity | ].
        rewrite includes_In. apply Hids. }
      rewrite Hst'. unfold SelectionBox.settled.
      destruct (SelectionBox.overPlatform ev);
        (split; [ apply Hmap | repeat split ]).
    + exfalso. destruct Hhit0 as [els [el [Hp [Hel Hh]]]].
      exact (proj1 (up_None a platform ev) Hup els el id0 Hp Hel Hh).
Qed.

(** X22, witness: the same box dragged from either corner, over an editor
    that shows a warning. *)
Lemma box_selection_selects_overlapped_witness :
  SelectionBox.button (Band.shiftAt 10 10) = 0%nat /\
  SelectionBox.shiftKey (Band.shiftAt 10 10) = true /\
  fst (SelectionBox.up (SelectionBox.at_ (Band.shiftAt 10 10))
                       Band.platform (Band.shiftAt 120 30))
  = fst (SelectionBox.up (SelectionBox.at_ (Band.shiftAt 120 30))
                         Band.platform (Band.shiftAt 10 10)) /\
  ConnectionDrag.warningMessage
    (Editor.gesture
       (SelectionBox.drag Band.platform (Band.shiftAt 10 10)
                          (Band.shiftAt 120 30) Band.warned)) = None.
Proof.
  split; [ reflexivity | ]. split; [ reflexivity | ].
  pose proof (box_selection_selects_overlapped Band.platform
                (Band.shiftAt 10 10) (Band.shiftAt 120 30)
                Band.warned eq_refl eq_refl) as H.
  cbv zeta in H.
  split; [ exact (proj1 H) | exact (proj1 (proj2 (proj2 H))) ].
Defined.

(** ** Click selection *)





(** ** Port values *)

Lemma valueChange_rendered id portName value st :
  Editor.rendered (Widgets.valueChange id portName value st) =
  {| nodes := map (fun n => if String.eqb (n_id n) id
                            then Authoring.withValue n portName value
                            else n)
                  (nodes (Editor.rendered st));
     connections := connections (Editor.rendered st) |}.
Proof. reflexivity. Qed.

(** X24 (handleNodeValueChange): editing a port value changes, in every
    node with the given id, the value stored under that port name and
    nothing else (other ports, position, type and selection are kept);
    nodes with another id and the connections are untouched.  Edits of two
    different ports give the same graph in either order, a second edit of
    the same port overwrites the first, and one undo after an edit shows
    the graph before it. *)
Theorem value_edit_is_local_and_undoable
        (id portName portName' : string) (value value' : JsValue)
        (st : Editor.State) :
  let before := Editor.rendered st in
  let edit := Widgets.valueChange id in
  Forall2 (fun n n' =>
             (n_id n <> id -> n' = n) /\
             (n_id n = id ->
              (exists data, n_data n' = Some data /\
                            data !! portName = Some value /\
                            forall q, q <> portName ->
                                      data !! q
                                      = default ∅ (n_data n) !! q) /\
              n_id n' = n_id n /\ n_type n' = n_type n /\
              n_x n' = n_x n /\ n_y n' = n_y n /\
              n_width n' = n_width n /\ n_height n' = n_height n /\
              n_selected n' = n_selected n))
          (nodes before)
          (nodes (Editor.rendered (edit portName value st))) /\
  connections (Editor.rendered (edit portName value st))
  = connections before /\
  (portName <> portName' ->
   Editor.rendered (edit portName value (edit portName' value' st))
   = Editor.rendered (edit portName' value' (edit portName value st))) /\
  Editor.rendered (edit portName value (edit portName value' st))
  = Editor.rendered (edit portName value st) /\
  History.present
    (History.undo (Editor.history (edit portName value st))) = before.
Proof.
  intros before edit. subst edit.
  rewrite !valueChange_rendered. cbn [nodes connections]. fold before.
  split; [ | split; [ reflexivity | ] ].
  { induction (nodes before) as [ | n ns IH ]; cbn [map]; constructor;
      [ | exact IH ].
    destruct (String.eqb (n_id n) id) eqn:E.
    - apply String.eqb_eq in E. split; [ congruence | ]. intros _.
      split; [ | repeat split ].
      eexists. split; [ reflexivity | ]. split.
      + apply lookup_insert_eq.
      + intros q Hq. apply lookup_insert_ne. congruence.
    - apply String.eqb_neq in E. split; [ reflexivity | congruence ]. }
  split; [ | split ].
  - intros Hne. f_equal. rewrite !map_map. apply map_ext. intros n.
    destruct (String.eqb (n_id n) id) eqn:E.
    + cbn [Authoring.withValue n_id]. rewrite E.
      unfold Authoring.withValue. cbn [n_id n_type n_x n_y n_width
        n_height n_data n_selected default].
      f_equal. f_equal. apply insert_insert_ne. exact Hne.
    + rewrite E. reflexivity.
  - f_equal. rewrite !map_map. apply map_ext. intros n.
    destruct (String.eqb (n_id n) id) eqn:E.
    + cbn [Authoring.withValue n_id]. rewrite E.
      unfold Authoring.withValue. cbn [n_id n_type n_x n_y n_width
        n_height n_data n_selected default].
      f_equal. f_equal. apply insert_insert_eq.
    + rewrite E. reflexivity.
  - unfold Widgets.valueChange, Keys.withHistory,
      Authoring.handleNodeValueChange.
    cbn [Editor.history]. rewrite undo_commit_present. reflexivity.
Qed.

(** X24, witness: the ports [A] and [B] of [b] edited in either order. *)
Lemma value_edit_is_local_and_undoable_witness :
  let st := Sample.mounted Sample.chain 2 in
  let edit := Widgets.valueChange "b" in
  "A"%string <> "B"%string /\
  Editor.rendered (edit "A" (JsNumber 1) (edit "B" (JsNumber 2) st))
  = Editor.rendered (edit "B" (JsNumber 2) (edit "A" (JsNumber 1) st)).
Proof.
  intros st edit.
  assert (Hne : "A"%string <> "B"%string) by discriminate.
  split; [ exact Hne | ].
  exact (proj1 (proj2 (proj2
    (value_edit_is_local_and_undoable "b" "A" "B" (JsNumber 1) (JsNumber 2)
       st))) Hne).
Defined.

(** ** Edits keep a valid graph valid *)

Section EditsKeepValid.
Variable nodeTypes : gmap string NodeTypeDef.



Lemma NoDup_map_filter {A B : Type} (f : A -> B) (keep : A -> bool)
      (l : list A) :
  List.NoDup (map f l) -> List.NoDup (map f (List.filter keep l)).
Proof.
  induction l as [ | a l IH ]; cbn [map List.filter]; intros Hnd;
    [ exact Hnd | ].
  inversion Hnd as [ | ? ? Hnotin Hrest ]; subst.
  destruct (keep a); [ | exact (IH Hrest) ].
  cbn [map]. apply List.NoDup_cons; [ | exact (IH Hrest) ].
  intros Hin. apply Hnotin. apply in_map_iff in Hin.
  destruct Hin as [x [Hx Hin]]. apply filter_In in Hin.
  apply in_map_iff. exists x. tauto.
Qed.











End EditsKeepValid.


(** ** Node identifiers stay unique *)

Lemma ids_map (g : NodeData -> NodeData) (ns : list NodeData) :
  (forall n, n_id (g n) = n_id n) -> map n_id (map g ns) = map n_id ns.
Proof.
  intros Hg. rewrite map_map. apply map_ext. exact Hg.
Qed.

Lemma pasted_ids (f : nat -> NodeData -> NodeData)
      (newNodeId : nat -> string) (clipboard : list NodeData) :
  (forall i c, n_id (f i c) = newNodeId i) ->
  map n_id (map Authoring.withSelection (imap f clipboard))
  = map newNodeId (seq 0 (length clipboard)).
Proof.
  intros Hf. rewrite map_map.
  change (map (fun x => n_id (Authoring.withSelection x)) (imap f clipboard))
    with ((fun x => n_id (Authoring.withSelection x)) <$> imap f clipboard).
  rewrite fmap_imap.
  rewrite (imap_ext _ (fun j _ => newNodeId j)).
  - apply imap_seq_0.
  - intros i c _. cbn. apply Hf.
Qed.

Lemma fresh_ids_unique (newNodeId : nat -> string) (len : nat)
      (ids : list string) :
  List.NoDup ids ->
  (forall i j, i < len -> j < len -> newNodeId i = newNodeId j -> i = j) ->
  (forall i, i < len -> ~ In (newNodeId i) ids) ->
  List.NoDup (ids ++ map newNodeId (seq 0 len)).
Proof.
  intros Hids Hinj Hfresh. apply List.NoDup_app.
  - exact Hids.
  - apply Finite.Injective_map_NoDup_in; [ | apply seq_NoDup ].
    intros i j Hi Hj. apply in_seq in Hi. apply in_seq in Hj.
    apply Hinj; lia.
  - intros a Ha Hnew. apply in_map_iff in Hnew.
    destruct Hnew as [i [<- Hi]]. apply in_seq in Hi.
    apply (Hfresh i); [ lia | exact Ha ].
Qed.

(** X26 (handleNodeSelect, handleNodeDelete, handleNodeValueChange,
    handleNodeMove, handleAddNode, handlePasteNodes): node ids that are
    unique stay unique under selection, deletion, value edits and arrow
    nudges.  Adding a node keeps them unique when the drawn identifier is
    not in use, and a key press (paste included) when the identifiers
    drawn for the clipboard entries are pairwise different and not in
    use; the handlers themselves never check this. *)
Theorem ids_stay_unique (st : Editor.State) :
  Spec.uniqueIds (nodes (Editor.rendered st)) ->
  (forall id evt,
      Spec.uniqueIds (nodes (Editor.rendered (Editor.nodeSelect id evt st))))
  /\
  (forall id,
      Spec.uniqueIds (nodes (Editor.rendered (Editor.nodeDelete id st)))) /\
  (forall id portName value,
      Spec.uniqueIds
        (nodes (Editor.rendered (Widgets.valueChange id portName value st))))
  /\
  (forall v mouse newNodeId nodeTypeId,
      ~ In newNodeId (map n_id (nodes (Editor.rendered st))) ->
      Spec.uniqueIds
        (nodes (Editor.rendered
                  (Widgets.handleBlockMenuSelect v mouse newNodeId
                                                 nodeTypeId st)))) /\
  (forall v mouse newNodeId e blockMenuOpen clipboard,
      (forall i j, i < length clipboard -> j < length clipboard ->
                   newNodeId i = newNodeId j -> i = j) ->
      (forall i, i < length clipboard ->
                 ~ In (newNodeId i) (map n_id (nodes (Editor.rendered st))))
      ->
      Spec.uniqueIds
        (nodes
           (Editor.rendered
              (Keys.editor
                 (Keys.keyDown v mouse newNodeId e blockMenuOpen
                    {| Keys.editor := st;
                       Keys.clipboardRef := clipboard |}))))).
Proof.
  unfold Spec.uniqueIds. intros Huniq.
  assert (Hmap : forall g, (forall n, n_id (g n) = n_id n) ->
    List.NoDup (map n_id (map g (nodes (Editor.rendered st))))).
  { intros g Hg. rewrite ids_map by exact Hg. exact Huniq. }
  assert (Hdel : forall id,
    List.NoDup
      (map n_id (nodes (Editor.rendered (Editor.nodeDelete id st))))).
  { intros id. apply NoDup_map_filter. exact Huniq. }
  split; [ | split; [ | split; [ | split ] ] ].
  - intros id evt.
    unfold Editor.rendered at 1, Editor.nodeSelect,
      NodeSystem.handleNodeSelect, NodeSystem.set, History.set.
    cbn [Editor.history].
    destruct id as [ | ids | id ]; cbn [History.present nodes].
    + apply Hmap. reflexivity.
    + apply Hmap. reflexivity.
    + destruct (match evt with Some _ => _ | None => _ end); apply Hmap;
        intros n; [ destruct (String.eqb (n_id n) id) | ]; reflexivity.
  - exact Hdel.
  - intros id portName value. rewrite valueChange_rendered.
    apply Hmap. intros n. destruct (String.eqb (n_id n) id); reflexivity.
  - intros v mouse newNodeId nodeTypeId Hfresh.
    unfold Widgets.handleBlockMenuSelect.
    destruct (ConnectionDrag.platformRect v); [ | exact Huniq ].
    unfold Editor.rendered at 1, Keys.withHistory,
      Authoring.handleAddNode, NodeSystem.set, History.set.
    cbn [Editor.history History.present nodes].
    rewrite map_app. apply List.NoDup_app.
    + exact Huniq.
    + cbn. apply List.NoDup_cons; [ intros [] | apply List.NoDup_nil ].
    + intros a Ha [ <- | [] ]. exact (Hfresh Ha).
  - intros v mouse newNodeId e blockMenuOpen clipboard Hinj Hfresh.
    unfold Keys.keyDown. cbn [Keys.editor Keys.clipboardRef].
    destruct (Keyboard.shortcutOf e blockMenuOpen);
      cbn [Keys.editor]; try exact Huniq.
    + destruct (Clipboard.deleteBranch _); [ apply Hdel | exact Huniq ].
    + destruct (Clipboard.cutBranch _ _) as [cb [ ids | ]];
        [ apply Hdel | exact Huniq ].
    + unfold Clipboard.pasteBranch.
      destruct clipboard as [ | first rest ]; [ exact Huniq | ].
      destruct (ConnectionDrag.platformRect v); [ | exact Huniq ].
      cbn [Keys.editor]. rewrite paste_rendered. cbn [nodes].
      rewrite map_app, ids_map by reflexivity.
      rewrite (pasted_ids _ newNodeId) by reflexivity.
      apply fresh_ids_unique; assumption.
    + destruct (Keyboard.handleKeyDown e blockMenuOpen
                  (nodes (Editor.rendered st))) as [ | m0 ms0 ] eqn:Hcalls.
      * unfold Editor.rendered at 1, Editor.keyDown. cbn [Editor.history].
        rewrite Hcalls. exact Huniq.
      * assert (Hne : m0 :: ms0 <> []) by discriminate.
        destruct (exists_last Hne) as [ms [m Hlast]].
        rewrite Hlast in Hcalls. unfold Editor.rendered at 1.
        rewrite (keyDown_keeps_last_move_only e blockMenuOpen st ms m Hcalls).
        apply Hmap. intros n.
        destruct (String.eqb (n_id n) (Keyboard.mv_id m)); reflexivity.
Qed.

(** X26, witness: two entries pasted into the chain under fresh ids. *)
Lemma ids_stay_unique_witness :
  let st := Sample.mounted Sample.chain 2 in
  let clipboard := [ Sample.node "a" "Add" 0 0 None;
                     Sample.node "b" "Add" 200 0 None ] in
  Spec.uniqueIds (nodes (Editor.rendered st)) /\
  (forall i j, i < length clipboard -> j < length clipboard ->
               Desk.newNodeId i = Desk.newNodeId j -> i = j) /\
  (forall i, i < length clipboard ->
             ~ In (Desk.newNodeId i)
                  (map n_id (nodes (Editor.rendered st)))) /\
  Spec.uniqueIds
    (nodes
       (Editor.rendered
          (Keys.editor
             (Keys.keyDown Scene.view (Scene.at_ 0 0) Desk.newNodeId
                (Desk.ctrl "v") false
                {| Keys.editor := st; Keys.clipboardRef := clipboard |})))).
Proof.
  intros st clipboard.
  assert (Huniq : Spec.uniqueIds (nodes (Editor.rendered st))).
  { unfold Spec.uniqueIds. cbn.
    repeat (apply List.NoDup_cons; [ cbn; intuition discriminate | ]).
    apply List.NoDup_nil. }
  assert (Hinj : forall i j, i < length clipboard -> j < length clipboard ->
                             Desk.newNodeId i = Desk.newNodeId j -> i = j).
  { intros i j Hi Hj. cbn in Hi, Hj.
    destruct i as [ | [ | i ] ]; destruct j as [ | [ | j ] ];
      try lia; cbn; intros; discriminate. }
  assert (Hfresh : forall i, i < length clipboard ->
                             ~ In (Desk.newNodeId i)
                                  (map n_id (nodes (Editor.rendered st)))).
  { intros i Hi. cbn in Hi.
    destruct i as [ | [ | i ] ]; try lia; cbn; intuition discriminate. }
  split; [ exact Huniq | ]. split; [ exact Hinj | ].
  split; [ exact Hfresh | ].
  exact (proj2 (proj2 (proj2 (proj2 (ids_stay_unique st Huniq))))
           Scene.view (Scene.at_ 0 0) Desk.newNodeId (Desk.ctrl "v") false
           clipboard Hinj Hfresh).
Defined.

(** ** Dragging a selected group *)

(** X27 (NodePlatform onMove wrapper, handleNodeMove): a move of a dragged
    node that is selected, together with other nodes, in the snapshot its
    closures belong to.  The wrapper asks for every selected node to be
    translated by the pointer's displacement, but every request is applied
    to that same snapshot and replaces the previous one: the store's
    present becomes the snapshot with only the last selected node (in list
    order) translated.  The other selected nodes, the dragged one included
    unless it is the last, stay where they were in the snapshot. *)
Theorem group_drag_moves_last_selected
        (closure : AppState) (id : string) (x y : R) (st : Editor.State)
        (node lastSelected : NodeData) (others : list NodeData) :
  find (fun n => String.eqb (n_id n) id) (nodes closure) = Some node ->
  isSelected node = true ->
  List.filter isSelected (nodes closure) = others ++ [lastSelected] ->
  let after :=
    History.present (Editor.history (Session.nodeMoveFrom closure id x y st))
  in
  nodes after =
    map (fun n => if String.eqb (n_id n) (n_id lastSelected)
                  then withPosition n (n_x lastSelected + (x - n_x node))
                                      (n_y lastSelected + (y - n_y node))
                  else n) (nodes closure) /\
  connections after = connections closure /\
  (forall n, In n (nodes closure) -> n_id n <> n_id lastSelected ->
             In n (nodes after)).
Proof.
  intros Hfind Hsel Hgroup after.
  assert (Hafter : after =
    {| nodes :=
         map (fun n => if String.eqb (n_id n) (n_id lastSelected)
                       then withPosition n
                              (n_x lastSelected + (x - n_x node))
                              (n_y lastSelected + (y - n_y node))
                       else n) (nodes closure);
       connections := connections closure |}).
  { subst after. unfold Session.nodeMoveFrom, Session.onMove.
    rewrite Hfind, Hsel, Hgroup. cbn [Editor.history].
    rewrite map_app, fold_left_app.
    cbn [map fold_left Keyboard.mv_id Keyboard.mv_x Keyboard.mv_y].
    unfold NodeSystem.handleNodeMove at 1, NodeSystem.set, History.set.
    destruct (Editor.isDraggingRef st); reflexivity. }
  rewrite Hafter. cbn [nodes connections].
  split; [ reflexivity | ]. split; [ reflexivity | ].
  intros n Hn Hid. apply in_map_iff. exists n. split; [ | exact Hn ].
  apply String.eqb_neq in Hid. rewrite Hid. reflexivity.
Qed.

(** X27, witness: dragging [a] while [a] and [b] are selected leaves [a]
    where it was. *)
Lemma group_drag_moves_last_selected_witness :
  let st := Sample.mounted Sample.twoSelected 0 in
  let a := Sample.node "a" "Add" 0 0 (Some true) in
  let b := Sample.node "b" "Add" 100 0 (Some true) in
  find (fun n => String.eqb (n_id n) "a") (nodes Sample.twoSelected)
    = Some a /\
  isSelected a = true /\
  List.filter isSelected (nodes Sample.twoSelected) = [a] ++ [b] /\
  In a (nodes (History.present
                 (Editor.history
                    (Session.nodeMoveFrom Sample.twoSelected "a" 30 40
                                          st)))).
Proof.
  intros st a b.
  assert (Hfind : find (fun n => String.eqb (n_id n) "a")
                       (nodes Sample.twoSelected) = Some a)
    by reflexivity.
  assert (Hgroup : List.filter isSelected (nodes Sample.twoSelected)
                   = [a] ++ [b]) by reflexivity.
  split; [ exact Hfind | ]. split; [ reflexivity | ].
  split; [ exact Hgroup | ].
  apply (proj2 (proj2
    (group_drag_moves_last_selected Sample.twoSelected "a" 30 40 st a b [a]
       Hfind eq_refl Hgroup))).
  - left. reflexivity.
  - discriminate.
Defined.

(** ** Saving and loading a graph *)

Lemma round_trip_node (n : NodeData) :
  Serialize.deserializeNode
    (map Serialize.jsonCell (Serialize.serializeNode n))
  = Serialize.rawNode n.
Proof.
  unfold Serialize.serializeNode, Serialize.rawNode,
    Serialize.truthyNumber.
  destruct (n_data n) as [ data | ];
    [ destruct (decide (data = ∅)) | ];
    (destruct (n_width n) as [ w | ]; [ destruct (Req_dec_T w 0) | ]);
    (destruct (n_height n) as [ h | ]; [ destruct (Req_dec_T h 0) | ]);
    cbn;
    unfold Serialize.deserializeNode, Serialize.whenTruthy; cbn;
    repeat match goal with
           | |- context [Req_dec_T ?r 0] =>
               destruct (Req_dec_T r 0); [ contradiction | ]
           end;
    reflexivity.
Qed.

Lemma round_trip_connection (c : Connection) :
  Serialize.deserializeConnection
    (map Serialize.jsonCell (Serialize.serializeConnection c))
  = Serialize.rawConnection c.
Proof. reflexivity. Qed.

Lemma round_near (r : R) :
  (- / 2 < Serialize.round r - r <= / 2)%R.
Proof.
  unfold Serialize.round.
  destruct (base_Int_part (r + / 2)) as [Hle Hgt]. lra.
Qed.

(** X28 (serializeGraph, deserializeGraph): loading what was saved gives
    the nodes and the connections in their order, each node with its id,
    its type and its position rounded to the nearest integer (at most half
    a unit off on each axis), with a data record exactly when its data
    were not empty (the record is what JSON reads back from them) and with
    its width and height unless they are zero, and each connection with
    its four identifiers; the selection flags are not saved.  A parsed
    text that does not have exactly two entries is rejected. *)
Theorem saved_graph_loads_back
        (nodes_ : list NodeData) (connections_ : list Connection) :
  Serialize.deserializeGraph
    (Serialize.throughJson (Serialize.serializedState nodes_ connections_))
  = Some {| Serialize.g_nodes := map Serialize.rawNode nodes_;
            Serialize.g_connections :=
              map Serialize.rawConnection connections_ |} /\
  (forall n, In n nodes_ ->
             (Rabs (Serialize.round (n_x n) - n_x n) <= / 2)%R /\
             (Rabs (Serialize.round (n_y n) - n_y n) <= / 2)%R) /\
  (forall state, length state <> 2 ->
                 Serialize.deserializeGraph state = None).
Proof.
  split; [ | split ].
  - unfold Serialize.serializedState, Serialize.throughJson,
      Serialize.deserializeGraph. cbn [map].
    rewrite !map_map.
    rewrite (map_ext _ _ round_trip_node).
    rewrite (map_ext _ _ round_trip_connection). reflexivity.
  - intros n _. split; apply Rabs_le;
      [ pose proof (round_near (n_x n)) | pose proof (round_near (n_y n)) ];
      lra.
  - intros state Hlen.
    destruct state as [ | a [ | b [ | c rest ] ] ]; try reflexivity.
    cbn in Hlen. congruence.
Qed.

(** X28, witness: an empty parsed text is rejected. *)
Lemma saved_graph_loads_back_witness :
  length ([] : list Serialize.Rows) <> 2 /\
  Serialize.deserializeGraph [] = None.
Proof.
  assert (Hlen : length ([] : list Serialize.Rows) <> 2) by discriminate.
  split; [ exact Hlen | ].
  exact (proj2 (proj2 (saved_graph_loads_back [] [])) [] Hlen).
Defined.

(** ** Colour conversions *)

Section ColourConversions.
Local Open Scope R_scope.

Lemma div_lower (n d l : R) : 0 < d -> l * d <= n -> l <= n / d.
Proof.
  intros Hd H. apply (Rmult_le_reg_r d); [ exact Hd | ].
  unfold Rdiv. rewrite Rmult_assoc, Rinv_l by lra. lra.
Qed.

Lemma div_upper (n d u : R) : 0 < d -> n <= u * d -> n / d <= u.
Proof.
  intros Hd H. apply (Rmult_le_reg_r d); [ exact Hd | ].
  unfold Rdiv. rewrite Rmult_assoc, Rinv_l by lra. lra.
Qed.

Lemma div_strict_upper (n d u : R) : 0 < d -> n < u * d -> n / d < u.
Proof.
  intros Hd H. apply (Rmult_lt_reg_r d); [ exact Hd | ].
  unfold Rdiv. rewrite Rmult_assoc, Rinv_l by lra. lra.
Qed.

Lemma div_strict_lower (n d l : R) : 0 < d -> l * d < n -> l < n / d.
Proof.
  intros Hd H. apply (Rmult_lt_reg_r d); [ exact Hd | ].
  unfold Rdiv. rewrite Rmult_assoc, Rinv_l by lra. lra.
Qed.

Lemma Int_part_between (x : R) (k : Z) :
  IZR k <= x < IZR k + 1 -> Int_part x = k.
Proof. intros H. symmetry. apply Int_part_spec. lra. Qed.

(** The sector computation of [hsvToRgb] on a hue of sector [k]. *)
Lemma hsvToRgb_sector (k : Z) (f s v : R) :
  (0 <= k < 6)%Z -> 0 <= f < 1 ->
  Color.hsvToRgb ((IZR k + f) / 6 * 360) (s * 100) (v * 100) =
  let p := v * (1 - s) in
  let q := v * (1 - f * s) in
  let t := v * (1 - (1 - f) * s) in
  let '(r, g, b) :=
    match k with
    | 0%Z => (v, t, p)
    | 1%Z => (q, v, p)
    | 2%Z => (p, v, t)
    | 3%Z => (p, q, v)
    | 4%Z => (t, p, v)
    | _ => (v, p, q)
    end in
  [Color.round (r * 255); Color.round (g * 255); Color.round (b * 255)].
Proof.
  intros Hk Hf. unfold Color.hsvToRgb.
  replace ((IZR k + f) / 6 * 360 / 360 * 6) with (IZR k + f) by field.
  replace (s * 100 / 100) with s by field.
  replace (v * 100 / 100) with v by field.
  rewrite (Int_part_between (IZR k + f) k) by lra.
  replace (IZR k + f - IZR k) with f by ring.
  rewrite Z.rem_small by lia.
  assert (k = 0 \/ k = 1 \/ k = 2 \/ k = 3 \/ k = 4 \/ k = 5)%Z
    as [-> | [-> | [-> | [-> | [-> | ->]]]]] by lia; reflexivity.
Qed.

Lemma triple_eq (x y z x' y' z' : R) :
  x = x' -> y = y' -> z = z' -> (x, y, z) = (x', y', z').
Proof. intros -> -> ->. reflexivity. Qed.

Ltac sat_bounds :=
  first [ lra | split; [ apply div_lower | apply div_upper ]; lra ].

Ltac decide_tests :=
  repeat match goal with
         | |- context [Req_dec_T ?x ?y] =>
             destruct (Req_dec_T x y); try (exfalso; lra)
         | |- context [Rlt_dec ?x ?y] =>
             destruct (Rlt_dec x y); try (exfalso; lra)
         end.

(** What [rgbToHsv] computes, in the form [hsvToRgb] takes it apart:
    a sector [k], a position [f] in the sector, a saturation and a value
    from which the sector formulas give back the three channels. *)
Lemma rgbToHsv_sector (r g b : R) :
  0 <= r -> 0 <= g -> 0 <= b ->
  exists (k : Z) (f sat val : R),
    (0 <= k < 6)%Z /\ 0 <= f < 1 /\ 0 <= sat <= 1 /\ 0 <= val /\
    Color.rgbToHsv r g b =
      {| Color.h := (IZR k + f) / 6 * 360; Color.s := sat * 100;
         Color.v := val * 100 |} /\
    (let p := val * (1 - sat) in
     let q := val * (1 - f * sat) in
     let t := val * (1 - (1 - f) * sat) in
     match k with
     | 0%Z => (val, t, p)
     | 1%Z => (q, val, p)
     | 2%Z => (p, val, t)
     | 3%Z => (p, q, val)
     | 4%Z => (t, p, val)
     | _ => (val, p, q)
     end) = (r / 255, g / 255, b / 255).
Proof.
  intros Hr Hg Hb. unfold Color.rgbToHsv. cbv zeta.
  set (a := r / 255). set (b' := g / 255). set (c := b / 255).
  assert (Ha : 0 <= a) by (unfold a; lra).
  assert (Hb' : 0 <= b') by (unfold b'; lra).
  assert (Hc : 0 <= c) by (unfold c; lra).
  clearbody a b' c. clear r g b Hr Hg Hb.
  destruct (Rle_dec b' a) as [Hba | Hba];
    destruct (Rle_dec c a) as [Hca | Hca];
    destruct (Rle_dec c b') as [Hcb | Hcb]; try (exfalso; lra).
  - (* a is the greatest, c the least *)
    rewrite (Rmax_left a b'), (Rmax_left a c) by lra.
    rewrite (Rmin_right a b'), (Rmin_right b' c) by lra.
    destruct (Req_dec_T a c) as [Hgray | Hcolour].
    + assert (b' = a) by lra. subst c b'.
      exists 0%Z, 0, 0, a. decide_tests.
      * split; [ lia | ]. split; [ lra | ]. split; [ sat_bounds | ].
        split; [ lra | ]. split.
        -- f_equal; field.
        -- cbv zeta. apply triple_eq; ring.
      * split; [ lia | ]. split; [ lra | ]. split; [ sat_bounds | ].
        split; [ lra | ]. split.
        -- f_equal; field; lra.
        -- cbv zeta. apply triple_eq; ring.
    + assert (Hd : 0 < a - c) by lra.
      assert (Hpos : 0 < a) by lra.
      destruct (Req_dec_T b' a) as [Hfull | Hpart].
      * (* the hue is exactly at the end of sector 0 *)
        subst b'. exists 1%Z, 0, ((a - c) / a), a. decide_tests.
        split; [ lia | ]. split; [ lra | ]. split; [ sat_bounds | ].
        split; [ lra | ]. split.
        -- f_equal; field; lra.
        -- cbv zeta. apply triple_eq; field; lra.
      * exists 0%Z, ((b' - c) / (a - c)), ((a - c) / a), a. decide_tests.
        split; [ lia | ]. split.
        { split; [ apply div_lower | apply div_strict_upper ]; lra. }
        split; [ sat_bounds | ]. split; [ lra | ].
        split.
        -- f_equal; field; lra.
        -- cbv zeta. apply triple_eq; field; lra.
  - (* a is the greatest, b' the least, b' < c *)
    rewrite (Rmax_left a b'), (Rmax_left a c) by lra.
    rewrite (Rmin_right a b'), (Rmin_left b' c) by lra.
    assert (Hd : 0 < a - b') by lra.
    exists 5%Z, ((b' - c) / (a - b') + 1), ((a - b') / a), a. decide_tests.
    split; [ lia | ]. split.
    { assert (-1 <= (b' - c) / (a - b')) by (apply div_lower; lra).
      assert ((b' - c) / (a - b') < 0) by (apply div_strict_upper; lra).
      lra. }
    split; [ sat_bounds | ]. split; [ lra | ].
    split.
    + f_equal; field; lra.
    + cbv zeta. apply triple_eq; field; lra.
  - (* c is the greatest, b' the least *)
    rewrite (Rmax_left a b'), (Rmax_right a c) by lra.
    rewrite (Rmin_right a b'), (Rmin_left b' c) by lra.
    assert (Hd : 0 < c - b') by lra.
    exists 4%Z, ((a - b') / (c - b')), ((c - b') / c), c. decide_tests.
    split; [ lia | ]. split.
    { split; [ apply div_lower | apply div_strict_upper ]; lra. }
    split; [ sat_bounds | ]. split; [ lra | ].
    split.
    + f_equal; field; lra.
    + cbv zeta. apply triple_eq; field; lra.
  - (* b' is the greatest, c the least *)
    rewrite (Rmax_right a b'), (Rmax_left b' c) by lra.
    rewrite (Rmin_left a b'), (Rmin_right a c) by lra.
    assert (Hd : 0 < b' - c) by lra.
    destruct (Req_dec_T c a) as [Hsame | Hless].
    + subst c.
      exists 2%Z, 0, ((b' - a) / b'), b'. decide_tests.
      split; [ lia | ]. split; [ lra | ]. split; [ sat_bounds | ].
      split; [ lra | ]. split.
      * f_equal; field; lra.
      * cbv zeta. apply triple_eq; field; lra.
    + exists 1%Z, ((c - a) / (b' - c) + 1), ((b' - c) / b'), b'.
      decide_tests.
      split; [ lia | ]. split.
      { assert (-1 < (c - a) / (b' - c)) by (apply div_strict_lower; lra).
        assert ((c - a) / (b' - c) < 0) by (apply div_strict_upper; lra).
        lra. }
      split; [ sat_bounds | ]. split; [ lra | ].
      split.
      * f_equal; field; lra.
      * cbv zeta. apply triple_eq; field; lra.
  - (* b' is the greatest, a the least, a < c *)
    rewrite (Rmax_right a b'), (Rmax_left b' c) by lra.
    rewrite (Rmin_left a b'), (Rmin_left a c) by lra.
    assert (Hd : 0 < b' - a) by lra.
    destruct (Req_dec_T c b') as [Hfull | Hpart].
    + subst c.
      exists 3%Z, 0, ((b' - a) / b'), b'. decide_tests.
      split; [ lia | ]. split; [ lra | ]. split; [ sat_bounds | ].
      split; [ lra | ]. split.
      * f_equal; field; lra.
      * cbv zeta. apply triple_eq; field; lra.
    + exists 2%Z, ((c - a) / (b' - a)), ((b' - a) / b'), b'. decide_tests.
      split; [ lia | ]. split.
      { split; [ apply div_lower | apply div_strict_upper ]; lra. }
      split; [ sat_bounds | ]. split; [ lra | ].
      split.
      * f_equal; field; lra.
      * cbv zeta. apply triple_eq; field; lra.
  - (* c is the greatest, a the least, a < b' *)
    rewrite (Rmax_right a b'), (Rmax_right b' c) by lra.
    rewrite (Rmin_left a b'), (Rmin_left a c) by lra.
    assert (Hd : 0 < c - a) by lra.
    exists 3%Z, ((a - b') / (c - a) + 1), ((c - a) / c), c. decide_tests.
    split; [ lia | ]. split.
    { assert (-1 < (a - b') / (c - a)) by (apply div_strict_lower; lra).
      assert ((a - b') / (c - a) < 0) by (apply div_strict_upper; lra).
      lra. }
    split; [ sat_bounds | ]. split; [ lra | ].
    split.
    + f_equal; field; lra.
    + cbv zeta. apply triple_eq; field; lra.
Qed.

Lemma round_integer (z : Z) : Color.round (IZR z) = IZR z.
Proof.
  unfold Color.round. rewrite (Int_part_between (IZR z + / 2) z); lra.
Qed.

Lemma clamp_channel (x : R) :
  exists z : Z, Color.clamp (Color.round x) 0 255 = IZR z /\
                0 <= IZR z <= 255.
Proof.
  unfold Color.clamp, Color.round.
  set (k := Int_part (x + / 2)).
  unfold Rmax, Rmin.
  destruct (Rle_dec 255 (IZR k)); destruct (Rle_dec 0 _);
    first [ exists 255%Z; split; [ reflexivity | lra ]
          | exists k; split; [ reflexivity | lra ]
          | exists 0%Z; split; [ reflexivity | lra ] ].
Qed.

(** X29 (rgbToHsv, hsvToRgb, vec3ToRgb): converting a colour to hue,
    saturation and value and back gives the colour again.  For every
    triple of non-negative channels the hue is in [0, 360), the saturation
    in [0, 100] and the value non-negative, and [hsvToRgb] of them is the
    triple with each channel rounded; so for the whole-number channels in
    0..255 that [vec3ToRgb] produces from any three numbers, the round
    trip is the identity. *)
Theorem hsv_gives_back_rgb (r g b : R) :
  0 <= r -> 0 <= g -> 0 <= b ->
  let c := Color.rgbToHsv r g b in
  Color.hsvToRgb (Color.h c) (Color.s c) (Color.v c)
  = [Color.round r; Color.round g; Color.round b] /\
  0 <= Color.h c < 360 /\ 0 <= Color.s c <= 100 /\ 0 <= Color.v c /\
  (forall x y z,
      [r; g; b] = Color.vec3ToRgb [x; y; z] ->
      Color.hsvToRgb (Color.h c) (Color.s c) (Color.v c) = [r; g; b]).
Proof.
  intros Hr Hg Hb c.
  destruct (rgbToHsv_sector r g b Hr Hg Hb)
    as [k [f [sat [val [Hk [Hf [Hsat [Hval [Hc Hback]]]]]]]]].
  assert (Hround :
    Color.hsvToRgb (Color.h c) (Color.s c) (Color.v c)
    = [Color.round r; Color.round g; Color.round b]).
  { subst c. rewrite Hc. cbn [Color.h Color.s Color.v].
    rewrite hsvToRgb_sector by assumption. cbv zeta in Hback |- *.
    rewrite Hback.
    replace (r / 255 * 255) with r by field.
    replace (g / 255 * 255) with g by field.
    replace (b / 255 * 255) with b by field.
    reflexivity. }
  split; [ exact Hround | ].
  subst c. rewrite Hc in *. cbn [Color.h Color.s Color.v] in *.
  split.
  { assert (0 <= IZR k) by (apply IZR_le; lia).
    assert (IZR k <= 5) by (apply IZR_le; lia). lra. }
  split; [ lra | ]. split; [ lra | ].
  intros x y z Hvec. rewrite Hround.
  unfold Color.vec3ToRgb in Hvec. cbn [map] in Hvec.
  injection Hvec as -> -> ->.
  destruct (clamp_channel (x * 255)) as [zx [-> _]].
  destruct (clamp_channel (y * 255)) as [zy [-> _]].
  destruct (clamp_channel (z * 255)) as [zz [-> _]].
  rewrite !round_integer. reflexivity.
Qed.

(** X29, witness: the colour (255, 128, 0). *)
Lemma hsv_gives_back_rgb_witness :
  0 <= 255 /\ 0 <= 128 /\ 0 <= 0 /\
  Color.hsvToRgb (Color.h (Color.rgbToHsv 255 128 0))
                 (Color.s (Color.rgbToHsv 255 128 0))
                 (Color.v (Color.rgbToHsv 255 128 0))
  = [Color.round 255; Color.round 128; Color.round 0].
Proof.
  assert (H255 : 0 <= 255) by lra.
  assert (H128 : 0 <= 128) by lra.
  assert (H0 : 0 <= 0) by lra.
  split; [ exact H255 | ]. split; [ exact H128 | ]. split; [ exact H0 | ].
  exact (proj1 (hsv_gives_back_rgb 255 128 0 H255 H128 H0)).
Defined.
End ColourConversions.


Lemma channel_pair (x : nat) :
  x < 256 ->
  exists c1 c2, Hex.padStart 2 "0" (Hex.toString16 x)
                = String c1 (String c2 EmptyString) /\
                Hex.parsePair c1 c2 = Some x.
Proof.
  intros Hx.
  assert (Hall : forallb
    (fun x => match Hex.padStart 2 "0" (Hex.toString16 x) with
              | String c1 (String c2 EmptyString) =>
                  match Hex.parsePair c1 c2 with
                  | Some y => (y =? x)%nat
                  | None => false
                  end
              | _ => false
              end) (seq 0 256) = true) by (vm_compute; reflexivity).
  rewrite forallb_forall in Hall.
  specialize (Hall x (proj2 (in_seq 256 0 x) (conj (Nat.le_0_l x) Hx))).
  destruct (Hex.padStart 2 "0" (Hex.toString16 x))
    as [ | c1 [ | c2 [ | ] ] ]; try discriminate.
  exists c1, c2. split; [ reflexivity | ].
  destruct (Hex.parsePair c1 c2) as [ y | ]; [ | discriminate ].
  apply Nat.eqb_eq in Hall. congruence.
Qed.

Lemma parsePair_range (x y : ascii) (n : nat) :
  Hex.parsePair x y = Some n -> n < 256.
Proof.
  unfold Hex.parsePair, Hex.hexValue.
  repeat match goal with
         | |- context [if ?c then _ else _] => destruct c eqn:?
         end; intros [= <-];
    repeat match goal with
           | H : (_ && _)%bool = true |- _ =>
               apply andb_true_iff in H; destruct H
           | H : (_ <=? _)%nat = true |- _ => apply Nat.leb_le in H
           end; lia.
Qed.

(** X30 (rgbToHex, hexToRgb): for whole-number channels below 256,
    [rgbToHex] writes [#] and six characters, and [hexToRgb] reads the
    three channels back from it, with or without the [#].  Whatever
    [hexToRgb] accepts, it returns three channels below 256. *)
Theorem hex_gives_back_rgb (r g b : nat) :
  r < 256 -> g < 256 -> b < 256 ->
  String.length (Hex.rgbToHex r g b) = 7 /\
  Hex.hexToRgb (Hex.rgbToHex r g b) = Some [r; g; b] /\
  Hex.hexToRgb (substring 1 6 (Hex.rgbToHex r g b)) = Some [r; g; b] /\
  (forall hex channels,
      Hex.hexToRgb hex = Some channels ->
      length channels = 3 /\ Forall (fun c => c < 256) channels).
Proof.
  intros Hr Hg Hb.
  destruct (channel_pair r Hr) as [r1 [r2 [Er Pr]]].
  destruct (channel_pair g Hg) as [g1 [g2 [Eg Pg]]].
  destruct (channel_pair b Hb) as [b1 [b2 [Eb Pb]]].
  assert (Hhex : Hex.rgbToHex r g b =
    String "#" (String r1 (String r2 (String g1 (String g2
      (String b1 (String b2 EmptyString))))))).
  { unfold Hex.rgbToHex. cbn [map String.concat]. rewrite Er, Eg, Eb.
    reflexivity. }
  rewrite Hhex. cbn [String.length substring].
  split; [ reflexivity | ]. split; [ | split ].
  - unfold Hex.hexToRgb. cbv beta iota zeta. rewrite Pr, Pg, Pb.
    reflexivity.
  - unfold Hex.hexToRgb. cbv zeta.
    destruct r1 as [[] [] [] [] [] [] [] []];
      try (rewrite Pr, Pg, Pb; reflexivity).
    exfalso. unfold Hex.parsePair in Pr. vm_compute in Pr. discriminate Pr.
  - intros hex channels. unfold Hex.hexToRgb. cbv zeta.
    match goal with
    | |- match ?body with EmptyString => _ | String _ _ => _ end = _ -> _ =>
        generalize body
    end.
    intros body.
    destruct body
      as [ | a1 [ | a2 [ | a3 [ | a4 [ | a5 [ | a6 [ | a7 rest ] ] ] ] ] ] ];
      try discriminate.
    destruct (Hex.parsePair a1 a2) eqn:E1; [ | discriminate ].
    destruct (Hex.parsePair a3 a4) eqn:E2; [ | discriminate ].
    destruct (Hex.parsePair a5 a6) eqn:E3; [ | discriminate ].
    intros [= <-]. split; [ reflexivity | ].
    constructor; [ eapply parsePair_range; eassumption | ].
    constructor; [ eapply parsePair_range; eassumption | ].
    constructor; [ eapply parsePair_range; eassumption | constructor ].
Qed.

(** X30, witness: the colour (255, 128, 0) is read back from its notation. *)
Lemma hex_gives_back_rgb_witness :
  255 < 256 /\ 128 < 256 /\ 0 < 256 /\
  Hex.hexToRgb (Hex.rgbToHex 255 128 0) = Some [255; 128; 0].
Proof.
  assert (H255 : 255 < 256) by lia.
  assert (H128 : 128 < 256) by lia.
  assert (H0 : 0 < 256) by lia.
  split; [ exact H255 | ]. split; [ exact H128 | ]. split; [ exact H0 | ].
  exact (proj1 (proj2 (hex_gives_back_rgb 255 128 0 H255 H128 H0))).
Defined.

